(** * gripmock: protocol discovery, go_package rewriting and server supervision

    A shallow embedding of [gripmock/gripmock.go] (the wrapper that resolves
    the requested .proto files on the import path, rewrites their
    [go_package] option, runs protoc, builds the generated server and
    supervises it), together with the properties of it that the
    specification states and further properties that the code shows.  The
    earlier revision of the file, which the later one was refactored from,
    is embedded in the module [Legacy].

    Paths, file contents and messages are [string]s.  The Go standard
    library functions the program calls ([path.Clean], [path.Join],
    [path.Dir], [path.Base], [filepath.Rel], [bufio.ScanLines], the two
    regular expressions) are modelled in the first modules; the program's
    own functions follow, one definition per Go function. *)

From Stdlib Require Import Ascii String List Bool Arith Lia ZArith.
From Stdlib Require Import DecimalString DecimalZ.
From stdpp Require Import base option list strings gmap.
Import ListNotations.

(** ** Go's [path], [path/filepath] and [strings] on a Unix host *)

Module GoPath.

Definition is_slash (c : ascii) : bool := Ascii.eqb c "/".

(** [strings.Split(s, sep)] for a one-byte separator: the pieces between
    separators, empty ones included. *)
Fixpoint split_on (sep : ascii) (s : string) : list string :=
  match s with
  | EmptyString => [EmptyString]
  | String c s' =>
      if Ascii.eqb c sep then EmptyString :: split_on sep s'
      else match split_on sep s' with
           | h :: t => String c h :: t
           | [] => [String c EmptyString]
           end
  end.

Definition split_slash (s : string) : list string := split_on "/" s.

(** [strings.Join(l, "/")]. *)
Definition join_slash (l : list string) : string := String.concat "/" l.

(** [filepath.IsAbs] on Unix: [strings.HasPrefix(path, "/")]. *)
Definition IsAbs (p : string) : bool :=
  match p with
  | String c _ => is_slash c
  | EmptyString => false
  end.

(** [strings.HasPrefix(s, prefix)]. *)
Definition HasPrefix (s prefix : string) : bool := String.prefix prefix s.

(** One element of [path.Clean]'s scan.  [stack] is the output built so
    far, innermost element first.  Empty elements and ["."] are dropped;
    [".."] removes the last real element, is kept in front of a relative
    path that has none left, and is dropped at the root. *)
Definition clean_step (rooted : bool) (stack : list string) (c : string)
  : list string :=
  if String.eqb c "" || String.eqb c "." then stack
  else if String.eqb c ".." then
    match stack with
    | top :: rest => if String.eqb top ".." then c :: stack else rest
    | [] => if rooted then [] else [c]
    end
  else c :: stack.

Definition clean_elems (rooted : bool) (elems : list string) : list string :=
  rev (fold_left (clean_step rooted) elems []).

(** [path.Clean] (and [filepath.Clean], the same function on Unix): the
    shortest path equivalent to [p] by purely lexical processing. *)
Definition Clean (p : string) : string :=
  match p with
  | EmptyString => "."
  | _ =>
      let rooted := IsAbs p in
      let elems := clean_elems rooted (split_slash p) in
      if rooted then "/" +:+ join_slash elems
      else match elems with
           | [] => "."
           | _ => join_slash elems
           end
  end.

Definition nonempty (s : string) : bool := negb (String.eqb s "").

(** [path.Join]: empty elements are ignored, the rest is joined with
    slashes and cleaned; the result is empty when every element is. *)
Definition Join (elem : list string) : string :=
  match filter (fun e => nonempty e = true) elem with
  | [] => ""
  | ne => Clean (join_slash ne)
  end.

(** [path.Split]: the path up to and including its last slash, and what
    follows it. *)
Fixpoint Split (p : string) : string * string :=
  match p with
  | EmptyString => ("", "")
  | String c p' =>
      let (d, f) := Split p' in
      match d with
      | EmptyString => if is_slash c then ("/", f) else ("", String c f)
      | _ => (String c d, f)
      end
  end.

(** [path.Dir]. *)
Definition Dir (p : string) : string := Clean (fst (Split p)).

Fixpoint trim_slashes (p : string) : string :=
  match p with
  | EmptyString => ""
  | String c p' =>
      match trim_slashes p' with
      | EmptyString => if is_slash c then "" else String c ""
      | t => String c t
      end
  end.

(** [path.Base]. *)
Definition Base (p : string) : string :=
  match p with
  | EmptyString => "."
  | _ =>
      match snd (Split (trim_slashes p)) with
      | EmptyString => "/"
      | f => f
      end
  end.

(** The path elements [filepath.Rel] walks over. *)
Definition rel_elems (p : string) : list string :=
  filter (fun e => nonempty e = true) (split_slash p).

(** The loop of [filepath.Rel] that positions both paths at their first
    differing elements; the flag tells that it stopped on a difference
    rather than at the end of one of the paths. *)
Fixpoint strip_common (bs ts : list string)
  : list string * list string * bool :=
  match bs, ts with
  | b :: bs', t :: ts' =>
      if String.eqb b t then strip_common bs' ts' else (bs, ts, true)
  | _, _ => (bs, ts, false)
  end.

(** [filepath.Rel] on Unix; [None] is its error.  The program only calls
    it with two rooted paths. *)
Definition Rel (basepath targpath : string) : option string :=
  let base := Clean basepath in
  let targ := Clean targpath in
  if String.eqb targ base then Some "."
  else
    let base := if String.eqb base "." then "" else base in
    if negb (Bool.eqb (IsAbs base) (IsAbs targ)) then None
    else
      let '(bs, ts, broke) := strip_common (rel_elems base) (rel_elems targ) in
      match bs with
      | [] => Some (join_slash ts)
      | b :: _ =>
          if broke && String.eqb b ".." then None
          else Some (join_slash (map (fun _ => "..") bs ++ ts))
      end.

End GoPath.

Import GoPath.

(** ** Text helpers: line scanning and the two regular expressions *)

Module GoText.

Definition LF : string := String "010" "".
Definition CR : string := String "013" "".
Definition DQ : string := String "034" "".

Definition split_lf (s : string) : list string := split_on "010" s.

Fixpoint drop_last_empty (l : list string) : list string :=
  match l with
  | [] => []
  | [x] => if String.eqb x "" then [] else [x]
  | x :: l' => x :: drop_last_empty l'
  end.

Fixpoint dropCR (s : string) : string :=
  match s with
  | EmptyString => ""
  | String c s' =>
      match s' with
      | EmptyString => if Ascii.eqb c "013" then "" else s
      | _ => String c (dropCR s')
      end
  end.

(** The tokens of [bufio.ScanLines] on an input whose lines all fit the
    buffer of the scanner: the text between line feeds, without a trailing
    carriage return; a final line needs no line feed, and an empty final
    piece is not a line. *)
Definition ScanLines (input : string) : list string :=
  map dropCR (drop_last_empty (split_lf input)).

Definition is_blank (c : ascii) : bool :=
  Ascii.eqb c " " || Ascii.eqb c "009".

Fixpoint strip_prefix (pre s : string) : option string :=
  match pre, s with
  | EmptyString, _ => Some s
  | String a pre', String b s' =>
      if Ascii.eqb a b then strip_prefix pre' s' else None
  | String _ _, EmptyString => None
  end.

Fixpoint skip_blanks (s : string) : string :=
  match s with
  | String c s' => if is_blank c then skip_blanks s' else s
  | EmptyString => s
  end.

(** [[ \t]+] at the start of [s]: what follows the blanks. *)
Definition blanks1 (s : string) : option string :=
  match s with
  | String c s' => if is_blank c then Some (skip_blanks s') else None
  | EmptyString => None
  end.

(** [regexp.MatchString("^option[ \t]+go_package[ \t]+=", l)]. *)
Definition match_go_package (l : string) : bool :=
  match strip_prefix "option" l with
  | Some r1 =>
      match blanks1 r1 with
      | Some r2 =>
          match strip_prefix "go_package" r2 with
          | Some r3 =>
              match blanks1 r3 with
              | Some r4 => HasPrefix r4 "="
              | None => false
              end
          | None => false
          end
      | None => false
      end
  | None => false
  end.

(** [regexp.MatchString("^syntax[ \t]", l)]. *)
Definition match_syntax (l : string) : bool :=
  match strip_prefix "syntax" l with
  | Some (String c _) => is_blank c
  | _ => false
  end.

End GoText.

Import GoText.

(** Results of the Go functions that return [(value, error)]: the error is
    its message. *)
Inductive Res (A : Type) : Type :=
| Ok (a : A)
| Err (msg : string).
Arguments Ok {A} a.
Arguments Err {A} msg.

(** ** The go_package rewriter *)

(** What the rewriter sees of its [bufio.Scanner]: the lines it yields
    before [Scan] returns false, and the error [Err] then reports (a failed
    read, a line longer than the scanner's buffer), if any. *)
Record Scanner : Type := { sc_lines : list string; sc_err : option string }.

(** [bufio.MaxScanTokenSize]: the size that the buffer of a scanner made by
    [bufio.NewScanner] grows to. *)
Definition MaxScanTokenSize : N := 65536.

Definition ErrTooLong : string := "bufio.Scanner: token too long".

(** The text before a line feed (or the end of the input) fills the buffer:
    [Scan] then finds no line in a full buffer and stops with
    [bufio.ErrTooLong].  A line of 65535 bytes and its line feed still fit;
    with a carriage return before the line feed they do not. *)
Definition too_long (piece : string) : bool :=
  (MaxScanTokenSize <=? N.of_nat (String.length piece))%N.

(** [Scan] after [Scan] over the pieces of the input between line feeds: the
    lines yielded, and the error that ended the scan, if any. *)
Fixpoint scan (pieces : list string) : list string * option string :=
  match pieces with
  | [] => ([], None)
  | piece :: rest =>
      if too_long piece then ([], Some ErrTooLong)
      else let (lines, err) := scan rest in (dropCR piece :: lines, err)
  end.

(** [bufio.NewScanner] with [bufio.ScanLines] over an input that is read
    without error. *)
Definition NewScanner (input : string) : Scanner :=
  let (lines, err) := scan (drop_last_empty (split_lf input)) in
  {| sc_lines := lines; sc_err := err |}.

Definition go_package_line (newPackage : string) : string :=
  "option go_package = " +:+ DQ +:+ newPackage +:+ DQ +:+ ";".

Definition err_empty_package : string := "empty package name".
Definition err_multiple_syntax : string :=
  "Found more than one " +:+ DQ +:+ "syntax" +:+ DQ +:+ " statement".
Definition err_no_syntax : string :=
  "no " +:+ DQ +:+ "syntax" +:+ DQ +:+ " line found when scanning proto file".

(** The [for s.Scan()] loop of [fixGoPackageProtoStream]: [ow] is what has
    been written so far.  [regexp.MatchString] cannot fail on the two
    constant patterns, and writes to [out] are taken to succeed. *)
Fixpoint rewriteLines (newPackage : string) (lines : list string)
    (foundSyntaxLine : bool) (ow : string) : Res (bool * string) :=
  match lines with
  | [] => Ok (foundSyntaxLine, ow)
  | l :: rest =>
      if match_go_package l then
        rewriteLines newPackage rest foundSyntaxLine ow
      else if match_syntax l then
        if foundSyntaxLine then Err err_multiple_syntax
        else
          let l' := l +:+ LF +:+ go_package_line newPackage +:+ LF in
          rewriteLines newPackage rest true (ow +:+ l' +:+ LF)
      else rewriteLines newPackage rest foundSyntaxLine (ow +:+ l +:+ LF)
  end.

(** [fixGoPackageProtoStream]: the text written to [out] when it returns
    nil, its error otherwise. *)
Definition fixGoPackageProtoStream (s : Scanner) (newPackage : string)
  : Res string :=
  if String.eqb newPackage "" then Err err_empty_package
  else
    match rewriteLines newPackage (sc_lines s) false "" with
    | Err e => Err e
    | Ok (foundSyntaxLine, ow) =>
        match sc_err s with
        | Some e => Err e
        | None => if foundSyntaxLine then Ok ow else Err err_no_syntax
        end
    end.

(** ** Constants of gripmock.go *)

Definition GENERATED_MODULE_NAME : string := "gripmock/generated".

Definition EXITCODE_OTHER_ERROR : nat := 1.
Definition EXITCODE_BUILD_ERROR : nat := 2.
Definition EXITCODE_RUNTIME_ERROR : nat := 3.
Definition EXITCODE_ARGUMENTS_ERROR : nat := 4.

Definition LOG_ERROR : nat := 0.
Definition LOG_INFO : nat := 1.
Definition LOG_VERBOSE : nat := 2.
Definition LOG_DEBUG : nat := 3.
Definition LOG_TRACE : nat := 4.

(** ** What the operating system answers *)

Inductive Errno : Type :=
| ENOENT
| Errno_other (text : string).

Definition errno_text (e : Errno) : string :=
  match e with
  | ENOENT => "no such file or directory"
  | Errno_other t => t
  end.

(** The result of [os.Stat]: file information (is it a directory?) or the
    error of the system call. *)
Inductive StatResult : Type :=
| Stat_ok (isDir : bool)
| Stat_err (e : Errno).

(** [os.IsNotExist(err)] on the error of a [Stat]; false when [err] is nil. *)
Definition IsNotExist (r : StatResult) : bool :=
  match r with
  | Stat_err ENOENT => true
  | _ => false
  end.

(** The message of the [*PathError] a failed [os.Stat(p)] returns. *)
Definition stat_error (p : string) (e : Errno) : string :=
  "stat " +:+ p +:+ ": " +:+ errno_text e.

(** A value logged under a key: a string, a slice of strings or an error
    (its message). *)
Inductive LogValue : Type :=
| LogString (s : string)
| LogStrings (l : list string)
| LogError (msg : string).

(** One line of the log: the verbosity it is written at ([log.V(n)]), its
    message and its key/value pairs, in the order of the call. *)
Record LogEntry : Type :=
  { log_level : nat; log_msg : string; log_kv : list (string * LogValue) }.

Definition logV (level : nat) (msg : string) (kv : list (string * LogValue))
  : list LogEntry :=
  [{| log_level := level; log_msg := msg; log_kv := kv |}].

(** ** The path resolver *)

Section Resolver.

(** The file system as [findProtoInImports] observes it. *)
Variable os_Stat : string -> StatResult.
Variable os_Getwd : Res string.

(** [filepath.Abs] on Unix. *)
Definition Abs (p : string) : Res string :=
  if IsAbs p then Ok (Clean p)
  else match os_Getwd with
       | Err e => Err e
       | Ok wd => Ok (Join [wd; p])
       end.

Definition msg_warning_implicit : string :=
  "WARNING: adding proto file's containing dir as implicit import path. You should specify an appropriate path on the -imports list instead.".

Definition msg_found_in_cwd (protoPath wd : string) : string :=
  "Protocol file " +:+ DQ +:+ protoPath +:+ DQ
  +:+ " not found on any import path, but WAS found relative to the gripmock working directory "
  +:+ DQ +:+ wd +:+ DQ +:+ ".".

Definition err_not_found (protoPath : string) : string :=
  "could not find proto " +:+ DQ +:+ protoPath +:+ DQ +:+ " on import path".

Definition err_cannot_stat (derivedPath : string) (e : Errno) : string :=
  "cannot stat proto file at path " +:+ DQ +:+ derivedPath +:+ DQ +:+ ": "
  +:+ stat_error derivedPath e.

Definition err_is_directory (derivedPath : string) : string :=
  "path " +:+ DQ +:+ derivedPath +:+ DQ +:+ " is a directory".

(** The [for _, imp := range importPaths] loop of [findProtoInImports],
    on the cleaned [protoPath]: the values of [matchedImp] and
    [matchedRel] when it ends (both empty when no entry matched), or the
    error it returns from inside the loop. *)
Fixpoint searchImports (importPaths : list string) (protoPath : string)
  : list LogEntry * Res (string * string) :=
  match importPaths with
  | [] => ([], Ok ("", ""))
  | imp0 :: rest =>
      let imp := Clean imp0 in
      let lg := logV LOG_TRACE "checking import"
                  [("dir", LogString imp); ("proto", LogString protoPath)] in
      let next (lg : list LogEntry) :=
        let (lg', r) := searchImports rest protoPath in (lg ++ lg', r) in
      if IsAbs protoPath then
        match Abs imp with
        | Err e => (lg, Err ("making path " +:+ imp +:+ " absolute: " +:+ e))
        | Ok absImp =>
            let lg := lg ++ logV LOG_TRACE "testing path containment"
                          [("containerPath", LogString absImp);
                           ("containedPath", LogString protoPath)] in
            match Rel absImp protoPath with
            | Some relPath =>
                if nonempty relPath && negb (HasPrefix relPath "../") then
                  let lg := lg ++ logV LOG_TRACE "matched absolute path prefix"
                                [("proto", LogString protoPath);
                                 ("dir", LogString imp);
                                 ("absdir", LogString absImp);
                                 ("rel", LogString relPath)] in
                  let rel := Dir relPath in
                  let derivedPath := Join [imp; rel; Base protoPath] in
                  match os_Stat derivedPath with
                  | Stat_err e =>
                      next (lg ++ logV LOG_TRACE
                        "protocol file appears to be within import path, but could not stat() file"
                        [("derived proto path to stat", LogString derivedPath);
                         ("error", LogError (stat_error derivedPath e))])
                  | Stat_ok _ =>
                      (lg ++ logV LOG_TRACE "found abs path protocol file"
                         [("derived path", LogString derivedPath);
                          ("import", LogString imp);
                          ("relpath", LogString rel)],
                       Ok (imp, rel))
                  end
                else next lg
            | None => next lg
            end
        end
      else
        let importProtoPath := Join [imp; protoPath] in
        let lg := lg ++ logV LOG_TRACE "testing path existence"
                      [("path", LogString importProtoPath)] in
        if IsNotExist (os_Stat importProtoPath) then next lg
        else (lg ++ logV LOG_TRACE "matched relative path"
                [("proto", LogString protoPath); ("dir", LogString imp);
                 ("fullPath", LogString importProtoPath)],
              Ok (imp, Dir protoPath))
  end.

(** [findProtoInImports]: the import path the proto file was matched on
    and the directory of the proto file relative to it, with the lines
    logged on the way. *)
Definition findProtoInImports (importPaths : list string) (protoPath : string)
  : list LogEntry * Res (string * string) :=
  let lg0 := logV LOG_TRACE "Searching import paths for protocol file"
               [("proto", LogString protoPath);
                ("importPaths", LogStrings importPaths)] in
  if String.eqb protoPath "" then (lg0, Err "empty input")
  else
    let protoPath := Clean protoPath in
    match searchImports importPaths protoPath with
    | (lg1, Err e) => (lg0 ++ lg1, Err e)
    | (lg1, Ok (matchedImp, matchedRel)) =>
        let fallback : list LogEntry * Res (string * string) :=
          if String.eqb matchedRel "" && String.eqb matchedImp "" then
            if IsNotExist (os_Stat protoPath) then
              (logV LOG_INFO
                 "Protocol file not found on any import path, see README for details"
                 [],
               Err (err_not_found protoPath))
            else
              let wd := match os_Getwd with Ok wd => wd | Err _ => "" end in
              ((if IsAbs protoPath then []
                else logV LOG_VERBOSE (msg_found_in_cwd protoPath wd) [])
               ++ logV LOG_INFO msg_warning_implicit
                    [("importpath", LogString (Dir protoPath))],
               Ok (Dir protoPath, "."))
          else ([], Ok (matchedImp, matchedRel)) in
        match fallback with
        | (lg2, Err e) => (lg0 ++ lg1 ++ lg2, Err e)
        | (lg2, Ok (matchedImp, matchedRel)) =>
            let derivedPath := Join [matchedImp; matchedRel; Base protoPath] in
            (lg0 ++ lg1 ++ lg2,
             match os_Stat derivedPath with
             | Stat_err e => Err (err_cannot_stat derivedPath e)
             | Stat_ok true => Err (err_is_directory derivedPath)
             | Stat_ok false => Ok (matchedImp, matchedRel)
             end)
        end
    end.

End Resolver.

(** ** The file system and the working directory *)

Inductive Node : Type :=
| File (content : string)
| Directory.

(** The part of the machine the program acts on: the working directory of
    the process and the file tree, keyed by absolute, cleaned paths.  There
    are no symbolic links, and every operation is permitted. *)
Record World : Type := { cwd : string; fs : gmap string Node }.

(** Where a path leads for a process whose working directory is [wd], when
    every directory on the way exists. *)
Definition abspath (wd p : string) : string :=
  if IsAbs p then Clean p else Join [wd; p].

Definition node_at (m : gmap string Node) (q : string) : option Node :=
  if String.eqb q "/" then Some Directory else m !! q.

Definition ENOTDIR : Errno := Errno_other "not a directory".
Definition EISDIR : Errno := Errno_other "is a directory".
Definition EEXIST : Errno := Errno_other "file exists".

(** The name of an entry: an element of a path that is neither empty nor
    ["."] nor [".."]. *)
Definition is_name (c : string) : bool :=
  negb (String.eqb c "") && negb (String.eqb c ".") && negb (String.eqb c "..").

(** The text of the absolute path with the given elements, innermost
    first. *)
Definition path_of (stack : list string) : string :=
  "/" +:+ join_slash (rev stack).

(** The kernel follows a path element by element, from the directory
    [stack].  Before each element, the empty ones and ["."] included, what
    has been reached must be a directory; [".."] goes to the parent (the
    root is its own parent), a name to the entry of that name, which must
    exist.  [None]: the path has been followed to its end. *)
Fixpoint walk (m : gmap string Node) (stack : list string) (elems : list string)
  : option Errno :=
  match elems with
  | [] => None
  | e :: rest =>
      match node_at m (path_of stack) with
      | Some Directory =>
          let stack' := clean_step true stack e in
          match node_at m (path_of stack') with
          | Some Directory => walk m stack' rest
          | Some (File _) => if is_name e then walk m stack' rest else Some ENOTDIR
          | None => Some ENOENT
          end
      | Some (File _) => Some ENOTDIR
      | None => Some ENOENT
      end
  end.

(** The elements of the working directory, innermost first. *)
Definition cwd_stack (w : World) : list string :=
  fold_left (clean_step true) (split_slash (cwd w)) [].

(** An absolute path is followed from the root, a relative one from the
    working directory. *)
Definition start_stack (w : World) (p : string) : list string :=
  if IsAbs p then [] else cwd_stack w.

(** What following the whole of [p] runs into, if anything. *)
Definition lookup_errno (w : World) (p : string) : option Errno :=
  walk (fs w) (start_stack w p) (split_slash p).

(** [os.Stat]: the path is followed to its end, so that [file/] and
    [file/..] are refused ([ENOTDIR]) and [nosuch/..] is not found. *)
Definition sys_stat (w : World) (p : string) : StatResult :=
  if String.eqb p "" then Stat_err ENOENT
  else
    match lookup_errno w p with
    | Some e => Stat_err e
    | None =>
        match node_at (fs w) (abspath (cwd w) p) with
        | Some (File _) => Stat_ok false
        | Some Directory => Stat_ok true
        | None => Stat_err ENOENT
        end
    end.

Definition sys_getwd (w : World) : Res string :=
  match node_at (fs w) (cwd w) with
  | Some Directory => Ok (cwd w)
  | _ => Err ("getwd: " +:+ errno_text ENOENT)
  end.

(** The message of an [*os.PathError]; [p] is the path as it was given. *)
Definition path_error (op p : string) (e : Errno) : string :=
  op +:+ " " +:+ p +:+ ": " +:+ errno_text e.

(** [os.Chdir]. *)
Definition os_Chdir (w : World) (p : string) : Res World :=
  match sys_stat w p with
  | Stat_ok true => Ok {| cwd := abspath (cwd w) p; fs := fs w |}
  | Stat_ok false => Err (path_error "chdir" p ENOTDIR)
  | Stat_err e => Err (path_error "chdir" p e)
  end.

(** The elements of a path without the empty ones that slashes at its end
    give. *)
Fixpoint strip_trailing_empty (elems : list string) : list string :=
  match elems with
  | [] => []
  | e :: rest =>
      match strip_trailing_empty rest with
      | [] => if String.eqb e "" then [] else [e]
      | r => e :: r
      end
  end.

(** What making or opening an entry runs into on the way to the directory
    of the entry: every element but the last is followed, and what is
    reached must be a directory. *)
Definition parent_errno (w : World) (p : string) : option Errno :=
  walk (fs w) (start_stack w p)
    (removelast (strip_trailing_empty (split_slash p)) ++ ["."]).

(** [os.Mkdir].  Slashes at the end of the path are allowed; the entry is
    made in the directory of the path, which must exist. *)
Definition os_Mkdir (w : World) (p : string) : Res World :=
  if String.eqb p "" then Err (path_error "mkdir" p ENOENT)
  else
    match parent_errno w p with
    | Some e => Err (path_error "mkdir" p e)
    | None =>
        let q := abspath (cwd w) p in
        match node_at (fs w) q with
        | Some _ => Err (path_error "mkdir" p EEXIST)
        | None =>
            match node_at (fs w) (Dir q) with
            | Some Directory => Ok {| cwd := cwd w; fs := <[q := Directory]> (fs w) |}
            | Some (File _) => Err (path_error "mkdir" p ENOTDIR)
            | None => Err (path_error "mkdir" p ENOENT)
            end
        end
    end.

(** The parent that [os.MkdirAll] makes before the directory itself: the
    path up to the slash before its last element, slashes at the end
    skipped ([path[:j-1]]); none when [j] is at most 1. *)
Definition mkdirall_parent (path : string) : option string :=
  let d := fst (Split (trim_slashes path)) in
  if Nat.ltb 1 (String.length d)
  then Some (String.substring 0 (String.length d - 1) d)
  else None.

(** The recursion of [os.MkdirAll]; each call is on a shorter path, and
    [fuel] bounds the depth.  A path that exists ends it, with an error
    when it is not a directory; otherwise the parent is made first, then
    the directory, and a failed [Mkdir] is forgiven when the directory is
    there (as for [foo/.]). *)
Fixpoint MkdirAll_rec (fuel : nat) (w : World) (path : string) : Res World :=
  match sys_stat w path with
  | Stat_ok true => Ok w
  | Stat_ok false => Err (path_error "mkdir" path ENOTDIR)
  | Stat_err _ =>
      let parent_made :=
        match fuel, mkdirall_parent path with
        | S fuel', Some parent => MkdirAll_rec fuel' w parent
        | _, _ => Ok w
        end in
      match parent_made with
      | Err e => Err e
      | Ok w1 =>
          match os_Mkdir w1 path with
          | Ok w2 => Ok w2
          | Err e =>
              match sys_stat w1 path with
              | Stat_ok true => Ok w1
              | _ => Err e
              end
          end
      end
  end.

(** [os.MkdirAll]: the directory and every missing parent. *)
Definition os_MkdirAll (w : World) (path : string) : Res World :=
  MkdirAll_rec (String.length path) w path.

(** [os.Open]: the absolute path of what was opened. *)
Definition os_Open (w : World) (p : string) : Res string :=
  match sys_stat w p with
  | Stat_ok _ => Ok (abspath (cwd w) p)
  | Stat_err e => Err (path_error "open" p e)
  end.

(** [os.OpenFile(p, O_RDWR|O_CREATE|O_TRUNC, 0644)]: the file exists and is
    empty afterwards.  With [O_CREATE] a path that ends in a slash is
    refused, and so is a directory, which cannot be opened for writing. *)
Definition os_OpenFile_trunc (w : World) (p : string) : Res (World * string) :=
  if String.eqb p "" then Err (path_error "open" p ENOENT)
  else
    match parent_errno w p with
    | Some e => Err (path_error "open" p e)
    | None =>
        if negb (Nat.eqb (length (strip_trailing_empty (split_slash p)))
                         (length (split_slash p)))
        then Err (path_error "open" p EISDIR)
        else
          let q := abspath (cwd w) p in
          let opened := Ok ({| cwd := cwd w; fs := <[q := File ""]> (fs w) |}, q) in
          match node_at (fs w) q with
          | Some Directory => Err (path_error "open" p EISDIR)
          | Some (File _) => opened
          | None =>
              match node_at (fs w) (Dir q) with
              | Some Directory => opened
              | Some (File _) => Err (path_error "open" p ENOTDIR)
              | None => Err (path_error "open" p ENOENT)
              end
          end
    end.

(** A [bufio.Scanner] on the file opened as [name], which is at [q]. *)
Definition file_scanner (w : World) (name q : string) : Scanner :=
  match node_at (fs w) q with
  | Some (File c) => NewScanner c
  | Some Directory =>
      {| sc_lines := []; sc_err := Some (path_error "read" name EISDIR) |}
  | None =>
      {| sc_lines := []; sc_err := Some (path_error "read" name ENOENT) |}
  end.

Definition write_file (w : World) (q content : string) : World :=
  {| cwd := cwd w; fs := <[q := File content]> (fs w) |}.

(** ** Rewriting the requested proto files into the output directory *)

(** [fixGoPackage].  The input is opened first, the output is created or
    truncated next, and only then is the input read.  A failed rewrite ends
    the program; what it leaves in the output file is not modelled. *)
Definition fixGoPackage (w : World) (protoPath newPackage outPath : string)
  : Res World :=
  match os_Open w protoPath with
  | Err e => Err ("opening input proto file for reading: " +:+ e)
  | Ok hin =>
      match os_OpenFile_trunc w outPath with
      | Err e => Err ("opening output proto file for writing: " +:+ e)
      | Ok (w1, hout) =>
          match fixGoPackageProtoStream (file_scanner w1 protoPath hin) newPackage with
          | Err e =>
              Err ("failed to munge proto file " +:+ DQ +:+ protoPath +:+ DQ
                   +:+ ": " +:+ e)
          | Ok text => Ok (write_file w1 hout text)
          end
      end
  end.

Record protocParam : Type := {
  protoPath : list string;
  adminPort : string;
  grpcAddress : string;
  grpcPort : string;
  output : string;
  imports : list string;
  templateDir : string
}.

Definition with_protoPath (param : protocParam) (l : list string) : protocParam :=
  {| protoPath := l; adminPort := adminPort param;
     grpcAddress := grpcAddress param; grpcPort := grpcPort param;
     output := output param; imports := imports param;
     templateDir := templateDir param |}.

(** The body of the loop of [fixGoPackages] for one requested file: the
    world afterwards and the path of the rewritten copy. *)
Definition fixGoPackages_one (w : World) (imports : list string)
    (output proto : string) : Res (World * string) :=
  match snd (findProtoInImports (sys_stat w) (sys_getwd w) imports proto) with
  | Err e => Err e
  | Ok (importDir, newPackageSuffix) =>
      let protoPath := Join [importDir; newPackageSuffix; Base proto] in
      let outProtoDir := Join [output; newPackageSuffix] in
      let outProto := Join [outProtoDir; Base proto] in
      let newPackage := Join [GENERATED_MODULE_NAME; newPackageSuffix] in
      match os_MkdirAll w outProtoDir with
      | Err e => Err e
      | Ok w1 =>
          match fixGoPackage w1 protoPath newPackage outProto with
          | Err e => Err e
          | Ok w2 => Ok (w2, outProto)
          end
      end
  end.

Fixpoint fixGoPackages_loop (w : World) (imports : list string)
    (output : string) (protos : list string) : Res (World * list string) :=
  match protos with
  | [] => Ok (w, [])
  | proto :: rest =>
      match fixGoPackages_one w imports output proto with
      | Err e => Err e
      | Ok (w1, outProto) =>
          match fixGoPackages_loop w1 imports output rest with
          | Err e => Err e
          | Ok (w2, outProtos) => Ok (w2, outProto :: outProtos)
          end
      end
  end.

(** [fixGoPackages]: on success [param.protoPath] names the rewritten
    copies. *)
Definition fixGoPackages (w : World) (param : protocParam)
  : Res (World * protocParam) :=
  match fixGoPackages_loop w (imports param) (output param) (protoPath param) with
  | Err e => Err e
  | Ok (w', outProtos) => Ok (w', with_protoPath param outProtos)
  end.

(** ** Child processes *)

(** How a child process ended ([os.ProcessState]). *)
Inductive ProcessState : Type :=
| Exited (code : nat)
| Signaled (signal : nat).

(** [ProcessState.Success]: exit status 0. *)
Definition Success (st : ProcessState) : bool :=
  match st with
  | Exited 0 => true
  | _ => false
  end.

(** What [Cmd.Wait] learns about the child. *)
Inductive ChildEnd : Type :=
| Terminated (st : ProcessState)
| WaitFailed (msg : string).

(** The [error] value [Cmd.Wait] returns: nil when the command exits with
    status 0, an [*exec.ExitError] when it does not complete successfully,
    another error for an I/O problem. *)
Inductive WaitError : Type :=
| Wait_nil
| Wait_ExitError (st : ProcessState)
| Wait_other (msg : string).

Definition cmd_Wait (c : ChildEnd) : WaitError :=
  match c with
  | Terminated st => if Success st then Wait_nil else Wait_ExitError st
  | WaitFailed msg => Wait_other msg
  end.

(** What the [select] of [main] receives, in the order of arrival: the one
    value the waiting goroutine sends on [runerrchan], and the SIGTERM and
    SIGINT signals delivered on [sigchan]. *)
Inductive Event : Type :=
| ChildDone (c : ChildEnd)
| SignalCaught.

(** How the program ends: [os.Exit], the run-time panic of an index out of
    range, or never, blocked in [select] with nothing left to arrive. *)
Inductive Outcome : Type :=
| Exit (code : nat)
| PanicIndexOutOfRange (index len : nat)
| Blocked.

(** The exit status that the parent process sees: the argument of
    [os.Exit]; 2 when the Go run time ends the program on a panic; none
    while the program runs. *)
Definition exit_status (o : Outcome) : option nat :=
  match o with
  | Exit code => Some code
  | PanicIndexOutOfRange _ _ => Some 2
  | Blocked => None
  end.

(** The [for { select { ... } }] loop of [main].  [reported] tells that the
    value of [runerrchan] has been received: the goroutine sends only one.
    The result counts the [run.Process.Kill()] calls made. *)
Fixpoint supervise (reported : bool) (kills : nat) (events : list Event)
  : nat * Outcome :=
  match events with
  | [] => (kills, Blocked)
  | ChildDone c :: rest =>
      if reported then supervise reported kills rest
      else
        match cmd_Wait c with
        | Wait_ExitError e =>
            if Success e then (kills, Exit 0)
            else (kills, Exit EXITCODE_RUNTIME_ERROR)
        | _ => supervise true kills rest
        end
  | SignalCaught :: rest => supervise reported (S kills) rest
  end.

(** ** Building and running the server *)

(** The values of the command-line flags after [flag.Parse], and
    [flag.Args()]. *)
Record Flags : Type := {
  flag_o : string;
  flag_template_dir : string;
  flag_grpc_port : string;
  flag_grpc_listen : string;
  flag_admin_port : string;
  flag_admin_listen : string;
  flag_stub : string;
  flag_imports : string;
  flag_verbosity : nat;
  flag_Args : list string
}.

(** [flag.Parse] either fills the flags or ends the program itself. *)
Inductive FlagResult : Type :=
| FlagExit (code : nat)
| Parsed (f : Flags).

(** The legacy command line that repeats the program name:
    [os.Args = append(os.Args[:1], os.Args[2:]...)] when [os.Args[1]] is
    ["gripmock"]. *)
Definition dropRepeatedName (arg1 : string) (osArgs : list string) : list string :=
  if String.eqb arg1 "gripmock" then take 1 osArgs ++ drop 2 osArgs
  else osArgs.

(** The [protocParam] that [main] passes to [generateProtoc]. *)
Definition paramOfFlags (f : Flags) : protocParam :=
  {| protoPath := flag_Args f;
     adminPort := flag_admin_port f;
     grpcAddress := flag_grpc_listen f;
     grpcPort := flag_grpc_port f;
     output := flag_o f;
     imports := split_on "," (flag_imports f);
     templateDir := flag_template_dir f |}.

(** [main] makes the output directory when it does not exist. *)
Definition ensureOutput (w : World) (output : string) : Res World :=
  if IsNotExist (sys_stat w output) then os_Mkdir w output else Ok w.

Section Orchestrator.

(** The collaborators outside the program: flag parsing; the admin stub
    server of the package [stub] ([stub.RunStubServer], given the stub path,
    the admin port and the admin address), whose call either returns or
    ends the program with an exit status; the commands run to completion
    (protoc, go), which see the working directory and may change the file
    tree; and the start of the server binary. *)
Variable flag_Parse : list string -> FlagResult.
Variable stub_RunStubServer : World -> string -> string -> string -> option nat.
Variable exec_Run :
  string -> gmap string Node -> list string -> gmap string Node * option string.
Variable exec_Start : World -> string -> option string.

Definition run_command (w : World) (argv : list string) : World * option string :=
  let (m, err) := exec_Run (cwd w) (fs w) argv in
  ({| cwd := cwd w; fs := m |}, err).

Definition protoc_args (param : protocParam) : list string :=
  ["-I"; output param]
  ++ flat_map (fun imp => ["-I"; imp]) (imports param)
  ++ protoPath param
  ++ ["--go_out=" +:+ output param;
      "--go_opt=module=" +:+ GENERATED_MODULE_NAME;
      "--go-grpc_out=" +:+ output param;
      "--go-grpc_opt=module=" +:+ GENERATED_MODULE_NAME]
  ++ ["--gripmock_out=" +:+ output param;
      "--gripmock_opt=paths=source_relative";
      "--gripmock_opt=admin-port=" +:+ adminPort param;
      "--gripmock_opt=grpc-address=" +:+ grpcAddress param;
      "--gripmock_opt=grpc-port=" +:+ grpcPort param;
      "--gripmock_opt=template-dir=" +:+ templateDir param].

(** [generateProtoc]. *)
Definition generateProtoc (w : World) (param : protocParam) : Res World :=
  match fixGoPackages w param with
  | Err e => Err ("Munging proto files: " +:+ e)
  | Ok (w1, param) =>
      match run_command w1 ("protoc" :: protoc_args param) with
      | (_, Some e) => Err ("running protoc: " +:+ e)
      | (w2, None) => Ok w2
      end
  end.

(** [buildServer]: the world it leaves and the error it returns, if any. *)
Definition buildServer (w : World) (output : string) : World * option string :=
  match sys_getwd w with
  | Err e => (w, Some ("getcwd(): " +:+ e))
  | Ok oldCwd =>
      match os_Chdir w output with
      | Err e => (w, Some ("changing directory to " +:+ output +:+ ": " +:+ e))
      | Ok w1 =>
          match run_command w1
                  ["go"; "mod"; "edit"; "-module"; GENERATED_MODULE_NAME] with
          | (w2, Some e) => (w2, Some ("setting go.mod name: " +:+ e))
          | (w2, None) =>
              match run_command w2 ["go"; "mod"; "tidy"] with
              | (w3, Some e) => (w3, Some ("tidying go.mod: " +:+ e))
              | (w3, None) =>
                  match run_command w3
                          ["go"; "build"; "-o"; "server"; "./cmd/..."] with
                  | (w4, Some e) => (w4, Some ("building server: " +:+ e))
                  | (w4, None) =>
                      match os_Chdir w4 oldCwd with
                      | Err e =>
                          (w4, Some ("returning to old working directory: " +:+ e))
                      | Ok w5 => (w5, None)
                      end
                  end
              end
          end
      end
  end.

(** [runGrpcServer]: when [run.Start()] fails it ends the program with
    [EXITCODE_RUNTIME_ERROR]; otherwise ([None]) the server runs and a
    goroutine waits for it, to send what [run.Wait()] returns. *)
Definition runGrpcServer (w : World) (output : string) : option Outcome :=
  match exec_Start w (Join [output; "server"]) with
  | Some _ => Some (Exit EXITCODE_RUNTIME_ERROR)
  | None => None
  end.

(** [main], given [os.Args], the world it starts in and what arrives
    while it supervises the server.  [flag_Parse] stands for [flag.Parse()]
    on the flags [main] declares; it is given [os.Args] and reads the
    arguments after the program name.  What the admin stub server does in
    the background once its call has returned, and the log lines of
    [main], are left out. *)
Definition main (osArgs : list string) (w : World) (events : list Event)
  : Outcome :=
  match nth_error osArgs 1 with
  | None => PanicIndexOutOfRange 1 (length osArgs)
  | Some arg1 =>
      match flag_Parse (dropRepeatedName arg1 osArgs) with
      | FlagExit code => Exit code
      | Parsed f =>
          let output := flag_o f in
          if String.eqb output "" then Exit EXITCODE_ARGUMENTS_ERROR
          else
            match ensureOutput w output with
            | Err _ => Exit EXITCODE_OTHER_ERROR
            | Ok w1 =>
                match stub_RunStubServer w1 (flag_stub f) (flag_admin_port f)
                        (flag_admin_listen f) with
                | Some code => Exit code
                | None =>
                    let protoPaths := flag_Args f in
                    if Nat.eqb (length protoPaths) 0
                    then Exit EXITCODE_ARGUMENTS_ERROR
                    else
                      match generateProtoc w1 (paramOfFlags f) with
                      | Err _ => Exit EXITCODE_BUILD_ERROR
                      | Ok w2 =>
                          match buildServer w2 output with
                          | (_, Some _) => Exit EXITCODE_BUILD_ERROR
                          | (w3, None) =>
                              match runGrpcServer w3 output with
                              | Some ended => ended
                              | None => snd (supervise false 0 events)
                              end
                          end
                      end
                end
            end
      end
  end.

End Orchestrator.

(** ** Notions used to state the properties *)

(** The file tree [w'] has what [w] has, and maybe more directories; the
    working directory is the same. *)
Definition grown (w w' : World) : Prop :=
  cwd w' = cwd w
  /\ (forall q n, node_at (fs w) q = Some n -> node_at (fs w') q = Some n)
  /\ (forall q c, node_at (fs w') q = Some (File c) ->
                  node_at (fs w) q = Some (File c)).

(** The lines the rewriter does not drop. *)
Definition kept (lines : list string) : list string :=
  filter (fun l => match_go_package l = false) lines.

Definition count_syntax (lines : list string) : nat :=
  length (filter (fun l => match_syntax l = true) lines).

(** Every line followed by a line feed. *)
Fixpoint unlines (lines : list string) : string :=
  match lines with
  | [] => ""
  | l :: rest => l +:+ LF +:+ unlines rest
  end.

(** No line feed in a line. *)
Fixpoint no_lf (s : string) : bool :=
  match s with
  | EmptyString => true
  | String c s' => negb (Ascii.eqb c "010") && no_lf s'
  end.

(** The last byte of a text is a carriage return. *)
Fixpoint ends_with_cr (s : string) : bool :=
  match s with
  | EmptyString => false
  | String c s' =>
      match s' with
      | EmptyString => Ascii.eqb c "013"
      | _ => ends_with_cr s'
      end
  end.

(** A line that is read back as it was written: no line feed in it and no
    carriage return at its end. *)
Definition plain_line (l : string) : bool := no_lf l && negb (ends_with_cr l).

(** A line of a text as it is written: its content, and whether a carriage
    return follows it.  Content that ends in a carriage return is always
    followed by one more; otherwise the last one would be the line end. *)
Definition with_cr (it : string * bool) : string :=
  fst it +:+ (if snd it then CR else "").

Definition is_line (it : string * bool) : bool :=
  no_lf (fst it) && (snd it || negb (ends_with_cr (fst it))).

(** The text of the lines [items], each ended by a line feed, or by a
    carriage return and a line feed, and of what follows the last line
    feed.  Every text is of this form, in one way. *)
Fixpoint text_of (items : list (string * bool)) (final : string * bool) : string :=
  match items with
  | [] => with_cr final
  | it :: rest => with_cr it +:+ LF +:+ text_of rest final
  end.





(** The line of the implicit-import warning, for the directory that is
    added as import path. *)
Definition warning_implicit_import (matchedImp : string) : LogEntry :=
  {| log_level := LOG_INFO; log_msg := msg_warning_implicit;
     log_kv := [("importpath", LogString matchedImp)] |}.

(** The resolver on a world. *)
Definition resolve (w : World) (importPaths : list string) (protoPath : string)
  : Res (string * string) :=
  snd (findProtoInImports (sys_stat w) (sys_getwd w) importPaths protoPath).

(** The test of [findProtoInImports] that an import directory, made
    absolute, lexically contains an absolute proto path: [filepath.Rel]
    succeeds with a non-empty path that does not start with ["../"]. *)
Definition lexically_within (absImp protoPath : string) : option string :=
  match Rel absImp protoPath with
  | Some relPath =>
      if nonempty relPath && negb (HasPrefix relPath "../") then Some relPath
      else None
  | None => None
  end.

(** The import directory [imp] does not provide the cleaned proto path:
    nothing exists at the path joined to it (relative proto path), or it
    does not lexically contain the proto path or the file cannot be
    examined below it (absolute proto path). *)
Definition entry_misses (os_Stat : string -> StatResult) (wd protoPath imp : string)
  : Prop :=
  if IsAbs protoPath then
    match lexically_within (abspath wd (Clean imp)) protoPath with
    | None => True
    | Some relPath =>
        exists e,
          os_Stat (Join [Clean imp; Dir relPath; Base protoPath]) = Stat_err e
    end
  else os_Stat (Join [Clean imp; protoPath]) = Stat_err ENOENT.

(** The text of the path [sub] below the absolute, cleaned directory
    [dir]. *)
Definition below (dir sub : string) : string :=
  if String.eqb dir "/" then "/" +:+ sub else dir +:+ "/" +:+ sub.

(** The kernel's working directory is an absolute, cleaned path. *)
Definition wf_cwd (w : World) : Prop :=
  IsAbs (cwd w) = true /\ Clean (cwd w) = cwd w.

(** A path element: no slash in it. *)
Fixpoint no_slash (s : string) : bool :=
  match s with
  | EmptyString => true
  | String c s' => negb (is_slash c) && no_slash s'
  end.

Definition is_dotdot (c : string) : bool := String.eqb c "..".

(** The shape of the output of [path.Clean], innermost element first:
    names, above the [".."] elements that a relative path may start with. *)
Fixpoint stack_ok (rooted : bool) (stack : list string) : bool :=
  match stack with
  | [] => true
  | x :: rest =>
      (is_name x || (is_dotdot x && negb rooted && forallb is_dotdot rest))
      && stack_ok rooted rest
  end.

(** The text of a cleaned path with the given elements. *)
Definition render (rooted : bool) (elems : list string) : string :=
  if rooted then "/" +:+ join_slash elems
  else match elems with
       | [] => "."
       | _ => join_slash elems
       end.

(** The text of a cleaned path up to and including its last slash, given
    the elements before the last one. *)
Definition dirpart (rooted : bool) (elems : list string) : string :=
  match elems with
  | [] => if rooted then "/" else ""
  | _ => (if rooted then "/" else "") +:+ join_slash elems +:+ "/"
  end.

(** ** Example inputs *)

Definition syntax_proto3 : string :=
  "syntax = " +:+ DQ +:+ "proto3" +:+ DQ +:+ ";".

(** A proto file that declares a go_package of its own. *)
Definition example_proto : string :=
  unlines [syntax_proto3;
           "option go_package = " +:+ DQ +:+ "some/prev/package" +:+ DQ +:+ ";";
           "package simple;"].

Definition example_rewritten (newPackage : string) : string :=
  unlines [syntax_proto3; go_package_line newPackage; ""; "package simple;"].







(** A machine with one proto file, [/w/protos/bar/bar.proto], and the
    process started in [/w]. *)
Definition example_world : World :=
  {| cwd := "/w";
     fs := list_to_map [("/w", Directory);
                        ("/w/protos", Directory);
                        ("/w/protos/bar", Directory);
                        ("/w/protos/bar/bar.proto", File example_proto)] |}.

(** A machine where [/a/b/a] is a file: the import directory [/a/b] lies
    below the directory [/a]. *)
Definition nested_world : World :=
  {| cwd := "/w";
     fs := list_to_map [("/w", Directory); ("/a", Directory);
                        ("/a/b", Directory); ("/a/b/a", File example_proto)] |}.

(** A machine where [x.proto] is a directory below [/w/other] and a file
    below [/w/protos]. *)
Definition shadow_world : World :=
  {| cwd := "/w";
     fs := list_to_map [("/w", Directory); ("/w/other", Directory);
                        ("/w/other/x.proto", Directory);
                        ("/w/protos", Directory);
                        ("/w/protos/x.proto", File example_proto)] |}.

(** A machine with two proto files below [/w/mp], one of them in a
    subdirectory, and the request to rewrite both into [generated]. *)
Definition multi_world : World :=
  {| cwd := "/w";
     fs := list_to_map [("/w", Directory);
                        ("/w/mp", Directory);
                        ("/w/mp/hello.proto", File example_proto);
                        ("/w/mp/bar", Directory);
                        ("/w/mp/bar/bar.proto", File example_proto)] |}.

Definition multi_param : protocParam :=
  {| protoPath := ["hello.proto"; "bar/bar.proto"];
     adminPort := "4771"; grpcAddress := ""; grpcPort := "4770";
     output := "generated"; imports := ["mp"]; templateDir := "" |}.

Definition multi_after : World * protocParam :=
  match fixGoPackages multi_world multi_param with
  | Ok r => r
  | Err _ => (multi_world, multi_param)
  end.



(** The file tree the tests of the repository run on: they run in
    [gripmock/] and use the protos of [../example]. *)
Definition tests_world : World :=
  {| cwd := "/repo/gripmock";
     fs := list_to_map
             [("/repo", Directory);
              ("/repo/gripmock", Directory);
              ("/repo/example", Directory);
              ("/repo/example/simple", Directory);
              ("/repo/example/simple/simple.proto", File example_proto);
              ("/repo/example/multi-package", Directory);
              ("/repo/example/multi-package/hello.proto", File example_proto);
              ("/repo/example/multi-package/bar", Directory);
              ("/repo/example/multi-package/bar/bar.proto", File example_proto)] |}.

(** [flag.Parse] on a command line without flags: every flag keeps its
    default and the arguments after the program name are positional. *)
Definition positional_flag_Parse (osArgs : list string) : FlagResult :=
  Parsed {| flag_o := "generated"; flag_template_dir := "";
            flag_grpc_port := "4770"; flag_grpc_listen := "";
            flag_admin_port := "4771"; flag_admin_listen := "";
            flag_stub := ""; flag_imports := ""; flag_verbosity := LOG_INFO;
            flag_Args := drop 1 osArgs |}.

(** An admin stub server that starts and stays quiet. *)
Definition quiet_stub (w : World) (stubPath port bindAddr : string) : option nat :=
  None.

(** Commands that succeed and leave the file tree alone, and a server
    binary that starts. *)
Definition quiet_Run (wd : string) (m : gmap string Node) (argv : list string)
  : gmap string Node * option string := (m, None).

Definition good_Start (w : World) (binary : string) : option string := None.

(** The server exits with status 0. *)
Definition clean_exit : Event := ChildDone (Terminated (Exited 0)).

(** ** Notions used to state further properties *)

(** The name of a file: an element of a path, not [.] or [..]. *)
Definition file_name (b : string) : bool := is_name b && no_slash b.

(** Every line followed by a carriage return and a line feed. *)
Fixpoint unlines_crlf (lines : list string) : string :=
  match lines with
  | [] => ""
  | l :: rest => l +:+ CR +:+ LF +:+ unlines_crlf rest
  end.

(** [stdr]: a line written with [log.V(level).Info] is printed when [level]
    is at most the verbosity that [initLogging] has set. *)
Definition printed (verbosity : nat) (lg : list LogEntry) : list LogEntry :=
  filter (fun e => log_level e <= verbosity) lg.

Definition msg_not_on_import_path : string :=
  "Protocol file not found on any import path, see README for details".

(** The line logged for a reference that was found nowhere. *)
Definition not_on_import_path : LogEntry :=
  {| log_level := LOG_INFO; log_msg := msg_not_on_import_path; log_kv := [] |}.

(** The signals among the events. *)
Definition is_signal (e : Event) : bool :=
  match e with
  | SignalCaught => true
  | ChildDone _ => false
  end.

Definition count_signals (events : list Event) : nat :=
  length (filter (fun e => is_signal e = true) events).

(** ** The earlier revision of gripmock.go *)

(** [gripmock/gripmock.go] before the resolver was written: every
    requested file is copied into a directory of its own below the output
    directory, named by a counter, and every failure ends the program
    through [log.Fatal], with exit status 1. *)
Module Legacy.

(** A Go [int] on a 64-bit machine: two's complement wrap-around. *)
Definition wrap_int (z : Z) : Z := ((z + 2 ^ 63) mod 2 ^ 64 - 2 ^ 63)%Z.

(** [fmt.Sprintf("%d", n)]. *)
Definition decimal (z : Z) : string := NilEmpty.string_of_int (Z.to_int z).

(** [genProtoPackageName]: the global [protoCounter] is passed in and
    out; the error it returns is always nil. *)
Definition genProtoPackageName (protoCounter : Z) (protoPath : string)
  : Z * string :=
  let protoCounter := wrap_int (protoCounter + 1) in
  (protoCounter, "proto" +:+ decimal protoCounter).

Definition err_multiple_syntax (protoPath : string) : string :=
  "Found more than one " +:+ DQ +:+ "syntax" +:+ DQ +:+ " statement in "
  +:+ DQ +:+ protoPath +:+ DQ.

Definition err_no_syntax (protoPath : string) : string :=
  "Failed to munge protocol file " +:+ protoPath +:+ ": no " +:+ DQ
  +:+ "syntax" +:+ DQ +:+ " line found when scanning file".

(** The [for s.Scan()] loop of [fixGoPackage]. *)
Fixpoint rewriteLines (protoPath newpackage : string) (lines : list string)
    (foundSyntaxLine : bool) (ow : string) : Res (bool * string) :=
  match lines with
  | [] => Ok (foundSyntaxLine, ow)
  | l :: rest =>
      if match_go_package l then
        rewriteLines protoPath newpackage rest foundSyntaxLine ow
      else if match_syntax l then
        if foundSyntaxLine then Err (err_multiple_syntax protoPath)
        else
          let l' := l +:+ LF +:+ go_package_line newpackage +:+ LF in
          rewriteLines protoPath newpackage rest true (ow +:+ l' +:+ LF)
      else
        rewriteLines protoPath newpackage rest foundSyntaxLine (ow +:+ l +:+ LF)
  end.

(** [fixGoPackage], with the rewriting loop in its body. *)
Definition fixGoPackage (w : World) (protoPath newpackage outPath : string)
  : Res World :=
  match os_Open w protoPath with
  | Err e => Err e
  | Ok hin =>
      match os_OpenFile_trunc w outPath with
      | Err e => Err e
      | Ok (w1, hout) =>
          let s := file_scanner w1 protoPath hin in
          match rewriteLines protoPath newpackage (sc_lines s) false "" with
          | Err e => Err e
          | Ok (foundSyntaxLine, ow) =>
              match sc_err s with
              | Some e => Err e
              | None =>
                  if foundSyntaxLine then Ok (write_file w1 hout ow)
                  else Err (err_no_syntax protoPath)
              end
          end
      end
  end.

(** [fixGoPackages(protoPaths, output)]: the counter and the world
    afterwards, and the paths of the copies. *)
Fixpoint fixGoPackages (protoCounter : Z) (w : World) (protoPaths : list string)
    (output : string) : Res (Z * World * list string) :=
  match protoPaths with
  | [] => Ok (protoCounter, w, [])
  | proto :: rest =>
      let (protoCounter, newPackageSuffix) :=
        genProtoPackageName protoCounter proto in
      let outProtoDir := Join [output; newPackageSuffix] in
      match os_MkdirAll w outProtoDir with
      | Err e => Err e
      | Ok w1 =>
          let outProto := Join [outProtoDir; Base proto] in
          let newPackage := Join [GENERATED_MODULE_NAME; newPackageSuffix] in
          match fixGoPackage w1 proto newPackage outProto with
          | Err e => Err e
          | Ok w2 =>
              match fixGoPackages protoCounter w2 rest output with
              | Err e => Err e
              | Ok (c, w3, outProtos) => Ok (c, w3, outProto :: outProtos)
              end
          end
      end
  end.

(** The one [select] of [main]: the report of the server is fatal, whatever
    it is; a signal kills the server, and [main] returns.  The result
    counts the [run.Process.Kill()] calls made. *)
Definition select_once (events : list Event) : nat * Outcome :=
  match events with
  | [] => (0, Blocked)
  | ChildDone _ :: _ => (0, Exit 1)
  | SignalCaught :: _ => (1, Exit 0)
  end.

Section Orchestrator.

Variable flag_Parse : list string -> FlagResult.
Variable stub_RunStubServer : World -> string -> string -> string -> option nat.
Variable exec_Run :
  string -> gmap string Node -> list string -> gmap string Node * option string.
Variable exec_Start : World -> string -> option string.

(** [generateProtoc]: [Err] is the message of its [log.Fatal]. *)
Definition generateProtoc (protoCounter : Z) (w : World) (param : protocParam)
  : Res (Z * World) :=
  match fixGoPackages protoCounter w (protoPath param) (output param) with
  | Err e => Err ("Munging proto files: " +:+ e)
  | Ok (c, w1, protoPaths) =>
      let param := with_protoPath param protoPaths in
      match run_command exec_Run w1 ("protoc" :: protoc_args param) with
      | (_, Some e) => Err ("Fail on protoc " +:+ e)
      | (w2, None) => Ok (c, w2)
      end
  end.

(** [buildServer]: [Err] is the message of its [log.Fatal]. *)
Definition buildServer (w : World) (output : string) : Res World :=
  match sys_getwd w with
  | Err e => Err e
  | Ok oldCwd =>
      match os_Chdir w output with
      | Err e => Err e
      | Ok w1 =>
          match run_command exec_Run w1
                  ["go"; "mod"; "edit"; "-module"; GENERATED_MODULE_NAME] with
          | (_, Some e) => Err ("go mod edit: " +:+ e)
          | (w2, None) =>
              match run_command exec_Run w2 ["go"; "mod"; "tidy"] with
              | (_, Some e) => Err ("go mod tidy: " +:+ e)
              | (w3, None) =>
                  match run_command exec_Run w3
                          ["go"; "build"; "-o"; "server"; "."] with
                  | (_, Some e) => Err ("go build -o server .: " +:+ e)
                  | (w4, None) => os_Chdir w4 oldCwd
                  end
              end
          end
      end
  end.

(** [runGrpcServer]: [Err] is the message of its [log.Fatal]. *)
Definition runGrpcServer (w : World) (output : string) : Res unit :=
  match exec_Start w (Join [output; "server"]) with
  | Some e => Err e
  | None => Ok tt
  end.

(** [main].  A slash is appended to the output directory; an error of
    [os.Mkdir] is ignored; [log.Fatal] exits with status 1; and when
    [main] returns after a signal the program exits with status 0.  The
    admin stub server is called as in the later revision. *)
Definition main (osArgs : list string) (w : World) (events : list Event)
  : Outcome :=
  match nth_error osArgs 1 with
  | None => PanicIndexOutOfRange 1 (length osArgs)
  | Some arg1 =>
      match flag_Parse (dropRepeatedName arg1 osArgs) with
      | FlagExit code => Exit code
      | Parsed f =>
          let output := flag_o f +:+ "/" in
          let w1 :=
            if IsNotExist (sys_stat w output) then
              match os_Mkdir w output with
              | Ok w' => w'
              | Err _ => w
              end
            else w in
          match stub_RunStubServer w1 (flag_stub f) (flag_admin_port f)
                  (flag_admin_listen f) with
          | Some code => Exit code
          | None =>
              let protoPaths := flag_Args f in
              if Nat.eqb (length protoPaths) 0 then Exit 1
              else
                match generateProtoc 0 w1
                        {| protoPath := protoPaths;
                           adminPort := flag_admin_port f;
                           grpcAddress := flag_grpc_listen f;
                           grpcPort := flag_grpc_port f;
                           output := output;
                           imports := split_on "," (flag_imports f);
                           templateDir := flag_template_dir f |} with
                | Err _ => Exit 1
                | Ok (_, w2) =>
                    match buildServer w2 output with
                    | Err _ => Exit 1
                    | Ok w3 =>
                        match runGrpcServer w3 output with
                        | Err _ => Exit 1
                        | Ok _ => snd (select_once events)
                        end
                    end
                end
          end
      end
  end.

End Orchestrator.

End Legacy.

(** ** Further example inputs *)

(** The flags of a command line without flags that names one proto file. *)
Definition default_flags : Flags :=
  {| flag_o := "generated"; flag_template_dir := "";
     flag_grpc_port := "4770"; flag_grpc_listen := "";
     flag_admin_port := "4771"; flag_admin_listen := "";
     flag_stub := ""; flag_imports := ""; flag_verbosity := LOG_INFO;
     flag_Args := ["protos/bar/bar.proto"] |}.

(** [flag.Parse] on [-o a/b protos/bar/bar.proto]. *)
Definition nested_output_flags : Flags :=
  {| flag_o := "a/b"; flag_template_dir := "";
     flag_grpc_port := "4770"; flag_grpc_listen := "";
     flag_admin_port := "4771"; flag_admin_listen := "";
     flag_stub := ""; flag_imports := ""; flag_verbosity := LOG_INFO;
     flag_Args := ["protos/bar/bar.proto"] |}.

Definition nested_output_flag_Parse (osArgs : list string) : FlagResult :=
  Parsed nested_output_flags.

(** A command that fails and leaves the file tree alone. *)
Definition failing_Run (wd : string) (m : gmap string Node) (argv : list string)
  : gmap string Node * option string := (m, Some "exit status 1").

(** The second file of [multi_param], rewritten on its own. *)
Definition bar_after : World * string :=
  match fixGoPackages_one multi_world ["mp"] "generated" "bar/bar.proto" with
  | Ok r => r
  | Err _ => (multi_world, "")
  end.

(** A copy of the example proto file, rewritten next to it. *)
Definition copy_after : World :=
  match fixGoPackage example_world "protos/bar/bar.proto"
          "gripmock/generated/x" "protos/copy.proto" with
  | Ok w => w
  | Err _ => example_world
  end.

(** [multi_world] with the two copies that the earlier revision makes. *)
Definition legacy_rewritten : World :=
  {| cwd := "/w";
     fs := list_to_map
             [("/w", Directory);
              ("/w/mp", Directory);
              ("/w/mp/hello.proto", File example_proto);
              ("/w/mp/bar", Directory);
              ("/w/mp/bar/bar.proto", File example_proto);
              ("/w/generated", Directory);
              ("/w/generated/proto1", Directory);
              ("/w/generated/proto1/hello.proto",
               File (unlines [syntax_proto3;
                              "option go_package = " +:+ DQ
                              +:+ "gripmock/generated/proto1" +:+ DQ +:+ ";";
                              ""; "package simple;"]));
              ("/w/generated/proto2", Directory);
              ("/w/generated/proto2/bar.proto",
               File (unlines [syntax_proto3;
                              "option go_package = " +:+ DQ
                              +:+ "gripmock/generated/proto2" +:+ DQ +:+ ";";
                              ""; "package simple;"]))] |}.

Definition legacy_copies_example : list string :=
  ["generated/proto1/hello.proto"; "generated/proto2/bar.proto"].



(** A machine where [x.proto] lies next to the import directory [sub], and
    the request to rewrite it, as [../x.proto], into [out/gen]. *)
Definition up_world : World :=
  {| cwd := "/w";
     fs := list_to_map [("/w", Directory); ("/w/sub", Directory);
                        ("/w/x.proto", File example_proto)] |}.





(** * Properties *)

(** ** The test tables of Go's [path] and [path/filepath], and of the
    repository's own tests, on the model *)

Example test_Clean :
  map Clean ["abc//def//ghi"; "abc/def/../../.."; "/abc/def/../../..";
             "abc/./../def"; "../../"; "//abc//"; ""]
  = ["abc/def/ghi"; ".."; "/"; "def"; "../.."; "/abc"; "."].
Proof. reflexivity. Qed.

Example test_Join :
  (Join ["a"; "b"], Join ["a"; ""], Join [""; "b"], Join [""; ""], Join ["/"; "a"],
   Join ["a/"; "../b"])
  = ("a/b", "a", "b", "", "/a", "b").
Proof. reflexivity. Qed.

Example test_Dir_Base :
  (map Dir [""; "/"; "abc"; "abc/def"; "a/b/.x"; "a/b/c."; "abc/"],
   map Base [""; "."; "/."; "/"; "////"; "x/"; "abc"; "abc/def"; "a/b/.x"])
  = (["."; "/"; "."; "abc"; "a/b"; "a/b"; "abc"],
     ["."; "."; "."; "/"; "/"; "x"; "abc"; "def"; ".x"]).
Proof. reflexivity. Qed.

Example test_Rel :
  (Rel "/a/b" "/a/b", Rel "/a/b" "/a/b/c/d", Rel "/ab/cd" "/ab/cde",
   Rel "/a/b/c" "/a/c/d", Rel "/a/b/c/d" "/a/b", Rel "/" "/a/b", Rel "/a" "a")
  = (Some ".", Some "c/d", Some "../cde", Some "../../c/d", Some "../..",
     Some "a/b", None).
Proof. reflexivity. Qed.

Example test_findProtoInImports_errors :
  resolve tests_world [] "" = Err "empty input"
  /\ resolve tests_world [] "../example/multi-package"
     = Err (err_is_directory "../example/multi-package")
  /\ resolve tests_world ["../example/multi-package"] "nosuch.proto"
     = Err (err_not_found "nosuch.proto")
  /\ resolve tests_world ["../example/multi-package"] "/repo/example/nosuch.proto"
     = Err (err_not_found "/repo/example/nosuch.proto").
Proof. repeat split. Qed.

Example test_findProtoInImports_relative_import :
  resolve tests_world ["../example/multi-package"] "hello.proto"
  = Ok ("../example/multi-package", ".")
  /\ resolve tests_world ["../example/multi-package"] "bar/bar.proto"
     = Ok ("../example/multi-package", "bar")
  /\ resolve tests_world ["../example/multi-package"]
       "/repo/example/multi-package/hello.proto"
     = Ok ("../example/multi-package", ".")
  /\ resolve tests_world ["../example/multi-package"]
       "/repo/example/multi-package/bar/bar.proto"
     = Ok ("../example/multi-package", "bar").
Proof. repeat split. Qed.

Example test_findProtoInImports_absolute_import :
  resolve tests_world ["/repo/example/multi-package"] "hello.proto"
  = Ok ("/repo/example/multi-package", ".")
  /\ resolve tests_world ["/repo/example/multi-package"] "bar/bar.proto"
     = Ok ("/repo/example/multi-package", "bar")
  /\ resolve tests_world ["/repo/example/multi-package"]
       "/repo/example/multi-package/hello.proto"
     = Ok ("/repo/example/multi-package", ".")
  /\ resolve tests_world ["/repo/example/multi-package"]
       "/repo/example/multi-package/bar/bar.proto"
     = Ok ("/repo/example/multi-package", "bar").
Proof. repeat split. Qed.

Example test_findProtoInImports_deduced :
  resolve tests_world [] "../example/multi-package/hello.proto"
  = Ok ("../example/multi-package", ".")
  /\ resolve tests_world ["/repo/example/simple"]
       "/repo/example/multi-package/hello.proto"
     = Ok ("/repo/example/multi-package", ".")
  /\ resolve tests_world ["/nosuch"; "/repo/example/missing"; "../example/norel"]
       "/repo/example/multi-package/hello.proto"
     = Ok ("/repo/example/multi-package", ".")
  /\ resolve tests_world ["/nosuch"; "/repo/example/missing"; "../example/norel"]
       "../example/multi-package/hello.proto"
     = Ok ("../example/multi-package", ".").
Proof. repeat split. Qed.

(** The lines the resolver logs: the first names the reference and the
    import list as given, the later ones the cleaned paths; the warning
    names the directory that becomes an import path. *)
Example test_findProtoInImports_log :
  fst (findProtoInImports (sys_stat example_world) (sys_getwd example_world)
         ["./protos/"] "./bar//bar.proto")
  = [ {| log_level := LOG_TRACE;
         log_msg := "Searching import paths for protocol file";
         log_kv := [("proto", LogString "./bar//bar.proto");
                    ("importPaths", LogStrings ["./protos/"])] |};
      {| log_level := LOG_TRACE; log_msg := "checking import";
         log_kv := [("dir", LogString "protos");
                    ("proto", LogString "bar/bar.proto")] |};
      {| log_level := LOG_TRACE; log_msg := "testing path existence";
         log_kv := [("path", LogString "protos/bar/bar.proto")] |};
      {| log_level := LOG_TRACE; log_msg := "matched relative path";
         log_kv := [("proto", LogString "bar/bar.proto");
                    ("dir", LogString "protos");
                    ("fullPath", LogString "protos/bar/bar.proto")] |} ]
  /\ printed LOG_INFO
       (fst (findProtoInImports (sys_stat example_world)
               (sys_getwd example_world) [] "./protos/bar/bar.proto"))
     = [ {| log_level := LOG_INFO; log_msg := msg_warning_implicit;
            log_kv := [("importpath", LogString "protos/bar")] |} ]
  /\ printed LOG_VERBOSE
       (fst (findProtoInImports (sys_stat example_world)
               (sys_getwd example_world) [] "nosuch.proto"))
     = [ {| log_level := LOG_INFO; log_msg := msg_not_on_import_path;
            log_kv := [] |} ].
Proof. repeat split. Qed.

Example test_fixGoPackageProtoStream :
  fixGoPackageProtoStream (NewScanner "") "" = Err err_empty_package
  /\ fixGoPackageProtoStream (NewScanner "") "gripmock/generated/subpkg"
     = Err err_no_syntax
  /\ fixGoPackageProtoStream (NewScanner (unlines [syntax_proto3]))
       "gripmock/generated/subpkg"
     = Ok (unlines [syntax_proto3; go_package_line "gripmock/generated/subpkg"; ""])
  /\ fixGoPackageProtoStream
       (NewScanner (syntax_proto3 +:+ LF +:+ go_package_line "some/prev/package"))
       "gripmock/generated/subpkg"
     = Ok (unlines [syntax_proto3; go_package_line "gripmock/generated/subpkg"; ""])
  /\ fixGoPackageProtoStream
       (NewScanner (unlines [""; go_package_line "some/prev/package"; syntax_proto3]))
       "gripmock/generated/subpkg"
     = Ok (unlines [""; syntax_proto3;
                    go_package_line "gripmock/generated/subpkg"; ""])
  /\ fixGoPackageProtoStream (NewScanner "syntax this is garbage")
       "gripmock/generated/subpkg"
     = Ok (unlines ["syntax this is garbage";
                    go_package_line "gripmock/generated/subpkg"; ""]).
Proof. repeat split. Qed.

(** The buffer of the scanner: a line of 65535 bytes is read when a line
    feed ends it, and is too long with a carriage return before the line
    feed, or with one more byte. *)
Example test_Scanner_buffer :
  let line := String.concat "" (repeat "a" (N.to_nat 65535)) in
  sc_err (NewScanner (line +:+ LF)) = None
  /\ sc_err (NewScanner (line +:+ CR +:+ LF)) = Some ErrTooLong
  /\ sc_err (NewScanner (line +:+ "a")) = Some ErrTooLong
  /\ NewScanner (unlines [syntax_proto3] +:+ line +:+ "a" +:+ LF +:+ "package simple;")
     = {| sc_lines := [syntax_proto3]; sc_err := Some ErrTooLong |}.
Proof. vm_compute. repeat split. Qed.

(** What the kernel answers on paths that lead through a file or through
    nothing, and the errors that name the path as it was given. *)
Example test_path_lookup :
  sys_stat example_world "protos/bar/bar.proto" = Stat_ok false
  /\ sys_stat example_world "protos/bar/bar.proto/" = Stat_err ENOTDIR
  /\ sys_stat example_world "protos/bar/bar.proto/.." = Stat_err ENOTDIR
  /\ sys_stat example_world "nosuch/../protos" = Stat_err ENOENT
  /\ sys_stat example_world "protos/../protos//bar/." = Stat_ok true
  /\ os_Open example_world "protos/bar/bar.proto/"
     = Err "open protos/bar/bar.proto/: not a directory"
  /\ fixGoPackage example_world "protos/bar/bar.proto/" "gripmock/generated" "out"
     = Err "opening input proto file for reading: open protos/bar/bar.proto/: not a directory"
  /\ fixGoPackage example_world "protos" "gripmock/generated" "out"
     = Err ("failed to munge proto file " +:+ DQ +:+ "protos" +:+ DQ
            +:+ ": read protos: is a directory")
  /\ os_MkdirAll example_world "protos/bar/bar.proto/gen"
     = Err "mkdir protos/bar/bar.proto: not a directory"
  /\ os_Mkdir example_world "protos/" = Err "mkdir protos/: file exists"
  /\ match os_Mkdir example_world "generated/" with
     | Ok w => sys_stat w "generated" = Stat_ok true
     | Err _ => False
     end
  /\ match os_OpenFile_trunc example_world "protos/new/" with
     | Ok _ => False
     | Err e => e = "open protos/new/: is a directory"
     end.
Proof. vm_compute. repeat split. Qed.

(** The two files of [multi_world], rewritten into [generated]: each copy
    lies at its path relative to the import directory, with the package
    that is the module name and the directory of that path; the sources
    are left as they were. *)
Example test_fixGoPackages :
  match fixGoPackages multi_world multi_param with
  | Ok (w', param') =>
      protoPath param' = ["generated/hello.proto"; "generated/bar/bar.proto"]
      /\ node_at (fs w') "/w/generated/hello.proto"
         = Some (File (unlines [syntax_proto3;
                                "option go_package = " +:+ DQ
                                +:+ "gripmock/generated" +:+ DQ +:+ ";";
                                ""; "package simple;"]))
      /\ node_at (fs w') "/w/generated/bar/bar.proto"
         = Some (File (unlines [syntax_proto3;
                                "option go_package = " +:+ DQ
                                +:+ "gripmock/generated/bar" +:+ DQ +:+ ";";
                                ""; "package simple;"]))
      /\ node_at (fs w') "/w/generated/bar" = Some Directory
      /\ node_at (fs w') "/w/mp/bar/bar.proto" = Some (File example_proto)
  | Err _ => False
  end.
Proof. vm_compute. repeat split. Qed.

(** The same two files by the earlier revision: each copy goes into a
    numbered directory of its own, under its base name. *)
Example test_legacy_fixGoPackages :
  match Legacy.fixGoPackages 0 multi_world
          ["mp/hello.proto"; "mp/bar/bar.proto"] "generated/" with
  | Ok (c, w', outs) =>
      c = 2%Z
      /\ outs = ["generated/proto1/hello.proto"; "generated/proto2/bar.proto"]
      /\ node_at (fs w') "/w/generated/proto1/hello.proto"
         = Some (File (unlines [syntax_proto3;
                                "option go_package = " +:+ DQ
                                +:+ "gripmock/generated/proto1" +:+ DQ +:+ ";";
                                ""; "package simple;"]))
      /\ node_at (fs w') "/w/generated/proto2/bar.proto"
         = Some (File (unlines [syntax_proto3;
                                "option go_package = " +:+ DQ
                                +:+ "gripmock/generated/proto2" +:+ DQ +:+ ";";
                                ""; "package simple;"]))
  | Err _ => False
  end.
Proof. vm_compute. repeat split. Qed.

(** ** Strings *)

Lemma append_cons (x : ascii) (a b : string) :
  String x a +:+ b = String x (a +:+ b).
Proof. reflexivity. Qed.

Lemma append_nil_l (a : string) : "" +:+ a = a.
Proof. reflexivity. Qed.

Lemma append_assoc (a b c : string) : (a +:+ b) +:+ c = a +:+ (b +:+ c).
Proof.
  induction a as [|x a IH]; [reflexivity|].
  rewrite !append_cons. now rewrite IH.
Qed.

Lemma append_nil_r (a : string) : a +:+ "" = a.
Proof.
  induction a as [|x a IH]; [reflexivity|].
  rewrite append_cons. now rewrite IH.
Qed.

Lemma split_on_nonnil (sep : ascii) (s : string) : split_on sep s <> [].
Proof.
  destruct s as [|c s]; cbn [split_on]; [discriminate|].
  destruct (Ascii.eqb c sep); [discriminate|].
  destruct (split_on sep s); discriminate.
Qed.

Lemma split_on_cons (sep c : ascii) (s : string) :
  Ascii.eqb c sep = false ->
  exists h t, split_on sep s = h :: t
              /\ split_on sep (String c s) = String c h :: t.
Proof.
  intros Hc. cbn [split_on]. rewrite Hc.
  destruct (split_on sep s) as [|h t] eqn:E.
  - now apply split_on_nonnil in E.
  - eauto.
Qed.

Lemma split_on_app (sep : ascii) (a b : string) :
  split_on sep (a +:+ String sep b) = split_on sep a ++ split_on sep b.
Proof.
  induction a as [|c a IH].
  - rewrite append_nil_l. cbn [split_on]. now rewrite Ascii.eqb_refl.
  - rewrite append_cons. cbn [split_on].
    destruct (Ascii.eqb c sep); [now rewrite IH|].
    rewrite IH. destruct (split_on sep a) as [|h t] eqn:E; [|reflexivity].
    now apply split_on_nonnil in E.
Qed.

(** ** The rewriter *)

Lemma unlines_app (a b : list string) : unlines (a ++ b) = unlines a +:+ unlines b.
Proof.
  induction a as [|x a IH]; cbn [unlines app]; [reflexivity|].
  now rewrite IH, !append_assoc.
Qed.


Lemma kept_cons_drop (l : string) (rest : list string) :
  match_go_package l = true -> kept (l :: rest) = kept rest.
Proof.
  intros H. unfold kept. rewrite filter_cons.
  destruct (decide (match_go_package l = false)); congruence.
Qed.

Lemma kept_cons_keep (l : string) (rest : list string) :
  match_go_package l = false -> kept (l :: rest) = l :: kept rest.
Proof.
  intros H. unfold kept. rewrite filter_cons.
  destruct (decide (match_go_package l = false)); congruence.
Qed.

Lemma count_syntax_cons (l : string) (rest : list string) :
  count_syntax (l :: rest) =
  (if match_syntax l then 1 else 0) + count_syntax rest.
Proof.
  unfold count_syntax. rewrite filter_cons.
  destruct (decide (match_syntax l = true)) as [->|H]; [reflexivity|].
  now destruct (match_syntax l).
Qed.

Lemma kept_no_go_package (lines : list string) :
  Forall (fun l => match_go_package l = false) (kept lines).
Proof.
  unfold kept. apply Forall_forall. intros l Hl.
  apply list_elem_of_filter in Hl. tauto.
Qed.

(** *** Lines of a text *)

Lemma split_lf_no_lf (l : string) : no_lf l = true -> split_lf l = [l].
Proof.
  unfold split_lf. induction l as [|c l IH]; [reflexivity|].
  cbn [no_lf split_on]. intros H. apply andb_prop in H. destruct H as [Hc Hl].
  apply negb_true_iff in Hc. rewrite Hc. now rewrite (IH Hl).
Qed.

Lemma split_lf_line (l rest : string) :
  no_lf l = true -> split_lf (l +:+ LF +:+ rest) = l :: split_lf rest.
Proof.
  intros Hl. unfold split_lf, LF. rewrite append_cons, append_nil_l.
  rewrite split_on_app. fold (split_lf l). now rewrite (split_lf_no_lf _ Hl).
Qed.

Lemma split_lf_unlines (ls : list string) (last : string) :
  Forall (fun l => no_lf l = true) ls ->
  split_lf (unlines ls +:+ last) = ls ++ split_lf last.
Proof.
  induction 1 as [|l ls Hl _ IH]; [reflexivity|].
  cbn [unlines app]. rewrite !append_assoc, split_lf_line by exact Hl.
  now rewrite IH.
Qed.

Lemma drop_last_empty_snoc (ls : list string) (last : string) :
  drop_last_empty (ls ++ [last])
  = if String.eqb last "" then ls else ls ++ [last].
Proof.
  induction ls as [|l ls IH]; [reflexivity|].
  cbn [app drop_last_empty]. rewrite IH.
  destruct (ls ++ [last]) eqn:E; [now destruct ls|].
  now destruct (String.eqb last "").
Qed.

Lemma dropCR_snoc (l : string) (c : ascii) :
  dropCR (l +:+ String c "") = if Ascii.eqb c "013" then l else l +:+ String c "".
Proof.
  induction l as [|x l IH].
  { rewrite append_nil_l. cbn [dropCR]. now destruct (Ascii.eqb c "013"). }
  rewrite append_cons. cbn [dropCR]. rewrite IH.
  destruct (l +:+ String c "") eqn:E; [now destruct l|].
  now destruct (Ascii.eqb c "013").
Qed.

Lemma no_lf_app (a b : string) : no_lf (a +:+ b) = no_lf a && no_lf b.
Proof.
  induction a as [|x a IH]; [reflexivity|].
  rewrite append_cons. cbn [no_lf]. now rewrite IH, andb_assoc.
Qed.

Lemma dropCR_plain (l : string) : ends_with_cr l = false -> dropCR l = l.
Proof.
  induction l as [|c l IH]; [reflexivity|].
  destruct l as [|c' l'].
  - cbn [ends_with_cr dropCR]. intros ->. reflexivity.
  - intros H. change (dropCR (String c (String c' l')))
      with (String c (dropCR (String c' l'))).
    now rewrite IH.
Qed.

Lemma map_dropCR_plain (ls : list string) :
  Forall (fun l => plain_line l = true) ls -> map dropCR ls = ls.
Proof.
  induction 1 as [|l ls Hl _ IH]; [reflexivity|].
  cbn [map]. rewrite IH. unfold plain_line in Hl.
  apply andb_prop in Hl. destruct Hl as [_ Hl]. apply negb_true_iff in Hl.
  now rewrite dropCR_plain.
Qed.

Lemma plain_no_lf (ls : list string) :
  Forall (fun l => plain_line l = true) ls -> Forall (fun l => no_lf l = true) ls.
Proof.
  intros H. eapply Forall_impl; [exact H|]. intros l Hl. unfold plain_line in Hl.
  apply andb_prop in Hl. tauto.
Qed.

(** Lines written with line feeds are read back as they were. *)
Lemma ScanLines_unlines (ls : list string) :
  Forall (fun l => plain_line l = true) ls -> ScanLines (unlines ls) = ls.
Proof.
  intros H. unfold ScanLines.
  rewrite <- (append_nil_r (unlines ls)).
  rewrite split_lf_unlines by now apply plain_no_lf.
  change (split_lf "") with [""]. rewrite drop_last_empty_snoc.
  now apply map_dropCR_plain.
Qed.

Lemma ScanLines_final_line (ls : list string) (last : string) :
  Forall (fun l => no_lf l = true) ls -> no_lf last = true -> last <> "" ->
  ScanLines (unlines ls +:+ last) = map dropCR (ls ++ [last]).
Proof.
  intros H Hl Hne. unfold ScanLines.
  rewrite split_lf_unlines by exact H. rewrite (split_lf_no_lf _ Hl).
  rewrite drop_last_empty_snoc. apply String.eqb_neq in Hne. now rewrite Hne.
Qed.

Lemma unlines_crlf_unlines (ls : list string) :
  unlines_crlf ls = unlines (map (fun l => l +:+ CR) ls).
Proof.
  induction ls as [|l ls IH]; [reflexivity|].
  cbn [unlines_crlf unlines map]. now rewrite IH, !append_assoc.
Qed.

Lemma ScanLines_crlf (ls : list string) :
  Forall (fun l => no_lf l = true) ls -> ScanLines (unlines_crlf ls) = ls.
Proof.
  intros H. unfold ScanLines. rewrite unlines_crlf_unlines.
  rewrite <- (append_nil_r (unlines _)).
  rewrite split_lf_unlines.
  - change (split_lf "") with [""]. rewrite drop_last_empty_snoc.
    cbn [String.eqb]. rewrite map_map.
    rewrite <- (map_id ls) at 2. apply map_ext. intros l.
    unfold CR. now rewrite dropCR_snoc.
  - apply Forall_map. eapply Forall_impl; [exact H|]. intros l Hl.
    cbn. now rewrite no_lf_app, Hl.
Qed.

(** *** The buffer of the scanner *)

Lemma scan_fits (pieces : list string) :
  Forall (fun p => too_long p = false) pieces ->
  scan pieces = (map dropCR pieces, None).
Proof.
  induction 1 as [|p pieces Hp _ IH]; [reflexivity|].
  cbn [scan map]. now rewrite Hp, IH.
Qed.


(** On an input whose lines fit the buffer the scanner yields the lines of
    [bufio.ScanLines] and no error. *)
Lemma NewScanner_fits (input : string) :
  Forall (fun p => too_long p = false) (drop_last_empty (split_lf input)) ->
  NewScanner input = {| sc_lines := ScanLines input; sc_err := None |}.
Proof. intros H. unfold NewScanner, ScanLines. now rewrite scan_fits. Qed.


Lemma length_append (a b : string) :
  String.length (a +:+ b) = String.length a + String.length b.
Proof.
  induction a as [|x a IH]; [reflexivity|].
  rewrite append_cons. cbn [String.length]. now rewrite IH.
Qed.

Lemma too_long_shorter (a b : string) :
  String.length a <= String.length b -> too_long b = false -> too_long a = false.
Proof.
  unfold too_long. intros Hle Hb.
  apply N.leb_gt in Hb. apply N.leb_gt. lia.
Qed.

(** *** Lines that end in a line feed, or in a carriage return and one *)






(** Every text is the text of lines, ended by line feeds or by carriage
    returns and line feeds, and of what follows the last line feed. *)
Lemma text_of_complete (input : string) :
  exists items final,
    Forall (fun it => is_line it = true) (items ++ [final])
    /\ input = text_of items final.
Proof.
  induction input as [|c input (items & final & Hwf & ->)].
  { exists [], ("", false). split; [repeat constructor | reflexivity]. }
  destruct (Ascii.eqb_spec c "010") as [->|Hc].
  { exists (("", false) :: items), final. split; [now constructor | reflexivity]. }
  assert (Hpush : forall it,
             is_line it = true ->
             exists it', is_line it' = true /\ with_cr it' = String c (with_cr it)).
  { intros [l cr] Hit. unfold is_line in Hit. cbn [fst snd] in Hit.
    apply andb_prop in Hit. destruct Hit as [Hlf Hcr].
    apply Ascii.eqb_neq in Hc.
    destruct cr.
    - exists (String c l, true). split; [| reflexivity].
      unfold is_line. cbn [fst snd no_lf orb]. now rewrite Hc, Hlf.
    - cbn [orb] in Hcr. destruct l as [|c' l'].
      + destruct (Ascii.eqb c "013") eqn:Hc13.
        * apply Ascii.eqb_eq in Hc13. subst c. exists ("", true).
          split; reflexivity.
        * exists (String c "", false). split; [| reflexivity].
          unfold is_line. cbn [fst snd no_lf ends_with_cr orb].
          now rewrite Hc, Hc13.
      + exists (String c (String c' l'), false). split; [| reflexivity].
        unfold is_line. cbn [fst snd orb].
        change (ends_with_cr (String c (String c' l')))
          with (ends_with_cr (String c' l')).
        rewrite Hcr. cbn [no_lf] in *. now rewrite Hc, Hlf. }
  destruct items as [|it items].
  - apply Forall_inv in Hwf. destruct (Hpush _ Hwf) as (it' & Hit' & E).
    exists [], it'. split; [now repeat constructor|]. cbn [text_of]. now rewrite E.
  - inversion Hwf as [|? ? Hit Hrest]; subst.
    destruct (Hpush _ Hit) as (it' & Hit' & E).
    exists (it' :: items), final. split; [now constructor|].
    cbn [text_of]. now rewrite E, append_cons.
Qed.

Lemma ends_with_cr_snoc (l : string) (c : ascii) :
  ends_with_cr (l +:+ String c "") = Ascii.eqb c "013".
Proof.
  induction l as [|x l IH]; [reflexivity|].
  rewrite append_cons. cbn [ends_with_cr]. rewrite IH.
  destruct (l +:+ String c "") eqn:E; [now destruct l | reflexivity].
Qed.

Lemma plain_go_package_line (newPackage : string) :
  no_lf newPackage = true -> plain_line (go_package_line newPackage) = true.
Proof.
  intros H. unfold plain_line, go_package_line. apply andb_true_intro. split.
  - rewrite !no_lf_app, H. reflexivity.
  - rewrite <- !append_assoc. now rewrite ends_with_cr_snoc.
Qed.

Lemma Forall_kept (P : string -> Prop) (lines : list string) :
  Forall P lines -> Forall P (kept lines).
Proof.
  induction 1 as [|l lines Hl _ IH]; [constructor|].
  destruct (match_go_package l) eqn:Hg.
  - now rewrite kept_cons_drop.
  - rewrite kept_cons_keep by exact Hg. now constructor.
Qed.

(** The pieces between the line feeds of lines written with line feeds are
    the lines. *)
Lemma pieces_unlines (ls : list string) :
  Forall (fun l => no_lf l = true) ls ->
  drop_last_empty (split_lf (unlines ls)) = ls.
Proof.
  intros H. rewrite <- (append_nil_r (unlines ls)).
  rewrite split_lf_unlines by exact H.
  change (split_lf "") with [""]. now rewrite drop_last_empty_snoc.
Qed.




Section Rewriter.

Variable newPackage : string.

(** After the syntax line has been seen, a run that ends normally has
    copied the kept lines and met no other syntax line. *)
Lemma rewriteLines_after (lines : list string) :
  forall ow found ow',
    rewriteLines newPackage lines true ow = Ok (found, ow') ->
    found = true
    /\ ow' = ow +:+ unlines (kept lines)
    /\ Forall (fun l => match_syntax l = false) (kept lines).
Proof.
  induction lines as [|l rest IH]; intros ow found ow' H; cbn [rewriteLines] in H.
  - inversion H; subst. rewrite append_nil_r.
    split; [reflexivity|]. split; [reflexivity|]. constructor.
  - destruct (match_go_package l) eqn:Hg.
    + rewrite (kept_cons_drop _ _ Hg). eauto.
    + rewrite (kept_cons_keep _ _ Hg).
      destruct (match_syntax l) eqn:Hs; [discriminate|].
      destruct (IH _ _ _ H) as (-> & -> & HF).
      split; [reflexivity|].
      split; [cbn [unlines]; now rewrite !append_assoc|].
      constructor; assumption.
Qed.

(** Before it: either no syntax line is met, or exactly one, and the new
    option line and an empty line follow it in the output. *)
Lemma rewriteLines_before (lines : list string) :
  forall ow found ow',
    rewriteLines newPackage lines false ow = Ok (found, ow') ->
    (found = false
     /\ ow' = ow +:+ unlines (kept lines)
     /\ Forall (fun l => match_syntax l = false) (kept lines))
    \/ (found = true
        /\ exists pre syn post,
             kept lines = pre ++ syn :: post
             /\ match_syntax syn = true
             /\ Forall (fun l => match_syntax l = false) (pre ++ post)
             /\ ow' = ow +:+ unlines (pre ++ syn :: go_package_line newPackage
                                        :: "" :: post)).
Proof.
  induction lines as [|l rest IH]; intros ow found ow' H; cbn [rewriteLines] in H.
  - inversion H; subst. left. rewrite append_nil_r.
    split; [reflexivity|]. split; [reflexivity|]. constructor.
  - destruct (match_go_package l) eqn:Hg.
    + rewrite (kept_cons_drop _ _ Hg). eauto.
    + rewrite (kept_cons_keep _ _ Hg).
      destruct (match_syntax l) eqn:Hs.
      * right. destruct (rewriteLines_after _ _ _ _ H) as (-> & -> & HF).
        split; [reflexivity|]. exists [], l, (kept rest).
        split; [reflexivity|]. split; [exact Hs|]. split; [exact HF|].
        cbn [unlines app]; now rewrite !append_assoc.
      * destruct (IH _ _ _ H)
          as [(-> & -> & HF) | (-> & pre & syn & post & Hk & Hsyn & HF & ->)].
        -- left. split; [reflexivity|].
           split; [cbn [unlines]; now rewrite !append_assoc|].
           constructor; assumption.
        -- right. split; [reflexivity|]. exists (l :: pre), syn, post.
           split; [now rewrite Hk|]. split; [exact Hsyn|].
           split; [constructor; assumption|].
           cbn [unlines app]; now rewrite !append_assoc.
Qed.

Lemma rewriteLines_no_syntax (lines : list string) :
  forall found ow,
    count_syntax lines = 0 ->
    rewriteLines newPackage lines found ow
    = Ok (found, ow +:+ unlines (kept lines)).
Proof.
  induction lines as [|l rest IH]; intros found ow H; cbn [rewriteLines].
  - now rewrite append_nil_r.
  - rewrite count_syntax_cons in H.
    destruct (match_syntax l) eqn:Hs; [discriminate|]. simpl in H.
    destruct (match_go_package l) eqn:Hg.
    + rewrite (kept_cons_drop _ _ Hg). now apply IH.
    + rewrite (kept_cons_keep _ _ Hg). rewrite IH by assumption.
      cbn [unlines app]; now rewrite !append_assoc.
Qed.


End Rewriter.

Lemma go_package_line_matches (newPackage : string) :
  match_go_package (go_package_line newPackage) = true.
Proof. reflexivity. Qed.

Lemma fixGoPackageProtoStream_Ok_inv (s : Scanner) (newPackage out : string) :
  fixGoPackageProtoStream s newPackage = Ok out ->
  newPackage <> "" /\ sc_err s = None
  /\ rewriteLines newPackage (sc_lines s) false "" = Ok (true, out).
Proof.
  unfold fixGoPackageProtoStream. intros H.
  destruct (String.eqb_spec newPackage "") as [|Hne]; [discriminate|].
  destruct (rewriteLines newPackage (sc_lines s) false "") as [[found ow]|e];
    [| discriminate].
  destruct (sc_err s); [discriminate|].
  destruct found; [| discriminate].
  inversion H; subst. auto.
Qed.

(** What an accepted input is turned into. *)
Lemma fixGoPackageProtoStream_shape (s : Scanner) (newPackage out : string) :
  fixGoPackageProtoStream s newPackage = Ok out ->
  exists pre syn post,
    kept (sc_lines s) = pre ++ syn :: post
    /\ match_syntax syn = true
    /\ Forall (fun l => match_syntax l = false) (pre ++ post)
    /\ out = unlines (pre ++ syn :: go_package_line newPackage :: "" :: post).
Proof.
  intros H.
  destruct (fixGoPackageProtoStream_Ok_inv _ _ _ H) as (_ & _ & Hrun).
  destruct (rewriteLines_before _ _ _ _ _ Hrun)
    as [(Hf & _) | (_ & pre & syn & post & Hk & Hsyn & HF & Hout)];
    [discriminate|].
  exists pre, syn, post. rewrite append_nil_l in Hout. auto.
Qed.








(** ** The supervision loop and [main] *)

(** Once the value of [runerrchan] has been received without ending the
    program, nothing ends it: every signal is answered with another kill. *)
Lemma exit_codes_distinct :
  NoDup [0; EXITCODE_OTHER_ERROR; EXITCODE_BUILD_ERROR;
         EXITCODE_RUNTIME_ERROR; EXITCODE_ARGUMENTS_ERROR].
Proof. apply (bool_decide_unpack _). reflexivity. Qed.

Lemma supervise_reported (events : list Event) :
  forall kills, snd (supervise true kills events) = Blocked.
Proof.
  induction events as [|e rest IH]; intros kills; [reflexivity|].
  destruct e; cbn [supervise]; apply IH.
Qed.

(** Signals alone never end the program; each one sends a kill. *)
Lemma supervise_signals (n : nat) :
  forall reported kills,
    supervise reported kills (repeat SignalCaught n) = (n + kills, Blocked).
Proof.
  induction n as [|n IH]; intros reported kills; [reflexivity|].
  cbn [repeat supervise]. rewrite IH. f_equal. lia.
Qed.

(** A server that ends unsuccessfully ends the program with the runtime
    error code, after any number of signals. *)
Lemma supervise_child_failed (st : ProcessState) (rest : list Event) (n : nat) :
  Success st = false ->
  forall kills,
    supervise false kills
      (repeat SignalCaught n ++ ChildDone (Terminated st) :: rest)
    = (n + kills, Exit EXITCODE_RUNTIME_ERROR).
Proof.
  intros Hst. induction n as [|n IH]; intros kills.
  - cbn [repeat app supervise cmd_Wait]. now rewrite !Hst.
  - cbn [repeat app supervise]. rewrite IH. f_equal. lia.
Qed.

(** The only exit of the loop is the one with the runtime error code. *)
Lemma supervise_outcomes (events : list Event) :
  forall reported kills,
    snd (supervise reported kills events) = Blocked
    \/ snd (supervise reported kills events) = Exit EXITCODE_RUNTIME_ERROR.
Proof.
  induction events as [|e rest IH]; intros reported kills; [now left|].
  destruct e as [c|]; cbn [supervise]; [| apply IH].
  destruct reported; [apply IH|].
  destruct c as [st|msg]; cbn [cmd_Wait]; [| apply IH].
  destruct (Success st) eqn:Hst; [apply IH|].
  rewrite Hst. now right.
Qed.

(** The loop never ends the program with status 0: [Cmd.Wait] reports a
    server that exited with status 0 as a nil error, not as an
    [*exec.ExitError]. *)
Lemma supervise_never_exits_0 (events : list Event) :
  forall reported kills, snd (supervise reported kills events) <> Exit 0.
Proof.
  induction events as [|e rest IH]; intros reported kills; [discriminate|].
  destruct e as [c|]; cbn [supervise]; [| apply IH].
  destruct reported; [apply IH|].
  destruct c as [st|msg]; cbn [cmd_Wait]; [| apply IH].
  destruct (Success st) eqn:Hst; [apply IH|].
  rewrite Hst. discriminate.
Qed.

Section MainProperties.

Variable flag_Parse : list string -> FlagResult.
Variable stub_RunStubServer : World -> string -> string -> string -> option nat.
Variable exec_Run :
  string -> gmap string Node -> list string -> gmap string Node * option string.
Variable exec_Start : World -> string -> option string.

#[local] Abbreviation run_main := (main flag_Parse stub_RunStubServer exec_Run exec_Start).

(** What [main] does before it supervises the server does not depend on
    what arrives later: it either ends the program or reaches the loop. *)
Lemma main_startup (osArgs : list string) (w : World) :
  (exists o, o <> Blocked /\ forall events, run_main osArgs w events = o)
  \/ (forall events, run_main osArgs w events = snd (supervise false 0 events)).
Proof.
  unfold main.
  destruct (nth_error osArgs 1) as [arg1|];
    [| left; eexists; split; [| reflexivity]; discriminate].
  destruct (flag_Parse _) as [code|f];
    [left; eexists; split; [| reflexivity]; discriminate|].
  destruct (String.eqb (flag_o f) "");
    [left; eexists; split; [| reflexivity]; discriminate|].
  destruct (ensureOutput _ _) as [w1|e];
    [| left; eexists; split; [| reflexivity]; discriminate].
  destruct (stub_RunStubServer _ _ _ _) as [code|];
    [left; eexists; split; [| reflexivity]; discriminate|].
  destruct (Nat.eqb _ 0);
    [left; eexists; split; [| reflexivity]; discriminate|].
  destruct (generateProtoc _ _ _) as [w2|e];
    [| left; eexists; split; [| reflexivity]; discriminate].
  destruct (buildServer _ _ _) as [w3 [e|]];
    [left; eexists; split; [| reflexivity]; discriminate|].
  unfold runGrpcServer. destruct (exec_Start _ _) as [e|];
    [left; eexists; split; [| reflexivity]; discriminate|].
  right. reflexivity.
Qed.

(** The arguments error code: an empty output directory, no proto file. *)
Lemma main_argument_errors (osArgs : list string) (arg1 : string) (f : Flags)
    (w : World) (events : list Event) :
  nth_error osArgs 1 = Some arg1 ->
  flag_Parse (dropRepeatedName arg1 osArgs) = Parsed f ->
  (flag_o f = "" -> run_main osArgs w events = Exit EXITCODE_ARGUMENTS_ERROR)
  /\ (flag_o f <> "" -> flag_Args f = [] ->
      forall w1, ensureOutput w (flag_o f) = Ok w1 ->
      stub_RunStubServer w1 (flag_stub f) (flag_admin_port f) (flag_admin_listen f)
      = None ->
      run_main osArgs w events = Exit EXITCODE_ARGUMENTS_ERROR).
Proof.
  intros Harg Hparse. unfold main. rewrite Harg, Hparse. split.
  - intros ->. reflexivity.
  - intros Ho Hargs w1 Hw1 Hstub. apply String.eqb_neq in Ho.
    now rewrite Ho, Hw1, Hstub, Hargs.
Qed.

(** The build error code: [generateProtoc] or [buildServer] fails. *)
Lemma main_build_errors (osArgs : list string) (arg1 : string) (f : Flags)
    (w w1 : World) (events : list Event) :
  nth_error osArgs 1 = Some arg1 ->
  flag_Parse (dropRepeatedName arg1 osArgs) = Parsed f ->
  flag_o f <> "" -> flag_Args f <> [] ->
  ensureOutput w (flag_o f) = Ok w1 ->
  stub_RunStubServer w1 (flag_stub f) (flag_admin_port f) (flag_admin_listen f)
  = None ->
  (forall e, generateProtoc exec_Run w1 (paramOfFlags f) = Err e ->
             run_main osArgs w events = Exit EXITCODE_BUILD_ERROR)
  /\ (forall w2 e,
        generateProtoc exec_Run w1 (paramOfFlags f) = Ok w2 ->
        snd (buildServer exec_Run w2 (flag_o f)) = Some e ->
        run_main osArgs w events = Exit EXITCODE_BUILD_ERROR).
Proof.
  intros Harg Hparse Ho Hargs Hw1 Hstub. unfold main. rewrite Harg, Hparse.
  apply String.eqb_neq in Ho. rewrite Ho, Hw1, Hstub.
  destruct (flag_Args f) as [|a l]; [congruence|]. cbn [length Nat.eqb].
  split.
  - intros e ->. reflexivity.
  - intros w2 e -> Hb.
    destruct (buildServer exec_Run w2 (flag_o f)) as [w3 [e'|]];
      [reflexivity | discriminate].
Qed.

(** [main] itself never ends the program with status 0: only
    [flag.Parse] can (on [-h]), or the call of the admin stub server. *)
Lemma main_exit_0 (osArgs : list string) (w : World) (events : list Event) :
  run_main osArgs w events = Exit 0 ->
  exists arg1,
    nth_error osArgs 1 = Some arg1
    /\ (flag_Parse (dropRepeatedName arg1 osArgs) = FlagExit 0
        \/ exists f w1,
             flag_Parse (dropRepeatedName arg1 osArgs) = Parsed f
             /\ stub_RunStubServer w1 (flag_stub f) (flag_admin_port f)
                  (flag_admin_listen f) = Some 0).
Proof.
  unfold main.
  destruct (nth_error osArgs 1) as [arg1|]; [| discriminate].
  destruct (flag_Parse _) as [code|f] eqn:Hparse.
  - intros H. inversion H; subst. eauto.
  - destruct (String.eqb (flag_o f) ""); [discriminate|].
    destruct (ensureOutput _ _) as [w1|e]; [| discriminate].
    destruct (stub_RunStubServer _ _ _ _) as [code|] eqn:Hstub.
    { intros H. inversion H; subst. exists arg1. split; [reflexivity|].
      right. exists f, w1. auto. }
    destruct (Nat.eqb _ 0); [discriminate|].
    destruct (generateProtoc _ _ _) as [w2|e]; [| discriminate].
    destruct (buildServer _ _ _) as [w3 [e|]]; [discriminate|].
    unfold runGrpcServer. destruct (exec_Start _ _) as [e|]; [discriminate|].
    intros H. now apply supervise_never_exits_0 in H.
Qed.

(** C1 (the code on a server that exits with status 0). If [main] has
    started the server, and the server then exits with status 0, [main]
    does not exit with status 0: it stays blocked in its [select],
    whatever arrives afterwards. *)
Theorem main_clean_child_exit_blocks (osArgs : list string) (w : World)
    (later : list Event) :
  run_main osArgs w [] = Blocked ->
  run_main osArgs w (clean_exit :: later) = Blocked.
Proof.
  intros Hstart.
  destruct (main_startup osArgs w) as [(o & Ho & Hmain) | Hmain].
  - rewrite Hmain in Hstart. contradiction.
  - rewrite Hmain. unfold clean_exit. cbn [supervise cmd_Wait Success].
    apply supervise_reported.
Qed.

(** C9. With no command-line argument, [main] panics on [os.Args[1]];
    it can only exit with the argument error code when [os.Args] has a
    second element. *)
Theorem main_indexes_first_argument (osArgs : list string) (w : World)
    (events : list Event) :
  (forall prog, run_main [prog] w events = PanicIndexOutOfRange 1 1)
  /\ (length osArgs < 2 ->
      run_main osArgs w events = PanicIndexOutOfRange 1 (length osArgs))
  /\ (run_main osArgs w events = Exit EXITCODE_ARGUMENTS_ERROR ->
      2 <= length osArgs).
Proof.
  split; [reflexivity|]. split.
  - intros Hlen. unfold main.
    destruct osArgs as [|a [|b rest]]; [reflexivity | reflexivity |].
    cbn [length] in Hlen. lia.
  - intros Hexit. unfold main in Hexit.
    destruct osArgs as [|a [|b rest]]; [discriminate | discriminate |].
    cbn [length]. lia.
Qed.

End MainProperties.

(** C2 (the code on a server that exits with status 0 on its own). The
    loop receives the nil error of [Cmd.Wait] and goes on waiting: the
    program does not end, and each signal that follows only sends a kill to
    the server that is gone. *)
Theorem supervise_clean_exit_first (n : nat) :
  supervise false 0 (clean_exit :: repeat SignalCaught n) = (n, Blocked).
Proof.
  unfold clean_exit. cbn [supervise cmd_Wait Success].
  rewrite supervise_signals. f_equal. lia.
Qed.

Lemma main_clean_child_exit_blocks_witness :
  main positional_flag_Parse quiet_stub quiet_Run good_Start
    ["gripmock"; "protos/bar/bar.proto"] example_world [] = Blocked
  /\ main positional_flag_Parse quiet_stub quiet_Run good_Start
       ["gripmock"; "protos/bar/bar.proto"] example_world
       [clean_exit; SignalCaught] = Blocked.
Proof.
  split; [vm_compute; reflexivity|].
  apply (main_clean_child_exit_blocks positional_flag_Parse quiet_stub quiet_Run good_Start
           ["gripmock"; "protos/bar/bar.proto"] example_world [SignalCaught]).
  vm_compute. reflexivity.
Defined.

Lemma main_indexes_first_argument_witness :
  main positional_flag_Parse quiet_stub quiet_Run good_Start ["gripmock"; "gripmock"]
    example_world [] = Exit EXITCODE_ARGUMENTS_ERROR
  /\ 2 <= length ["gripmock"; "gripmock"]
  /\ main positional_flag_Parse quiet_stub quiet_Run good_Start ["gripmock"]
       example_world [] = PanicIndexOutOfRange 1 1.
Proof.
  split; [vm_compute; reflexivity|]. split.
  - apply (proj2 (proj2 (main_indexes_first_argument positional_flag_Parse
                           quiet_stub quiet_Run good_Start ["gripmock"; "gripmock"]
                           example_world []))).
    vm_compute. reflexivity.
  - apply (proj1 (main_indexes_first_argument positional_flag_Parse
                    quiet_stub quiet_Run good_Start ["gripmock"] example_world [])).
Defined.

(** ** Building the server *)

Lemma sys_getwd_Ok (w : World) (d : string) : sys_getwd w = Ok d -> d = cwd w.
Proof.
  unfold sys_getwd. destruct (node_at (fs w) (cwd w)) as [[c|]|]; congruence.
Qed.

Lemma os_Chdir_Ok (w w' : World) (p : string) :
  os_Chdir w p = Ok w' -> cwd w' = abspath (cwd w) p /\ fs w' = fs w.
Proof.
  unfold os_Chdir. destruct (sys_stat w p) as [[|]|e]; [| discriminate..].
  intros H. inversion H; subst. split; reflexivity.
Qed.

Lemma run_command_world exec_Run (w w' : World) (argv : list string)
    (err : option string) :
  run_command exec_Run w argv = (w', err) ->
  cwd w' = cwd w /\ exec_Run (cwd w) (fs w) argv = (fs w', err).
Proof.
  unfold run_command. destruct (exec_Run (cwd w) (fs w) argv) as [m e].
  intros H. inversion H; subst. split; reflexivity.
Qed.

(** C10. When [buildServer] returns nil, the three go commands have run, one
    after the other, with the output directory as their working directory,
    and the working directory of the process is again the one it had when
    [buildServer] was called. *)
Theorem buildServer_restores_cwd exec_Run (w w' : World) (output : string) :
  wf_cwd w ->
  buildServer exec_Run w output = (w', None) ->
  cwd w' = cwd w
  /\ exists m1 m2,
       exec_Run (abspath (cwd w) output) (fs w)
         ["go"; "mod"; "edit"; "-module"; GENERATED_MODULE_NAME] = (m1, None)
       /\ exec_Run (abspath (cwd w) output) m1 ["go"; "mod"; "tidy"] = (m2, None)
       /\ exec_Run (abspath (cwd w) output) m2
            ["go"; "build"; "-o"; "server"; "./cmd/..."] = (fs w', None).
Proof.
  intros [Habs Hclean]. unfold buildServer.
  destruct (sys_getwd w) as [oldCwd|e] eqn:Hwd; [| discriminate].
  apply sys_getwd_Ok in Hwd. subst oldCwd.
  destruct (os_Chdir w output) as [w1|e] eqn:H1; [| discriminate].
  apply os_Chdir_Ok in H1. destruct H1 as [Hc1 Hf1].
  destruct (run_command exec_Run w1 _) as [w2 [e|]] eqn:H2; [discriminate|].
  apply run_command_world in H2. destruct H2 as [Hc2 Hr2].
  destruct (run_command exec_Run w2 _) as [w3 [e|]] eqn:H3; [discriminate|].
  apply run_command_world in H3. destruct H3 as [Hc3 Hr3].
  destruct (run_command exec_Run w3 _) as [w4 [e|]] eqn:H4; [discriminate|].
  apply run_command_world in H4. destruct H4 as [Hc4 Hr4].
  destruct (os_Chdir w4 (cwd w)) as [w5|e] eqn:H5; [| discriminate].
  apply os_Chdir_Ok in H5. destruct H5 as [Hc5 Hf5].
  intros H. inversion H; subst w'. split.
  - rewrite Hc5. unfold abspath. now rewrite Habs.
  - exists (fs w2), (fs w3).
    rewrite Hc3, Hc2, Hc1 in Hr4. rewrite Hc2, Hc1 in Hr3.
    rewrite Hc1, Hf1 in Hr2. rewrite Hf5. auto.
Qed.

Lemma buildServer_restores_cwd_witness :
  wf_cwd example_world
  /\ cwd (fst (buildServer quiet_Run example_world "protos")) = "/w".
Proof.
  assert (Hwf : wf_cwd example_world) by (split; reflexivity).
  split; [exact Hwf|].
  apply (buildServer_restores_cwd quiet_Run example_world
           (fst (buildServer quiet_Run example_world "protos")) "protos" Hwf).
  vm_compute. reflexivity.
Defined.

(** ** Paths: splitting and joining *)

Lemma split_slash_app (a b : string) :
  split_slash (a +:+ "/" +:+ b) = split_slash a ++ split_slash b.
Proof. apply split_on_app. Qed.

Lemma split_slash_no_slash (s : string) :
  no_slash s = true -> split_slash s = [s].
Proof.
  induction s as [|c s IH]; [reflexivity|].
  cbn [no_slash]. intros H. apply andb_prop in H. destruct H as [Hc Hs].
  unfold split_slash in *. cbn [split_on]. unfold is_slash in Hc.
  destruct (Ascii.eqb c "/"); [discriminate|]. now rewrite (IH Hs).
Qed.

Lemma split_slash_elems (s : string) :
  Forall (fun e => no_slash e = true) (split_slash s).
Proof.
  unfold split_slash. induction s as [|c s IH]; [repeat constructor|].
  cbn [split_on]. destruct (Ascii.eqb c "/") eqn:Hc.
  - constructor; [reflexivity | exact IH].
  - destruct (split_on "/" s) as [|h t]; [repeat constructor|].
    + cbn [no_slash]. unfold is_slash. now rewrite Hc.
    + inversion IH; subst. constructor; [| assumption].
      cbn [no_slash]. unfold is_slash. rewrite Hc. assumption.
Qed.

Lemma join_slash_cons (x y : string) (l : list string) :
  join_slash (x :: y :: l) = x +:+ "/" +:+ join_slash (y :: l).
Proof. reflexivity. Qed.

Lemma join_slash_snoc (l : list string) (b : string) :
  l <> [] -> join_slash (l ++ [b]) = join_slash l +:+ "/" +:+ b.
Proof.
  induction l as [|x l IH]; [congruence|]. intros _.
  destruct l as [|y l]; [reflexivity|].
  change ((x :: y :: l) ++ [b]) with (x :: (y :: l) ++ [b]).
  change ((y :: l) ++ [b]) with (y :: l ++ [b]) at 1.
  rewrite join_slash_cons.
  change (y :: l ++ [b]) with ((y :: l) ++ [b]).
  rewrite IH by discriminate. rewrite join_slash_cons.
  now rewrite !append_assoc.
Qed.

Lemma split_join_slash (l : list string) :
  l <> [] -> Forall (fun e => no_slash e = true) l ->
  split_slash (join_slash l) = l.
Proof.
  induction l as [|x l IH]; [congruence|]. intros _ HF.
  inversion HF as [|? ? Hx Hl]; subst.
  destruct l as [|y l]; [now apply split_slash_no_slash|].
  rewrite join_slash_cons, split_slash_app.
  rewrite (split_slash_no_slash _ Hx), IH; [reflexivity | discriminate | assumption].
Qed.

(** ** Paths: the elements [path.Clean] keeps *)

Lemma stack_ok_tail (rooted : bool) (x : string) (st : list string) :
  stack_ok rooted (x :: st) = true -> stack_ok rooted st = true.
Proof. cbn [stack_ok]. intros H. apply andb_prop in H. tauto. Qed.

Lemma stack_ok_app_r (rooted : bool) (a b : list string) :
  stack_ok rooted (a ++ b) = true -> stack_ok rooted b = true.
Proof.
  induction a as [|x a IH]; [trivial|].
  intros H. apply IH. exact (stack_ok_tail _ _ _ H).
Qed.

Lemma dotdot_top (rooted : bool) (st : list string) :
  stack_ok rooted (".." :: st) = true ->
  rooted = false /\ forallb is_dotdot st = true.
Proof.
  cbn [stack_ok]. intros H. apply andb_prop in H. destruct H as [H _].
  change (is_name "..") with false in H. cbn [orb] in H.
  apply andb_prop in H. destruct H as [H H2].
  apply andb_prop in H. destruct H as [_ H1].
  destruct rooted; [discriminate|]. auto.
Qed.

(** Pushing back the element on top of a cleaned stack. *)
Lemma clean_step_push (rooted : bool) (x : string) (st : list string) :
  stack_ok rooted (x :: st) = true -> clean_step rooted st x = x :: st.
Proof.
  intros H. unfold clean_step.
  destruct (String.eqb_spec x "..") as [->|Hdd].
  - apply dotdot_top in H. destruct H as [-> Hst]. cbn [String.eqb orb].
    change (("" =? "..")%string) with false.
    destruct st as [|top rest]; [reflexivity|].
    cbn [forallb] in Hst. apply andb_prop in Hst. destruct Hst as [Htop _].
    unfold is_dotdot in Htop. now rewrite Htop.
  - cbn [stack_ok] in H. apply andb_prop in H. destruct H as [H _].
    unfold is_dotdot in H.
    destruct (String.eqb_spec x "..") as [|_]; [contradiction|].
    cbn [andb orb] in H. rewrite orb_false_r in H. unfold is_name in H.
    apply andb_prop in H. destruct H as [H _].
    apply andb_prop in H. destruct H as [H1 H2].
    apply negb_true_iff in H1, H2. now rewrite H1, H2.
Qed.

(** Cleaning the elements of a cleaned path gives them back. *)
Lemma clean_replay (rooted : bool) (st acc : list string) :
  stack_ok rooted (st ++ acc) = true ->
  fold_left (clean_step rooted) (rev st) acc = st ++ acc.
Proof.
  induction st as [|x st IH]; [reflexivity|]. intros H.
  cbn [rev]. rewrite fold_left_app. cbn [fold_left].
  rewrite IH by exact (stack_ok_tail _ _ _ H).
  now apply clean_step_push.
Qed.

Lemma clean_step_ok (rooted : bool) (st : list string) (c : string) :
  stack_ok rooted st = true -> stack_ok rooted (clean_step rooted st c) = true.
Proof.
  intros H. unfold clean_step.
  destruct (String.eqb_spec c "") as [|H0]; [exact H|].
  destruct (String.eqb_spec c ".") as [|H1]; [exact H|]. cbn [orb].
  destruct (String.eqb_spec c "..") as [->|H2].
  - destruct st as [|top rest].
    + destruct rooted; reflexivity.
    + destruct (String.eqb_spec top "..") as [->|Htop].
      * destruct (dotdot_top _ _ H) as [-> Hrest].
        cbn [stack_ok]. cbn [stack_ok] in H. rewrite H.
        change (is_dotdot "..") with true. cbn [forallb].
        change (is_dotdot "..") with true. now rewrite Hrest.
      * exact (stack_ok_tail _ _ _ H).
  - cbn [stack_ok]. rewrite H. unfold is_name.
    apply String.eqb_neq in H0, H1, H2. now rewrite H0, H1, H2.
Qed.

Lemma clean_fold_ok (rooted : bool) (elems : list string) :
  forall st, stack_ok rooted st = true ->
             stack_ok rooted (fold_left (clean_step rooted) elems st) = true.
Proof.
  induction elems as [|c elems IH]; intros st H; [exact H|].
  cbn [fold_left]. apply IH. now apply clean_step_ok.
Qed.

Lemma clean_step_Forall (P : string -> Prop) (rooted : bool)
    (st : list string) (c : string) :
  Forall P st -> P c -> Forall P (clean_step rooted st c).
Proof.
  intros Hst Hc. unfold clean_step.
  destruct (_ || _); [exact Hst|].
  destruct (String.eqb c "..").
  - destruct st as [|top rest].
    + destruct rooted; repeat constructor. exact Hc.
    + destruct (String.eqb top ".."); [now constructor|].
      now inversion Hst.
  - now constructor.
Qed.

Lemma clean_fold_Forall (P : string -> Prop) (rooted : bool)
    (elems : list string) :
  Forall P elems ->
  forall st, Forall P st -> Forall P (fold_left (clean_step rooted) elems st).
Proof.
  induction 1 as [|c elems Hc _ IH]; intros st Hst; [exact Hst|].
  cbn [fold_left]. apply IH. now apply clean_step_Forall.
Qed.

(** Empty elements and ["."] do not count. *)
Lemma clean_step_skip (rooted : bool) (st : list string) (c : string) :
  c = "" \/ c = "." -> clean_step rooted st c = st.
Proof. intros [-> | ->]; reflexivity. Qed.

Lemma stack_ok_nonempty (rooted : bool) (st : list string) :
  stack_ok rooted st = true -> Forall (fun e => e <> "") st.
Proof.
  induction st as [|x st IH]; [constructor|].
  intros H. constructor; [| exact (IH (stack_ok_tail _ _ _ H))].
  intros ->. cbn [stack_ok] in H. discriminate.
Qed.

Lemma stack_ok_rev_nonempty (rooted : bool) (l : list string) :
  stack_ok rooted (rev l) = true -> Forall (fun e => e <> "") l.
Proof.
  intros H. rewrite <- (rev_involutive l). apply Forall_rev.
  exact (stack_ok_nonempty _ _ H).
Qed.

Lemma Clean_unfold (p : string) :
  p <> "" ->
  Clean p = render (IsAbs p) (clean_elems (IsAbs p) (split_slash p)).
Proof. destruct p; [congruence | reflexivity]. Qed.

(** Every cleaned path is the text of a list of elements in cleaned form. *)
Lemma Clean_render (p : string) :
  exists l,
    stack_ok (IsAbs p) (rev l) = true
    /\ Forall (fun e => no_slash e = true) l
    /\ Clean p = render (IsAbs p) l.
Proof.
  destruct (String.eqb_spec p "") as [->|Hp].
  - exists []. repeat split. constructor.
  - exists (clean_elems (IsAbs p) (split_slash p)). unfold clean_elems.
    split; [| split].
    + rewrite rev_involutive. now apply clean_fold_ok.
    + apply Forall_rev. apply clean_fold_Forall; [apply split_slash_elems | constructor].
    + now apply Clean_unfold.
Qed.

Lemma append_nonempty_l (a b : string) : a <> "" -> a +:+ b <> "".
Proof. destruct a; [congruence | discriminate]. Qed.

Lemma join_slash_head (e : string) (l : list string) :
  exists rest, join_slash (e :: l) = e +:+ rest.
Proof.
  destruct l as [|y l].
  - exists "". cbn. now rewrite append_nil_r.
  - exists ("/" +:+ join_slash (y :: l)). reflexivity.
Qed.

Lemma render_nonempty (rooted : bool) (l : list string) :
  Forall (fun e => e <> "") l -> render rooted l <> "".
Proof.
  intros HF. unfold render. destruct rooted; [discriminate|].
  destruct l as [|e l]; [discriminate|].
  destruct (join_slash_head e l) as [rest ->].
  apply append_nonempty_l. now inversion HF.
Qed.

Lemma IsAbs_app (a b : string) : a <> "" -> IsAbs (a +:+ b) = IsAbs a.
Proof. destruct a; [congruence | reflexivity]. Qed.

Lemma IsAbs_name (e : string) : e <> "" -> no_slash e = true -> IsAbs e = false.
Proof.
  destruct e as [|c e]; [congruence|]. intros _. cbn [no_slash IsAbs].
  intros H. apply andb_prop in H. destruct H as [H _].
  now apply negb_true_iff in H.
Qed.

Lemma IsAbs_render (rooted : bool) (l : list string) :
  Forall (fun e => e <> "") l -> Forall (fun e => no_slash e = true) l ->
  IsAbs (render rooted l) = rooted.
Proof.
  intros Hne Hns. unfold render. destruct rooted; [reflexivity|].
  destruct l as [|e l]; [reflexivity|].
  destruct (join_slash_head e l) as [rest ->].
  inversion Hne; inversion Hns; subst.
  rewrite IsAbs_app by assumption. now apply IsAbs_name.
Qed.

Lemma IsAbs_Clean (p : string) : IsAbs (Clean p) = IsAbs p.
Proof.
  destruct (Clean_render p) as (l & Hok & Hns & ->).
  apply IsAbs_render; [| exact Hns].
  exact (stack_ok_rev_nonempty _ _ Hok).
Qed.

(** ** Paths: directory and base name of a cleaned path *)

Lemma Split_no_slash (b : string) : no_slash b = true -> Split b = ("", b).
Proof.
  induction b as [|c b IH]; [reflexivity|].
  cbn [no_slash]. intros H. apply andb_prop in H. destruct H as [Hc Hb].
  cbn [Split]. rewrite (IH Hb). apply negb_true_iff in Hc. now rewrite Hc.
Qed.

Lemma Split_app (x b : string) :
  no_slash b = true -> Split (x +:+ "/" +:+ b) = (x +:+ "/", b).
Proof.
  intros Hb. induction x as [|c x IH].
  - rewrite append_nil_l. change ("/" +:+ b) with (String "/" b).
    cbn [Split]. now rewrite (Split_no_slash _ Hb).
  - rewrite append_cons. cbn [Split]. rewrite IH.
    destruct x; reflexivity.
Qed.

Lemma trim_slashes_app (x b : string) :
  b <> "" -> no_slash b = true -> trim_slashes (x +:+ b) = x +:+ b.
Proof.
  intros Hne Hb. induction x as [|c x IH].
  - rewrite append_nil_l. clear Hne. induction b as [|c b IHb]; [reflexivity|].
    cbn [no_slash] in Hb. apply andb_prop in Hb. destruct Hb as [Hc Hb].
    cbn [trim_slashes]. rewrite (IHb Hb). apply negb_true_iff in Hc.
    rewrite Hc. now destruct b.
  - rewrite append_cons. cbn [trim_slashes]. rewrite IH.
    destruct (x +:+ b) eqn:E; [| reflexivity].
    destruct x; [now rewrite append_nil_l in E | discriminate].
Qed.

Lemma Base_app (x b : string) :
  b <> "" -> no_slash b = true -> Base (x +:+ "/" +:+ b) = b.
Proof.
  intros Hne Hb. unfold Base.
  destruct (x +:+ "/" +:+ b) eqn:E.
  - destruct x; discriminate.
  - rewrite <- E. rewrite <- append_assoc.
    rewrite trim_slashes_app by assumption.
    rewrite append_assoc, Split_app by assumption.
    cbn [snd]. now destruct b.
Qed.

Lemma Base_no_slash (b : string) : b <> "" -> no_slash b = true -> Base b = b.
Proof.
  intros Hne Hb. unfold Base. destruct b as [|c b]; [congruence|].
  rewrite <- (append_nil_l (String c b)) at 1.
  rewrite trim_slashes_app by assumption.
  rewrite append_nil_l, Split_no_slash by assumption. reflexivity.
Qed.

Lemma render_snoc (rooted : bool) (l0 : list string) (b : string) :
  render rooted (l0 ++ [b]) = dirpart rooted l0 +:+ b.
Proof.
  unfold render, dirpart. destruct l0 as [|x l0].
  - destruct rooted; reflexivity.
  - rewrite join_slash_snoc by discriminate.
    destruct rooted; [now rewrite !append_assoc|].
    rewrite append_nil_l, !append_assoc. reflexivity.
Qed.

Lemma Split_dirpart (rooted : bool) (l0 : list string) (b : string) :
  no_slash b = true ->
  Split (dirpart rooted l0 +:+ b) = (dirpart rooted l0, b).
Proof.
  intros Hb. unfold dirpart. destruct l0 as [|x l0].
  - destruct rooted.
    + apply (Split_app "" b Hb).
    + rewrite append_nil_l. now apply Split_no_slash.
  - rewrite <- (append_assoc _ (join_slash (x :: l0)) "/"), (append_assoc _ "/" b).
    now apply Split_app.
Qed.

Lemma Base_dirpart (rooted : bool) (l0 : list string) (b : string) :
  b <> "" -> no_slash b = true -> Base (dirpart rooted l0 +:+ b) = b.
Proof.
  intros Hne Hb. unfold dirpart. destruct l0 as [|x l0].
  - destruct rooted.
    + now apply (Base_app "" b).
    + rewrite append_nil_l. now apply Base_no_slash.
  - rewrite <- (append_assoc _ (join_slash (x :: l0)) "/"), (append_assoc _ "/" b).
    now apply Base_app.
Qed.

(** Cleaning goes over the text of a cleaned path as over its elements. *)
Lemma fold_split_render (r' rooted : bool) (l : list string) :
  Forall (fun e => no_slash e = true) l ->
  forall acc,
    fold_left (clean_step r') (split_slash (render rooted l)) acc
    = fold_left (clean_step r') l acc.
Proof.
  intros Hns acc. unfold render. destruct rooted.
  - destruct l as [|x l]; [reflexivity|].
    change ("/" +:+ join_slash (x :: l)) with ("" +:+ "/" +:+ join_slash (x :: l)).
    rewrite split_slash_app, split_join_slash by (discriminate || assumption).
    reflexivity.
  - destruct l as [|x l]; [reflexivity|].
    now rewrite split_join_slash by (discriminate || assumption).
Qed.

Lemma clean_elems_idem (rooted : bool) (l : list string) :
  stack_ok rooted (rev l) = true -> fold_left (clean_step rooted) l [] = rev l.
Proof.
  intros H. rewrite <- (rev_involutive l) at 1.
  rewrite clean_replay; [apply app_nil_r | now rewrite app_nil_r].
Qed.

Lemma dirpart_cons (rooted : bool) (x : string) (l0 : list string) :
  dirpart rooted (x :: l0) = render rooted (x :: l0) +:+ "/".
Proof.
  unfold dirpart, render. destruct rooted; [now rewrite append_assoc|].
  now rewrite append_nil_l.
Qed.

Lemma Clean_dirpart (rooted : bool) (l0 : list string) :
  stack_ok rooted (rev l0) = true ->
  Forall (fun e => no_slash e = true) l0 ->
  Clean (dirpart rooted l0) = render rooted l0.
Proof.
  intros Hok Hns. destruct l0 as [|x l0].
  - destruct rooted; reflexivity.
  - assert (Hne : Forall (fun e => e <> "") (x :: l0))
      by exact (stack_ok_rev_nonempty _ _ Hok).
    rewrite dirpart_cons.
    assert (Habs : IsAbs (render rooted (x :: l0) +:+ "/") = rooted).
    { rewrite IsAbs_app by now apply render_nonempty.
      now apply IsAbs_render. }
    rewrite Clean_unfold by (apply append_nonempty_l; now apply render_nonempty).
    rewrite Habs. f_equal. unfold clean_elems.
    change ("/" : string) with ("/" +:+ "").
    rewrite split_slash_app, fold_left_app.
    rewrite (fold_split_render rooted rooted (x :: l0) Hns).
    rewrite clean_elems_idem by exact Hok.
    cbn [split_slash split_on fold_left]. rewrite clean_step_skip by auto.
    apply rev_involutive.
Qed.

Lemma snoc_ok (rooted : bool) (l0 : list string) (b : string) :
  stack_ok rooted (rev (l0 ++ [b])) = true ->
  stack_ok rooted (b :: rev l0) = true /\ stack_ok rooted (rev l0) = true
  /\ b <> "".
Proof.
  rewrite rev_app_distr. cbn [rev app]. intros H.
  split; [exact H|]. split; [exact (stack_ok_tail _ _ _ H)|].
  pose proof (stack_ok_nonempty _ _ H) as Hne. now inversion Hne.
Qed.

Lemma Dir_render_snoc (rooted : bool) (l0 : list string) (b : string) :
  stack_ok rooted (rev (l0 ++ [b])) = true ->
  Forall (fun e => no_slash e = true) (l0 ++ [b]) ->
  Dir (render rooted (l0 ++ [b])) = render rooted l0.
Proof.
  intros Hok Hns. apply snoc_ok in Hok. destruct Hok as (_ & Hok0 & _).
  apply Forall_app in Hns. destruct Hns as [Hns0 Hb]. inversion Hb; subst.
  unfold Dir. rewrite render_snoc, Split_dirpart by assumption.
  cbn [fst]. now apply Clean_dirpart.
Qed.

Lemma Base_render_snoc (rooted : bool) (l0 : list string) (b : string) :
  stack_ok rooted (rev (l0 ++ [b])) = true ->
  Forall (fun e => no_slash e = true) (l0 ++ [b]) ->
  Base (render rooted (l0 ++ [b])) = b.
Proof.
  intros Hok Hns. apply snoc_ok in Hok. destruct Hok as (_ & _ & Hne).
  apply Forall_app in Hns. destruct Hns as [_ Hb]. inversion Hb; subst.
  rewrite render_snoc. now apply Base_dirpart.
Qed.

Lemma nonempty_true (a : string) : a <> "" -> nonempty a = true.
Proof. intros H. unfold nonempty. apply String.eqb_neq in H. now rewrite H. Qed.

Lemma Join2 (a b : string) :
  a <> "" -> b <> "" -> Join [a; b] = Clean (a +:+ "/" +:+ b).
Proof.
  intros Ha Hb. unfold Join.
  rewrite !filter_cons, filter_nil.
  rewrite !decide_True by now apply nonempty_true. reflexivity.
Qed.

Lemma Join3 (a b c : string) :
  a <> "" -> b <> "" -> c <> "" ->
  Join [a; b; c] = Clean (a +:+ "/" +:+ b +:+ "/" +:+ c).
Proof.
  intros Ha Hb Hc. unfold Join.
  rewrite !filter_cons, filter_nil.
  rewrite !decide_True by now apply nonempty_true. reflexivity.
Qed.

Lemma Clean_nonempty (p : string) : Clean p <> "".
Proof.
  destruct (Clean_render p) as (l & Hok & _ & ->).
  apply render_nonempty. exact (stack_ok_rev_nonempty _ _ Hok).
Qed.

Lemma Dir_nonempty (p : string) : Dir p <> "".
Proof. apply Clean_nonempty. Qed.

Lemma Base_nonempty (p : string) : Base p <> "".
Proof.
  unfold Base. destruct p; [discriminate|].
  destruct (snd (Split (trim_slashes _))); discriminate.
Qed.

(** The directory and the base name of a cleaned path, put together again
    below some directory, name the same file as the path does there. *)
Lemma Clean_dir_base (rooted' : bool) (c : string) (l : list string) :
  stack_ok false (rev l) = true ->
  Forall (fun e => no_slash e = true) l ->
  c = render false l ->
  forall acc,
    fold_left (clean_step rooted') (split_slash (Dir c +:+ "/" +:+ Base c)) acc
    = fold_left (clean_step rooted') (split_slash c) acc.
Proof.
  intros Hok Hns -> acc. destruct l as [|x l] using rev_ind; [reflexivity|].
  clear IHl. rewrite Dir_render_snoc, Base_render_snoc by assumption.
  rewrite split_slash_app, fold_left_app.
  pose proof Hns as Hns'. apply Forall_app in Hns'. destruct Hns' as [Hns0 Hx].
  inversion Hx; subst.
  rewrite !fold_split_render by assumption.
  rewrite split_slash_no_slash by assumption.
  now rewrite fold_left_app.
Qed.

Lemma Join_dir_base (imp p : string) :
  imp <> "" -> IsAbs p = false ->
  Join [imp; Dir (Clean p); Base (Clean p)] = Join [imp; Clean p].
Proof.
  intros Himp Hrel.
  destruct (Clean_render p) as (l & Hok & Hns & Hc). rewrite Hrel in *.
  rewrite Join3 by (assumption || apply Dir_nonempty || apply Base_nonempty).
  rewrite Join2 by (assumption || apply Clean_nonempty).
  rewrite (Clean_unfold (imp +:+ "/" +:+ Dir (Clean p) +:+ "/" +:+ Base (Clean p)))
    by now apply append_nonempty_l.
  rewrite (Clean_unfold (imp +:+ "/" +:+ Clean p)) by now apply append_nonempty_l.
  rewrite !IsAbs_app by assumption. f_equal. unfold clean_elems. f_equal.
  rewrite !(split_slash_app imp), !fold_left_app.
  apply (Clean_dir_base _ _ l Hok Hns Hc).
Qed.


(** ** Paths: one path below another *)

Lemma Clean_render_id (rooted : bool) (l : list string) :
  stack_ok rooted (rev l) = true ->
  Forall (fun e => no_slash e = true) l ->
  Clean (render rooted l) = render rooted l.
Proof.
  intros Hok Hns.
  assert (Hne : Forall (fun e => e <> "") l)
    by exact (stack_ok_rev_nonempty _ _ Hok).
  rewrite Clean_unfold by now apply render_nonempty.
  rewrite IsAbs_render by assumption. f_equal. unfold clean_elems.
  rewrite fold_split_render, clean_elems_idem by assumption.
  apply rev_involutive.
Qed.

Lemma Clean_idem (p : string) : Clean (Clean p) = Clean p.
Proof.
  destruct (Clean_render p) as (l & Hok & Hns & ->).
  now apply Clean_render_id.
Qed.

Lemma append_eq_self (a x : string) : a +:+ x = a -> x = "".
Proof.
  induction a as [|c a IH]; [now rewrite append_nil_l|].
  rewrite append_cons. intros H. inversion H. auto.
Qed.

Lemma strip_common_app (xs ys : list string) :
  strip_common xs (xs ++ ys) = ([], ys, false).
Proof.
  induction xs as [|b xs IH]; [now destruct ys|].
  cbn [app strip_common]. now rewrite String.eqb_refl.
Qed.

Lemma rel_elems_app (a b : string) :
  rel_elems (a +:+ "/" +:+ b) = rel_elems a ++ rel_elems b.
Proof. unfold rel_elems. now rewrite split_slash_app, filter_app. Qed.

Lemma filter_nonempty_id (l : list string) :
  Forall (fun e => e <> "") l -> filter (fun e => nonempty e = true) l = l.
Proof.
  induction 1 as [|e l He _ IH]; [reflexivity|].
  rewrite filter_cons, decide_True by now apply nonempty_true.
  now rewrite IH.
Qed.

(** A cleaned relative path other than ["."] is the text of its elements,
    none of them empty. *)
Lemma relative_elems (sub0 : string) :
  IsAbs sub0 = false -> Clean sub0 <> "." ->
  exists l0 b,
    Clean sub0 = render false (l0 ++ [b])
    /\ stack_ok false (rev (l0 ++ [b])) = true
    /\ Forall (fun e => no_slash e = true) (l0 ++ [b])
    /\ rel_elems (Clean sub0) = l0 ++ [b]
    /\ join_slash (l0 ++ [b]) = Clean sub0.
Proof.
  intros Hrel Hdot. destruct (Clean_render sub0) as (l & Hok & Hns & Hc).
  rewrite Hrel in *. destruct l as [|b l0 _] using rev_ind; [contradiction|].
  exists l0, b. split; [exact Hc|]. split; [exact Hok|]. split; [exact Hns|].
  assert (Hj : render false (l0 ++ [b]) = join_slash (l0 ++ [b]))
    by (unfold render; now destruct (l0 ++ [b]) eqn:E; [destruct l0|]).
  rewrite Hc, Hj. split; [| reflexivity].
  unfold rel_elems. rewrite split_join_slash; [| now destruct l0 | exact Hns].
  apply filter_nonempty_id. exact (stack_ok_rev_nonempty _ _ Hok).
Qed.

Lemma IsAbs_below (dir sub : string) :
  dir <> "" -> IsAbs (below dir sub) = IsAbs dir.
Proof.
  intros Hd. unfold below. destruct (String.eqb_spec dir "/") as [->|_].
  - reflexivity.
  - now apply IsAbs_app.
Qed.

Lemma rel_elems_below (dir sub : string) :
  rel_elems (below dir sub) = rel_elems dir ++ rel_elems sub.
Proof.
  unfold below. destruct (String.eqb_spec dir "/") as [->|_].
  - apply (rel_elems_app "" sub).
  - apply rel_elems_app.
Qed.

Lemma below_neq (dir sub : string) : sub <> "" -> below dir sub <> dir.
Proof.
  intros Hs. unfold below. destruct (String.eqb_spec dir "/") as [->|_].
  - destruct sub; [congruence | discriminate].
  - intros H. apply append_eq_self in H. discriminate.
Qed.

(** A path below a directory is lexically contained in it, at the place
    that [filepath.Rel] computes. *)
Lemma lexically_within_below (dir sub0 : string) :
  IsAbs dir = true -> Clean dir = dir ->
  IsAbs sub0 = false -> Clean sub0 <> "." ->
  HasPrefix (Clean sub0) "../" = false ->
  Clean (below dir (Clean sub0)) = below dir (Clean sub0) ->
  lexically_within dir (below dir (Clean sub0)) = Some (Clean sub0).
Proof.
  intros Habs Hdir Hrel Hdot Hup Hclean.
  destruct (relative_elems sub0 Hrel Hdot) as (l0 & b & _ & _ & _ & Hel & Hj).
  assert (Hd : dir <> "") by (destruct dir; [discriminate | congruence]).
  unfold lexically_within, Rel. rewrite Hdir, Hclean.
  destruct (String.eqb_spec (below dir (Clean sub0)) dir) as [E|_];
    [now apply below_neq in E; [| apply Clean_nonempty]|].
  destruct (String.eqb_spec dir ".") as [->|_]; [discriminate|].
  rewrite IsAbs_below, Habs by exact Hd. cbn [Bool.eqb negb].
  rewrite rel_elems_below, strip_common_app, Hel, Hj.
  now rewrite nonempty_true, Hup by apply Clean_nonempty.
Qed.

Lemma Base_below (dir sub0 : string) :
  IsAbs sub0 = false -> Clean sub0 <> "." ->
  Base (below dir (Clean sub0)) = Base (Clean sub0).
Proof.
  intros Hrel Hdot.
  destruct (relative_elems sub0 Hrel Hdot) as (l0 & b & Hc & Hok & Hns & _ & _).
  rewrite Hc, Base_render_snoc by assumption.
  destruct (snoc_ok _ _ _ Hok) as (_ & _ & Hb).
  apply Forall_app in Hns. destruct Hns as [_ Hbs].
  inversion Hbs as [|? ? Hb' _]; subst.
  rewrite render_snoc. unfold below, dirpart.
  destruct (String.eqb dir "/"), l0 as [|x l0]; rewrite ?append_nil_l.
  - now apply (Base_app "" b).
  - rewrite !append_assoc, <- (append_assoc "/" (join_slash (x :: l0)) _).
    now apply Base_app.
  - now apply Base_app.
  - rewrite !append_assoc.
    rewrite <- (append_assoc "/" (join_slash (x :: l0)) _).
    rewrite <- (append_assoc dir _ _).
    now apply Base_app.
Qed.

Lemma abspath_cleaned (wd imp : string) :
  imp <> "" -> exists x, abspath wd imp = Clean x.
Proof.
  intros Hi. unfold abspath. destruct (IsAbs imp); [eauto|].
  unfold Join. rewrite !filter_cons, filter_nil.
  rewrite (decide_True _ _ (nonempty_true _ Hi)).
  destruct (decide (nonempty wd = true)); eauto.
Qed.

(** ** The path resolver *)

Section ResolverProperties.

Variable os_Stat : string -> StatResult.
Variable wd : string.

#[local] Abbreviation search := (searchImports os_Stat (Ok wd)).
#[local] Abbreviation find := (findProtoInImports os_Stat (Ok wd)).

Lemma Abs_Ok (imp : string) : Abs (Ok wd) imp = Ok (abspath wd imp).
Proof. unfold Abs, abspath. now destruct (IsAbs imp). Qed.

(** An import directory that misses the proto path is passed over. *)
Lemma searchImports_miss (p imp : string) (rest : list string) :
  entry_misses os_Stat wd p imp ->
  snd (search (imp :: rest) p) = snd (search rest p).
Proof.
  unfold entry_misses, lexically_within. intros H. cbn [searchImports].
  destruct (IsAbs p).
  - rewrite Abs_Ok.
    destruct (Rel (abspath wd (Clean imp)) p) as [relPath|];
      [| now destruct (search rest p)].
    destruct (nonempty relPath && negb (HasPrefix relPath "../"));
      [| now destruct (search rest p)].
    destruct H as [e ->]. now destruct (search rest p).
  - rewrite H. cbn [IsNotExist]. now destruct (search rest p).
Qed.


Lemma searchImports_skip (p : string) (pre rest : list string) :
  Forall (entry_misses os_Stat wd p) pre ->
  snd (search (pre ++ rest) p) = snd (search rest p).
Proof.
  induction 1 as [|imp pre Himp _ IH]; [reflexivity|].
  cbn [app]. now rewrite searchImports_miss.
Qed.

(** A relative proto path is matched on the first import directory below
    which something exists at that path. *)
Lemma searchImports_relative (p imp : string) (rest : list string) :
  IsAbs p = false ->
  IsNotExist (os_Stat (Join [Clean imp; p])) = false ->
  snd (search (imp :: rest) p) = Ok (Clean imp, Dir p).
Proof.
  intros Hrel Hex. cbn [searchImports]. rewrite Hrel, Hex. reflexivity.
Qed.

(** An absolute proto path is matched on the first import directory that
    lexically contains it and below which the file can be examined. *)
Lemma searchImports_absolute (p imp relPath : string) (rest : list string)
    (isDir : bool) :
  IsAbs p = true ->
  lexically_within (abspath wd (Clean imp)) p = Some relPath ->
  os_Stat (Join [Clean imp; Dir relPath; Base p]) = Stat_ok isDir ->
  snd (search (imp :: rest) p) = Ok (Clean imp, Dir relPath).
Proof.
  unfold lexically_within. intros Habs Hlex Hst. cbn [searchImports].
  rewrite Habs, Abs_Ok.
  destruct (Rel (abspath wd (Clean imp)) p) as [rp|]; [| discriminate].
  destruct (nonempty rp && negb (HasPrefix rp "../")); [| discriminate].
  inversion Hlex; subst rp. rewrite Hst. reflexivity.
Qed.

(** What [findProtoInImports] makes of the outcome of its loop. *)
Lemma findProtoInImports_matched (importPaths : list string) (r imp rel : string) :
  r <> "" -> rel <> "" ->
  snd (search importPaths (Clean r)) = Ok (imp, rel) ->
  os_Stat (Join [imp; rel; Base (Clean r)]) = Stat_ok false ->
  snd (find importPaths r) = Ok (imp, rel).
Proof.
  intros Hr Hrel Hs Hst. unfold findProtoInImports.
  apply String.eqb_neq in Hr. rewrite Hr.
  destruct (search importPaths (Clean r)) as [lg res]. cbn [snd] in Hs. subst res.
  apply String.eqb_neq in Hrel. rewrite Hrel. cbn [andb snd].
  now rewrite Hst.
Qed.


End ResolverProperties.

Lemma prefix_app (n b : string) : String.prefix n (n +:+ b) = true.
Proof.
  induction n as [|c n IH]; [now destruct b|].
  rewrite append_cons. cbn [String.prefix].
  now destruct (ascii_dec c c).
Qed.


(** C3, as amended. With [r] not empty and every import directory before
    [s] missing the cleaned [r]: if [r] is relative and a regular file
    exists at the cleaned [r] below the cleaned [s], the resolver returns
    the cleaned [s] and the directory of the cleaned [r]; if [r] is
    absolute and its cleaned form is the path [sub] below [s] made
    absolute, for a cleaned relative path [sub] that does not go up, and a
    regular file exists at [sub] below the cleaned [s], the resolver
    returns the cleaned [s] and the directory of [sub], that is of [r]
    relative to [s]. *)
Theorem findProtoInImports_first_match (os_Stat : string -> StatResult)
    (wd : string) (pre : list string) (s : string) (post : list string)
    (r : string) :
  r <> "" ->
  Forall (entry_misses os_Stat wd (Clean r)) pre ->
  (IsAbs r = false ->
   os_Stat (Join [Clean s; Clean r]) = Stat_ok false ->
   snd (findProtoInImports os_Stat (Ok wd) (pre ++ s :: post) r)
   = Ok (Clean s, Dir (Clean r)))
  /\ (IsAbs r = true ->
      forall sub0,
        IsAbs sub0 = false -> Clean sub0 <> "." ->
        HasPrefix (Clean sub0) "../" = false ->
        Clean r = below (abspath wd (Clean s)) (Clean sub0) ->
        os_Stat (Join [Clean s; Clean sub0]) = Stat_ok false ->
        snd (findProtoInImports os_Stat (Ok wd) (pre ++ s :: post) r)
        = Ok (Clean s, Dir (Clean sub0))).
Proof.
  intros Hr Hpre. split.
  - intros Hrel Hfile.
    apply findProtoInImports_matched; [exact Hr | apply Dir_nonempty | |].
    + rewrite searchImports_skip by exact Hpre.
      apply searchImports_relative; [now rewrite IsAbs_Clean|].
      now rewrite Hfile.
    + rewrite Join_dir_base by (apply Clean_nonempty || assumption).
      exact Hfile.
  - intros Habs sub0 Hrel Hdot Hup Hbelow Hfile.
    destruct (abspath_cleaned wd (Clean s) (Clean_nonempty s)) as [x Hx].
    assert (HA : Clean (abspath wd (Clean s)) = abspath wd (Clean s))
      by (rewrite Hx; apply Clean_idem).
    assert (Hne : abspath wd (Clean s) <> "")
      by (rewrite Hx; apply Clean_nonempty).
    assert (HabsA : IsAbs (abspath wd (Clean s)) = true)
      by (rewrite <- (IsAbs_below _ (Clean sub0) Hne), <- Hbelow, IsAbs_Clean;
          exact Habs).
    assert (Hlex : lexically_within (abspath wd (Clean s)) (Clean r)
                   = Some (Clean sub0)).
    { rewrite Hbelow. apply lexically_within_below; try assumption.
      rewrite <- Hbelow. apply Clean_idem. }
    assert (Hderived : os_Stat (Join [Clean s; Dir (Clean sub0); Base (Clean r)])
                       = Stat_ok false).
    { rewrite Hbelow, Base_below by assumption.
      rewrite Join_dir_base by (apply Clean_nonempty || assumption).
      exact Hfile. }
    apply findProtoInImports_matched; [exact Hr | apply Dir_nonempty | |].
    + rewrite searchImports_skip by exact Hpre.
      apply (searchImports_absolute _ _ _ _ _ _ false);
        [now rewrite IsAbs_Clean | exact Hlex | exact Hderived].
    + exact Hderived.
Qed.

Lemma findProtoInImports_first_match_witness :
  snd (findProtoInImports (sys_stat example_world) (Ok "/w")
         ["nosuch"; "./protos"; "/w"] "bar/bar.proto")
  = Ok ("protos", "bar")
  /\ snd (findProtoInImports (sys_stat example_world) (Ok "/w")
            ["nosuch"; "./protos"; "/w"] "/w/protos/bar/bar.proto")
     = Ok ("protos", "bar").
Proof.
  split.
  - apply (proj1 (findProtoInImports_first_match (sys_stat example_world) "/w"
                    ["nosuch"] "./protos" ["/w"] "bar/bar.proto"
                    ltac:(discriminate)
                    ltac:(repeat constructor)));
      reflexivity.
  - apply (proj2 (findProtoInImports_first_match (sys_stat example_world) "/w"
                    ["nosuch"] "./protos" ["/w"] "/w/protos/bar/bar.proto"
                    ltac:(discriminate)
                    ltac:(repeat constructor; exact I))
             eq_refl "bar/bar.proto");
      (reflexivity || discriminate).
Defined.

(** C3 as stated fails. An absolute reference below the import directory
    is resolved to its directory relative to the import directory, not to
    its own directory; an import directory is returned cleaned, not as
    given; and a directory found at the reference below an earlier import
    directory ends the search with an error, although a later import
    directory has the file. *)
Lemma findProtoInImports_first_match_counterexample :
  (sys_stat example_world "/w/protos/bar/bar.proto" = Stat_ok false
   /\ resolve example_world ["/w/protos"] "/w/protos/bar/bar.proto"
      = Ok ("/w/protos", "bar")
   /\ resolve example_world ["/w/protos"] "/w/protos/bar/bar.proto"
      <> Ok ("/w/protos", Dir "/w/protos/bar/bar.proto"))
  /\ (sys_stat example_world (Join ["./protos"; "bar/bar.proto"]) = Stat_ok false
      /\ resolve example_world ["./protos"] "bar/bar.proto"
         <> Ok ("./protos", Dir "bar/bar.proto"))
  /\ (sys_stat shadow_world (Join ["protos"; "x.proto"]) = Stat_ok false
      /\ resolve shadow_world ["other"; "protos"] "x.proto"
         = Err (err_is_directory "other/x.proto")).
Proof.
  split; [| split].
  - split; [reflexivity|]. split; [reflexivity|]. vm_compute. discriminate.
  - split; [reflexivity|]. vm_compute. discriminate.
  - split; reflexivity.
Qed.

(** C4 (the code on a reference that is the parent of an import
    directory). [filepath.Rel] gives [".."] for it, which does not start
    with ["../"], so the import directory is taken to contain the
    reference; with a file of the reference's base name in the import
    directory the resolver succeeds, although the reference is a directory
    above the import directory. *)
Theorem findProtoInImports_parent_reference_matches :
  Rel "/a/b" "/a" = Some ".."
  /\ lexically_within "/a/b" "/a" = Some ".."
  /\ sys_stat nested_world "/a" = Stat_ok true
  /\ resolve nested_world ["/a/b"] "/a" = Ok ("/a/b", ".").
Proof. repeat split. Qed.




(** ** Rewriting into the output directory *)

Lemma node_at_insert_eq (m : gmap string Node) (q : string) (n : Node) :
  q <> "/" -> node_at (<[q := n]> m) q = Some n.
Proof.
  intros Hq. unfold node_at. apply String.eqb_neq in Hq. rewrite Hq.
  apply lookup_insert_eq.
Qed.

Lemma node_at_insert_ne (m : gmap string Node) (q q' : string) (n : Node) :
  q <> q' -> node_at (<[q := n]> m) q' = node_at m q'.
Proof.
  intros Hq. unfold node_at. destruct (String.eqb q' "/"); [reflexivity|].
  now apply lookup_insert_ne.
Qed.

Lemma os_Mkdir_Ok (w w' : World) (p : string) :
  os_Mkdir w p = Ok w' ->
  cwd w' = cwd w
  /\ node_at (fs w) (abspath (cwd w) p) = None
  /\ fs w' = <[abspath (cwd w) p := Directory]> (fs w).
Proof.
  unfold os_Mkdir. destruct (String.eqb p ""); [discriminate|].
  destruct (parent_errno w p); [discriminate|].
  destruct (node_at (fs w) (abspath (cwd w) p)) eqn:Hn; [discriminate|].
  destruct (node_at (fs w) (Dir _)) as [[c|]|]; try discriminate.
  intros H. inversion H; subst. auto.
Qed.

Lemma grown_refl (w : World) : grown w w.
Proof. unfold grown. auto. Qed.

Lemma grown_trans (w1 w2 w3 : World) : grown w1 w2 -> grown w2 w3 -> grown w1 w3.
Proof.
  intros (Hc1 & Hk1 & Hf1) (Hc2 & Hk2 & Hf2). unfold grown.
  split; [congruence|]. split; eauto.
Qed.

Lemma os_Mkdir_grown (w w' : World) (p : string) :
  os_Mkdir w p = Ok w' -> grown w w'.
Proof.
  intros H. apply os_Mkdir_Ok in H. destruct H as (Hc & Hn & Hf).
  unfold grown. rewrite Hf. split; [exact Hc|]. split.
  - intros q n Hq. rewrite node_at_insert_ne; [exact Hq|]. intros <-. congruence.
  - intros q c Hq.
    destruct (String.eqb_spec (abspath (cwd w) p) q) as [<-|Hne].
    + unfold node_at in Hq. destruct (String.eqb _ "/"); [discriminate|].
      rewrite lookup_insert_eq in Hq. discriminate.
    + now rewrite node_at_insert_ne in Hq.
Qed.

(** [os.MkdirAll] leaves what exists as it is and makes nothing but
    directories. *)
Lemma MkdirAll_rec_grown (fuel : nat) :
  forall (w w' : World) (p : string),
    MkdirAll_rec fuel w p = Ok w' -> grown w w'.
Proof.
  induction fuel as [|fuel IH]; intros w w' p; cbn [MkdirAll_rec];
    (destruct (sys_stat w p) as [[|]|e];
     [intros H; inversion H; apply grown_refl | discriminate |]).
  - destruct (os_Mkdir w p) as [w2|e2] eqn:Hmk.
    + intros H. inversion H; subst. exact (os_Mkdir_grown _ _ _ Hmk).
    + discriminate.
  - assert (Hparent : forall w1,
              match mkdirall_parent p with
              | Some parent => MkdirAll_rec fuel w parent
              | None => Ok w
              end = Ok w1 -> grown w w1).
    { intros w1. destruct (mkdirall_parent p) as [parent|]; [apply IH|].
      intros H. inversion H. apply grown_refl. }
    destruct (match mkdirall_parent p with
              | Some parent => MkdirAll_rec fuel w parent
              | None => Ok w
              end) as [w1|e1]; [| discriminate].
    specialize (Hparent w1 eq_refl).
    destruct (os_Mkdir w1 p) as [w2|e2] eqn:Hmk.
    + intros H. inversion H; subst.
      exact (grown_trans _ _ _ Hparent (os_Mkdir_grown _ _ _ Hmk)).
    + destruct (sys_stat w1 p) as [[|]|e3]; try discriminate.
      intros H. inversion H; subst. exact Hparent.
Qed.

Lemma os_MkdirAll_Ok (w w' : World) (p : string) :
  os_MkdirAll w p = Ok w' ->
  cwd w' = cwd w
  /\ (forall q n, node_at (fs w) q = Some n -> node_at (fs w') q = Some n)
  /\ (forall q c, node_at (fs w') q = Some (File c) ->
                  node_at (fs w) q = Some (File c)).
Proof. unfold os_MkdirAll. apply MkdirAll_rec_grown. Qed.

Lemma length_substring (m : nat) (s : string) :
  String.length (String.substring 0 m s) <= m.
Proof.
  revert s. induction m as [|m IH]; intros s; destruct s as [|c s];
    cbn [String.substring String.length]; try lia.
  specialize (IH s). lia.
Qed.

Lemma length_Split (p : string) :
  String.length (fst (Split p)) <= String.length p.
Proof.
  induction p as [|c p IH]; [reflexivity|]. cbn [Split].
  destruct (Split p) as [d f]. cbn [fst String.length] in *.
  destruct d as [|x d].
  - destruct (is_slash c); cbn [fst String.length]; lia.
  - cbn [fst String.length] in *. lia.
Qed.

Lemma length_trim_slashes (p : string) :
  String.length (trim_slashes p) <= String.length p.
Proof.
  induction p as [|c p IH]; [reflexivity|]. cbn [trim_slashes String.length].
  destruct (trim_slashes p) as [|x t].
  - destruct (is_slash c); cbn [String.length]; lia.
  - cbn [String.length] in *. lia.
Qed.

(** The parent that [os.MkdirAll] goes on with is a shorter path. *)
Lemma mkdirall_parent_shorter (path parent : string) :
  mkdirall_parent path = Some parent ->
  String.length parent < String.length path.
Proof.
  unfold mkdirall_parent.
  pose proof (length_Split (trim_slashes path)) as H1.
  pose proof (length_trim_slashes path) as H2.
  set (d := fst (Split (trim_slashes path))) in *.
  destruct (Nat.ltb_spec 1 (String.length d)) as [Hlt|]; [| discriminate].
  intros H. inversion H; subst parent.
  pose proof (length_substring (String.length d - 1) d). lia.
Qed.

(** The recursion of [os.MkdirAll] never runs out of fuel: with as much
    fuel as the path is long, more changes nothing. *)
Lemma MkdirAll_rec_fuel (f1 : nat) :
  forall (f2 : nat) (w : World) (path : string),
    String.length path <= f1 -> String.length path <= f2 ->
    MkdirAll_rec f1 w path = MkdirAll_rec f2 w path.
Proof.
  induction f1 as [|f1 IH]; intros f2 w path H1 H2.
  - destruct path; [| cbn in H1; lia].
    destruct f2; reflexivity.
  - destruct f2 as [|f2].
    { destruct path; [reflexivity | cbn in H2; lia]. }
    cbn [MkdirAll_rec]. destruct (mkdirall_parent path) as [parent|] eqn:Hp;
      [| reflexivity].
    apply mkdirall_parent_shorter in Hp.
    now rewrite (IH f2 w parent) by lia.
Qed.

Lemma os_OpenFile_trunc_Ok (w w' : World) (p q : string) :
  os_OpenFile_trunc w p = Ok (w', q) ->
  q = abspath (cwd w) p /\ q <> "/" /\ cwd w' = cwd w
  /\ fs w' = <[q := File ""]> (fs w).
Proof.
  unfold os_OpenFile_trunc. destruct (String.eqb p ""); [discriminate|].
  destruct (parent_errno w p); [discriminate|].
  destruct (negb _); [discriminate|].
  destruct (node_at (fs w) (abspath (cwd w) p)) as [[c|]|] eqn:Hn;
    [| discriminate |];
    [| destruct (node_at (fs w) (Dir _)) as [[c|]|]; try discriminate];
    intros H; inversion H; subst; cbn [cwd fs];
    (split; [reflexivity|]); (split; [| split; reflexivity]);
    intros Hq; rewrite Hq in Hn; unfold node_at in Hn; cbn in Hn; discriminate.
Qed.

(** What is opened for writing is not a directory. *)
Lemma os_OpenFile_trunc_not_directory (w w' : World) (p q : string) :
  os_OpenFile_trunc w p = Ok (w', q) ->
  node_at (fs w) (abspath (cwd w) p) <> Some Directory.
Proof.
  unfold os_OpenFile_trunc. destruct (String.eqb p ""); [discriminate|].
  destruct (parent_errno w p); [discriminate|].
  destruct (negb _); [discriminate|].
  destruct (node_at (fs w) (abspath (cwd w) p)) as [[c|]|];
    [discriminate | discriminate 1 | discriminate].
Qed.

Lemma os_Open_Ok (w : World) (p h : string) :
  os_Open w p = Ok h -> h = abspath (cwd w) p.
Proof.
  unfold os_Open. destruct (sys_stat w p); [| discriminate]. congruence.
Qed.

(** A scanner that lets the rewriter succeed reads a file. *)
Lemma file_scanner_Ok (w : World) (name h newPackage text : string) :
  fixGoPackageProtoStream (file_scanner w name h) newPackage = Ok text ->
  exists source,
    node_at (fs w) h = Some (File source)
    /\ fixGoPackageProtoStream (NewScanner source) newPackage = Ok text.
Proof.
  unfold file_scanner. destruct (node_at (fs w) h) as [[c|]|]; intros H.
  - eauto.
  - apply fixGoPackageProtoStream_Ok_inv in H. cbn in H.
    destruct H as (_ & H & _). discriminate.
  - apply fixGoPackageProtoStream_Ok_inv in H. cbn in H.
    destruct H as (_ & H & _). discriminate.
Qed.

(** [fixGoPackage] succeeds only on an input file other than the output
    file, and then the output file holds the rewritten input. *)
Lemma fixGoPackage_Ok (w w' : World) (protoPath newPackage outPath : string) :
  fixGoPackage w protoPath newPackage outPath = Ok w' ->
  exists source text,
    node_at (fs w) (abspath (cwd w) protoPath) = Some (File source)
    /\ fixGoPackageProtoStream (NewScanner source) newPackage = Ok text
    /\ node_at (fs w') (abspath (cwd w) outPath) = Some (File text)
    /\ cwd w' = cwd w.
Proof.
  unfold fixGoPackage.
  destruct (os_Open w protoPath) as [hin|e] eqn:Hin; [| discriminate].
  apply os_Open_Ok in Hin. subst hin.
  destruct (os_OpenFile_trunc w outPath) as [[w1 hout]|e] eqn:Hout; [| discriminate].
  apply os_OpenFile_trunc_Ok in Hout. destruct Hout as (-> & Hroot & Hc1 & Hf1).
  destruct (fixGoPackageProtoStream _ newPackage) as [text|e] eqn:Hrw; [| discriminate].
  intros H. inversion H; subst w'. clear H.
  apply file_scanner_Ok in Hrw. destruct Hrw as (source & Hsrc & Hrw).
  rewrite Hf1 in Hsrc.
  destruct (String.eqb_spec (abspath (cwd w) outPath) (abspath (cwd w) protoPath))
    as [Heq|Hne].
  - rewrite <- Heq, node_at_insert_eq in Hsrc by exact Hroot.
    inversion Hsrc; subst source.
    apply fixGoPackageProtoStream_Ok_inv in Hrw.
    destruct Hrw as (_ & _ & Hrw). discriminate.
  - rewrite node_at_insert_ne in Hsrc by exact Hne.
    exists source, text. unfold write_file. cbn [fs cwd].
    split; [exact Hsrc|]. split; [exact Hrw|].
    split; [now apply node_at_insert_eq | exact Hc1].
Qed.

(** One requested file: it is resolved, its source is rewritten with the
    package made of the module name and the resolved relative path, and
    the copy lies at that relative path below the output directory. *)
Lemma fixGoPackages_one_Ok (w w' : World) (imports : list string)
    (output proto outProto : string) :
  fixGoPackages_one w imports output proto = Ok (w', outProto) ->
  exists importDir rel source text,
    resolve w imports proto = Ok (importDir, rel)
    /\ outProto = Join [Join [output; rel]; Base proto]
    /\ node_at (fs w) (abspath (cwd w) (Join [importDir; rel; Base proto]))
       = Some (File source)
    /\ fixGoPackageProtoStream (NewScanner source)
         (Join [GENERATED_MODULE_NAME; rel]) = Ok text
    /\ node_at (fs w') (abspath (cwd w') outProto) = Some (File text)
    /\ cwd w' = cwd w.
Proof.
  unfold fixGoPackages_one, resolve.
  destruct (snd (findProtoInImports _ _ imports proto)) as [[importDir rel]|e];
    [| discriminate].
  destruct (os_MkdirAll w _) as [w1|e] eqn:Hmk; [| discriminate].
  apply os_MkdirAll_Ok in Hmk. destruct Hmk as (Hc1 & _ & Hfiles).
  destruct (fixGoPackage w1 _ _ _) as [w2|e] eqn:Hfix; [| discriminate].
  intros H. inversion H; subst w' outProto. clear H.
  apply fixGoPackage_Ok in Hfix.
  destruct Hfix as (source & text & Hsrc & Hrw & Hout & Hc2).
  exists importDir, rel, source, text.
  split; [reflexivity|]. split; [reflexivity|].
  rewrite Hc2. rewrite Hc1 in *.
  split; [now apply Hfiles|]. auto.
Qed.



(** * Further properties *)

(** ** The rewriter: when it succeeds, and what it does to lines *)




(** Lines that are neither [option go_package] nor [syntax] lines are
    copied. *)
Lemma rewriteLines_copy (newPackage : string) (pre rest : list string) :
  Forall (fun l => match_go_package l = false) pre ->
  Forall (fun l => match_syntax l = false) pre ->
  forall found ow,
    rewriteLines newPackage (pre ++ rest) found ow
    = rewriteLines newPackage rest found (ow +:+ unlines pre).
Proof.
  induction pre as [|l pre IH]; intros Hg Hs found ow.
  - cbn [app unlines]. now rewrite append_nil_r.
  - inversion Hg as [|? ? Hg1 Hg2]; inversion Hs as [|? ? Hs1 Hs2]; subst.
    cbn [app rewriteLines unlines]. rewrite Hg1, Hs1, IH by assumption.
    now rewrite !append_assoc.
Qed.

Lemma kept_id (lines : list string) :
  Forall (fun l => match_go_package l = false) lines -> kept lines = lines.
Proof.
  induction 1 as [|l lines Hl _ IH]; [reflexivity|].
  now rewrite kept_cons_keep, IH.
Qed.

Lemma count_syntax_0 (lines : list string) :
  Forall (fun l => match_syntax l = false) lines -> count_syntax lines = 0.
Proof.
  induction 1 as [|l lines Hl _ IH]; [reflexivity|].
  now rewrite count_syntax_cons, Hl, IH.
Qed.

(** X2. Running the rewriter on its own output replaces the option line it
    wrote and adds one more empty line after it, when the lines read back
    as they were written and fit the buffer of the scanner, the option line
    that was written included. *)
Theorem fixGoPackageProtoStream_rerun (s : Scanner) (p q out : string) :
  Forall (fun l => plain_line l = true) (sc_lines s) ->
  Forall (fun l => too_long l = false) (sc_lines s) ->
  no_lf p = true ->
  too_long ("option go_package = " +:+ DQ +:+ p +:+ DQ +:+ ";") = false ->
  q <> "" ->
  fixGoPackageProtoStream s p = Ok out ->
  exists pre syn post,
    kept (sc_lines s) = pre ++ syn :: post
    /\ out = unlines (pre ++ syn :: go_package_line p :: "" :: post)
    /\ fixGoPackageProtoStream (NewScanner out) q
       = Ok (unlines (pre ++ syn :: go_package_line q :: "" :: "" :: post)).
Proof.
  intros Hplain Hfit Hp Hpfit Hq H.
  destruct (fixGoPackageProtoStream_shape _ _ _ H)
    as (pre & syn & post & Hk & Hsyn & HF & Hout).
  exists pre, syn, post. split; [exact Hk|]. split; [exact Hout|].
  pose proof (kept_no_go_package (sc_lines s)) as Hg. rewrite Hk in Hg.
  pose proof (Forall_kept _ _ Hplain) as Hpl. rewrite Hk in Hpl.
  pose proof (Forall_kept _ _ Hfit) as Hft. rewrite Hk in Hft.
  assert (Hlines : Forall (fun l => plain_line l = true)
                     (pre ++ syn :: go_package_line p :: "" :: post)).
  { apply Forall_app in Hpl. destruct Hpl as [Hpl1 Hpl2].
    inversion Hpl2; subst. apply Forall_app. split; [assumption|].
    constructor; [assumption|].
    constructor; [now apply plain_go_package_line|].
    constructor; [reflexivity | assumption]. }
  assert (Hread : NewScanner out
                  = {| sc_lines := pre ++ syn :: go_package_line p :: "" :: post;
                       sc_err := None |}).
  { rewrite Hout. rewrite NewScanner_fits.
    - now rewrite ScanLines_unlines.
    - rewrite pieces_unlines by now apply plain_no_lf.
      apply Forall_app in Hft. destruct Hft as [Hft1 Hft2].
      inversion Hft2; subst. apply Forall_app. split; [assumption|].
      constructor; [assumption|].
      constructor; [exact Hpfit|].
      constructor; [reflexivity | assumption]. }
  apply Forall_app in Hg, Hpl, HF.
  destruct Hg as [Hg1 Hg2], Hpl as [Hpl1 Hpl2], HF as [HF1 HF2].
  inversion Hg2 as [|? ? Hgs Hg3]; inversion Hpl2 as [|? ? Hpls Hpl3]; subst.
  unfold fixGoPackageProtoStream. apply String.eqb_neq in Hq. rewrite Hq.
  rewrite Hread. cbn [sc_lines sc_err].
  rewrite rewriteLines_copy by assumption. cbn [rewriteLines].
  rewrite Hgs, Hsyn, go_package_line_matches.
  change (match_go_package "") with false.
  change (match_syntax "") with false. cbn iota.
  rewrite rewriteLines_no_syntax by now apply count_syntax_0.
  rewrite kept_id by assumption.
  f_equal. rewrite append_nil_l, unlines_app. cbn [unlines].
  now rewrite !append_assoc.
Qed.

Lemma fixGoPackageProtoStream_rerun_witness :
  exists pre syn post,
    kept (sc_lines (NewScanner example_proto)) = pre ++ syn :: post
    /\ example_rewritten "gripmock/generated/a"
       = unlines (pre ++ syn :: go_package_line "gripmock/generated/a" :: "" :: post)
    /\ fixGoPackageProtoStream (NewScanner (example_rewritten "gripmock/generated/a"))
         "gripmock/generated/b"
       = Ok (unlines (pre ++ syn :: go_package_line "gripmock/generated/b"
                        :: "" :: "" :: post)).
Proof.
  apply (fixGoPackageProtoStream_rerun (NewScanner example_proto)
           "gripmock/generated/a" "gripmock/generated/b"
           (example_rewritten "gripmock/generated/a")).
  - vm_compute. repeat constructor.
  - vm_compute. repeat constructor.
  - reflexivity.
  - reflexivity.
  - discriminate.
  - reflexivity.
Defined.

(** X3. The rewriter reads its input by lines: a text with CRLF line ends
    is rewritten as the same lines ended by line feeds are, when every line
    fits the buffer of the scanner together with its carriage return; and
    a text whose last line has no line feed is rewritten as the text with
    that line feed is. *)
Theorem fixGoPackageProtoStream_line_ends (ls : list string) (last newPackage : string) :
  Forall (fun l => plain_line l = true) ls ->
  plain_line last = true -> last <> "" ->
  (Forall (fun l => too_long (l +:+ CR) = false) ls ->
   fixGoPackageProtoStream (NewScanner (unlines_crlf ls)) newPackage
   = fixGoPackageProtoStream (NewScanner (unlines ls)) newPackage)
  /\ fixGoPackageProtoStream (NewScanner (unlines ls +:+ last)) newPackage
     = fixGoPackageProtoStream (NewScanner (unlines (ls ++ [last]))) newPackage.
Proof.
  intros Hls Hlast Hne. split.
  - intros Hfit.
    assert (Hfit' : Forall (fun l => too_long l = false) ls).
    { eapply Forall_impl; [exact Hfit|]. intros l. apply too_long_shorter.
      rewrite length_append. lia. }
    rewrite (NewScanner_fits (unlines_crlf ls)), (NewScanner_fits (unlines ls)).
    + rewrite ScanLines_crlf by now apply plain_no_lf.
      now rewrite ScanLines_unlines.
    + now rewrite pieces_unlines by now apply plain_no_lf.
    + rewrite unlines_crlf_unlines, pieces_unlines.
      * now apply Forall_map.
      * apply Forall_map. eapply Forall_impl; [exact (plain_no_lf _ Hls)|].
        intros l Hl. cbn. now rewrite no_lf_app, Hl.
  - assert (Hpieces : drop_last_empty (split_lf (unlines ls +:+ last))
                      = drop_last_empty (split_lf (unlines (ls ++ [last])))).
    { rewrite pieces_unlines
        by (apply plain_no_lf, Forall_app; split; [assumption | now constructor]).
      rewrite split_lf_unlines by now apply plain_no_lf.
      rewrite split_lf_no_lf
        by (unfold plain_line in Hlast; apply andb_prop in Hlast; tauto).
      rewrite drop_last_empty_snoc. apply String.eqb_neq in Hne. now rewrite Hne. }
    unfold NewScanner. now rewrite Hpieces.
Qed.

Lemma fixGoPackageProtoStream_line_ends_witness :
  (Forall (fun l => too_long (l +:+ CR) = false) [syntax_proto3; "package simple;"] ->
   fixGoPackageProtoStream
     (NewScanner (unlines_crlf [syntax_proto3; "package simple;"]))
     "gripmock/generated"
   = fixGoPackageProtoStream
       (NewScanner (unlines [syntax_proto3; "package simple;"])) "gripmock/generated")
  /\ fixGoPackageProtoStream
       (NewScanner (unlines [syntax_proto3; "package simple;"] +:+ "// end"))
       "gripmock/generated"
     = fixGoPackageProtoStream
         (NewScanner (unlines ([syntax_proto3; "package simple;"] ++ ["// end"])))
         "gripmock/generated".
Proof.
  apply (fixGoPackageProtoStream_line_ends [syntax_proto3; "package simple;"]
           "// end" "gripmock/generated").
  - repeat constructor.
  - reflexivity.
  - discriminate.
Defined.

(** ** Paths: joining *)

Lemma fold_split_Clean (a : string) :
  a <> "" ->
  fold_left (clean_step (IsAbs a)) (split_slash (Clean a)) []
  = fold_left (clean_step (IsAbs a)) (split_slash a) [].
Proof.
  intros Ha. rewrite (Clean_unfold _ Ha). unfold clean_elems.
  assert (Hok : stack_ok (IsAbs a)
                  (fold_left (clean_step (IsAbs a)) (split_slash a) []) = true)
    by now apply clean_fold_ok.
  assert (Hns : Forall (fun e => no_slash e = true)
                  (rev (fold_left (clean_step (IsAbs a)) (split_slash a) []))).
  { apply Forall_rev. apply clean_fold_Forall; [apply split_slash_elems | constructor]. }
  rewrite fold_split_render by exact Hns.
  rewrite clean_elems_idem by now rewrite rev_involutive.
  apply rev_involutive.
Qed.

(** Joining to a cleaned directory is joining to the directory. *)
Lemma Clean_join_l (a b : string) :
  a <> "" -> Clean (Clean a +:+ "/" +:+ b) = Clean (a +:+ "/" +:+ b).
Proof.
  intros Ha.
  rewrite (Clean_unfold (Clean a +:+ "/" +:+ b))
    by (apply append_nonempty_l, Clean_nonempty).
  rewrite (Clean_unfold (a +:+ "/" +:+ b)) by now apply append_nonempty_l.
  rewrite !IsAbs_app by (assumption || apply Clean_nonempty).
  rewrite IsAbs_Clean. f_equal. unfold clean_elems. f_equal.
  rewrite !split_slash_app, !fold_left_app. now rewrite fold_split_Clean.
Qed.

(** The elements that [path.Clean] leaves of a relative path act on a
    path they are appended to as the elements of the path do. *)
Lemma fold_clean_relative (rooted : bool) (l : list string) :
  forall acc,
    fold_left (clean_step rooted) (rev (fold_left (clean_step false) l [])) acc
    = fold_left (clean_step rooted) l acc.
Proof.
  induction l as [|c l IH] using rev_ind; intros acc; [reflexivity|].
  rewrite !fold_left_app. cbn [fold_left]. rewrite <- IH.
  assert (Hok : stack_ok false (fold_left (clean_step false) l []) = true)
    by now apply clean_fold_ok.
  set (S := fold_left (clean_step false) l []) in *.
  set (X := fold_left (clean_step rooted) (rev S) acc).
  unfold clean_step at 2.
  destruct (String.eqb_spec c "") as [->|H0]; [reflexivity|].
  destruct (String.eqb_spec c ".") as [->|H1]; [reflexivity|]. cbn [orb].
  destruct (String.eqb_spec c "..") as [->|H2].
  - destruct S as [|top rest] eqn:ES; [reflexivity|].
    destruct (String.eqb_spec top "..") as [->|Htop].
    + cbn [rev]. rewrite fold_left_app. reflexivity.
    + subst X. cbn [rev]. rewrite fold_left_app. cbn [fold_left].
      cbn [stack_ok] in Hok. apply andb_prop in Hok. destruct Hok as [Hn _].
      unfold is_dotdot in Hn. apply String.eqb_neq in Htop. rewrite Htop in Hn.
      cbn [andb orb] in Hn. rewrite orb_false_r in Hn.
      unfold is_name in Hn. apply andb_prop in Hn. destruct Hn as [Hn _].
      apply andb_prop in Hn. destruct Hn as [Hn1 Hn2].
      apply negb_true_iff in Hn1, Hn2.
      set (Y := fold_left (clean_step rooted) (rev rest) acc).
      assert (E1 : clean_step rooted Y top = top :: Y)
        by (unfold clean_step; now rewrite Hn1, Hn2, Htop).
      rewrite E1. unfold clean_step. cbn [String.eqb Ascii.eqb orb].
      now rewrite Htop.
  - cbn [rev]. rewrite fold_left_app. reflexivity.
Qed.

Lemma fold_split_Clean_relative (rooted : bool) (b : string) (acc : list string) :
  IsAbs b = false ->
  fold_left (clean_step rooted) (split_slash (Clean b)) acc
  = fold_left (clean_step rooted) (split_slash b) acc.
Proof.
  intros Hb. destruct (String.eqb_spec b "") as [->|Hne]; [reflexivity|].
  rewrite <- (fold_clean_relative rooted (split_slash b)).
  rewrite (Clean_unfold _ Hne), Hb. unfold clean_elems.
  assert (Hns : Forall (fun e => no_slash e = true)
                  (rev (fold_left (clean_step false) (split_slash b) []))).
  { apply Forall_rev. apply clean_fold_Forall; [apply split_slash_elems | constructor]. }
  now rewrite fold_split_render.
Qed.

(** Joining a cleaned relative path is joining the path. *)
Lemma Clean_join_r (a b : string) :
  a <> "" -> IsAbs b = false ->
  Clean (a +:+ "/" +:+ Clean b) = Clean (a +:+ "/" +:+ b).
Proof.
  intros Ha Hb.
  rewrite !(Clean_unfold (a +:+ _)) by now apply append_nonempty_l.
  rewrite !IsAbs_app by assumption. f_equal. unfold clean_elems. f_equal.
  rewrite !split_slash_app, !fold_left_app.
  now apply fold_split_Clean_relative.
Qed.

Lemma Join_dot (c : string) : IsAbs c = false -> Join ["."; c] = Clean c.
Proof.
  intros Hc. destruct (String.eqb_spec c "") as [->|Hne]; [reflexivity|].
  rewrite Join2 by (discriminate || assumption).
  rewrite Clean_unfold by discriminate.
  rewrite (Clean_unfold c Hne). rewrite Hc. cbn [IsAbs is_slash Ascii.eqb].
  rewrite (split_slash_app "." c). reflexivity.
Qed.

Lemma IsAbs_Split (p : string) : IsAbs p = false -> IsAbs (fst (Split p)) = false.
Proof.
  destruct p as [|c p]; [reflexivity|]. cbn [IsAbs Split]. intros Hc.
  destruct (Split p) as [d f]. destruct d; [now rewrite Hc | exact Hc].
Qed.

Lemma IsAbs_Dir (p : string) : IsAbs p = false -> IsAbs (Dir p) = false.
Proof. intros H. unfold Dir. rewrite IsAbs_Clean. now apply IsAbs_Split. Qed.

Lemma strip_common_Forall (P : string -> Prop) (bs ts : list string) :
  Forall P bs -> Forall P ts ->
  Forall P (fst (fst (strip_common bs ts)))
  /\ Forall P (snd (fst (strip_common bs ts))).
Proof.
  revert ts. induction bs as [|b bs IH]; intros ts Hb Ht; [now split|].
  destruct ts as [|t ts]; [now split|]. cbn [strip_common].
  destruct (String.eqb b t); [| now split].
  inversion Hb; inversion Ht; subst. now apply IH.
Qed.

Lemma rel_elems_names (p : string) :
  Forall (fun e => e <> "" /\ no_slash e = true) (rel_elems p).
Proof.
  unfold rel_elems. apply Forall_forall. intros e He.
  apply list_elem_of_filter in He. destruct He as [Hne He]. split.
  - intros ->. discriminate.
  - pose proof (split_slash_elems p) as H. rewrite Forall_forall in H. auto.
Qed.

Lemma IsAbs_join_slash (l : list string) :
  Forall (fun e => e <> "" /\ no_slash e = true) l -> IsAbs (join_slash l) = false.
Proof.
  destruct l as [|e l]; [reflexivity|]. intros H. inversion H as [|? ? [He Hs] _]; subst.
  destruct (join_slash_head e l) as [rest ->].
  rewrite IsAbs_app by exact He. now apply IsAbs_name.
Qed.

(** [filepath.Rel] returns a relative path. *)
Lemma Rel_relative (basepath targpath relPath : string) :
  Rel basepath targpath = Some relPath -> IsAbs relPath = false.
Proof.
  unfold Rel. destruct (String.eqb (Clean targpath) (Clean basepath)).
  { intros H. now inversion H. }
  set (base := if String.eqb (Clean basepath) "." then "" else Clean basepath).
  destruct (negb _); [discriminate|].
  pose proof (strip_common_Forall _ _ _ (rel_elems_names base)
                (rel_elems_names (Clean targpath))) as [Hbs Hts].
  destruct (strip_common _ _) as [[bs ts] broke]. cbn [fst snd] in *.
  destruct bs as [|b bs].
  - intros H. inversion H; subst. now apply IsAbs_join_slash.
  - destruct (broke && String.eqb b ".."); [discriminate|].
    intros H. inversion H; subst. apply IsAbs_join_slash.
    change (".." :: map (fun _ : string => "..") bs ++ ts)
      with (map (fun _ : string => "..") (b :: bs) ++ ts).
    apply Forall_app. split; [| exact Hts].
    apply Forall_map. eapply Forall_impl; [exact Hbs|].
    intros x _. cbn. split; [discriminate | reflexivity].
Qed.

(** [path.Join] of three elements, by twos. *)
Lemma Join_assoc_l (a b c : string) :
  a <> "" -> b <> "" -> c <> "" -> Join [Join [a; b]; c] = Join [a; b; c].
Proof.
  intros Ha Hb Hc. rewrite (Join2 a b) by assumption.
  rewrite Join2 by (apply Clean_nonempty || assumption).
  rewrite Clean_join_l by now apply append_nonempty_l.
  rewrite Join3 by assumption. now rewrite !append_assoc.
Qed.

Lemma Join_assoc_r (a b c : string) :
  a <> "" -> b <> "" -> c <> "" -> IsAbs b = false ->
  Join [a; Join [b; c]] = Join [a; b; c].
Proof.
  intros Ha Hb Hc Hrel. rewrite (Join2 b c) by assumption.
  rewrite Join2 by (apply Clean_nonempty || assumption).
  rewrite Clean_join_r by (assumption || now rewrite IsAbs_app).
  now rewrite Join3 by assumption.
Qed.

(** ** Paths: names below a directory *)

Lemma clean_step_name (rooted : bool) (st : list string) (c : string) :
  is_name c = true -> clean_step rooted st c = c :: st.
Proof.
  unfold is_name, clean_step. intros H.
  apply andb_prop in H. destruct H as [H H2].
  apply andb_prop in H. destruct H as [H0 H1].
  apply negb_true_iff in H0, H1, H2. now rewrite H0, H1, H2.
Qed.

Lemma fold_push_names (rooted : bool) (ls : list string) :
  Forall (fun e => is_name e = true) ls ->
  forall st, fold_left (clean_step rooted) ls st = rev ls ++ st.
Proof.
  induction 1 as [|c ls Hc _ IH]; intros st; [reflexivity|].
  cbn [fold_left rev]. rewrite clean_step_name by exact Hc.
  rewrite IH, <- app_assoc. reflexivity.
Qed.

(** In a cleaned relative path that does not start with [".."] every
    element is a name. *)
Lemma stack_names (st : list string) (x : string) :
  stack_ok false st = true -> last st = Some x -> is_name x = true ->
  Forall (fun e => is_name e = true) st.
Proof.
  induction st as [|y rest IH]; intros Hok Hlast Hx; [constructor|].
  destruct rest as [|z rest'].
  - cbn in Hlast. inversion Hlast; subst. now constructor.
  - assert (Hrest : Forall (fun e => is_name e = true) (z :: rest')).
    { apply IH; [exact (stack_ok_tail _ _ _ Hok) | exact Hlast | exact Hx]. }
    constructor; [| exact Hrest].
    cbn [stack_ok] in Hok. apply andb_prop in Hok. destruct Hok as [Hy _].
    apply orb_prop in Hy. destruct Hy as [Hy|Hy]; [exact Hy|].
    apply andb_prop in Hy. destruct Hy as [_ Hd]. cbn [forallb] in Hd.
    apply andb_prop in Hd. destruct Hd as [Hz _].
    inversion Hrest as [|? ? Hzn _]; subst.
    unfold is_dotdot in Hz. apply String.eqb_eq in Hz. subst z. discriminate.
Qed.

Lemma join_slash_app (a b : list string) :
  a <> [] -> b <> [] ->
  join_slash (a ++ b) = join_slash a +:+ "/" +:+ join_slash b.
Proof.
  intros Ha Hb. induction a as [|x a IH]; [congruence|].
  destruct a as [|y a].
  - destruct b as [|z b]; [congruence|]. reflexivity.
  - change ((x :: y :: a) ++ b) with (x :: (y :: a) ++ b).
    change ((y :: a) ++ b) with (y :: a ++ b) at 1.
    rewrite join_slash_cons.
    change (y :: a ++ b) with ((y :: a) ++ b).
    rewrite IH by discriminate. rewrite join_slash_cons.
    now rewrite !append_assoc.
Qed.

(** Joining a directory with a cleaned relative path that does not go up
    gives the path below the cleaned directory. *)
Lemma Join_below (output sub : string) :
  output <> "" -> IsAbs sub = false -> Clean sub = sub ->
  sub <> "." -> sub <> ".." -> HasPrefix sub "../" = false ->
  Join [output; sub]
  = if String.eqb (Clean output) "." then sub else below (Clean output) sub.
Proof.
  intros Hout Hrel Hclean Hdot Hdd Hup.
  destruct (Clean_render sub) as (ls & Hok & Hns & Hc).
  rewrite Hrel, Hclean in *.
  assert (Hsub : sub <> "") by (rewrite Hc; apply render_nonempty;
                                exact (stack_ok_rev_nonempty _ _ Hok)).
  destruct ls as [|x ls']; [now cbn in Hc|].
  assert (Hj : sub = join_slash (x :: ls')) by exact Hc.
  assert (Hx : is_name x = true).
  { assert (Hxd : x <> "..").
    { intros ->. destruct ls' as [|y ls'']; [now cbn in Hj|].
      rewrite join_slash_cons in Hj. rewrite Hj in Hup.
      rewrite <- (append_assoc ".." "/") in Hup.
      change (".." +:+ "/") with "../" in Hup.
      unfold HasPrefix in Hup. rewrite prefix_app in Hup. discriminate. }
    assert (Hokx : stack_ok false [x] = true).
    { apply (stack_ok_app_r false (rev ls') [x]). exact Hok. }
    cbn [stack_ok] in Hokx. rewrite andb_true_r in Hokx.
    apply orb_prop in Hokx. destruct Hokx as [?|Hd]; [assumption|].
    apply andb_prop in Hd. destruct Hd as [Hd _].
    apply andb_prop in Hd. destruct Hd as [Hd _].
    unfold is_dotdot in Hd. apply String.eqb_eq in Hd. contradiction. }
  assert (Hnames : Forall (fun e => is_name e = true) (x :: ls')).
  { rewrite <- (rev_involutive (x :: ls')). apply Forall_rev.
    apply (stack_names _ x); [exact Hok | | exact Hx].
    cbn [rev]. apply last_snoc. }
  rewrite Join2 by assumption.
  rewrite (Clean_unfold (output +:+ "/" +:+ sub)) by now apply append_nonempty_l.
  rewrite IsAbs_app by exact Hout. unfold clean_elems.
  rewrite split_slash_app, fold_left_app.
  rewrite Hc at 1. rewrite fold_split_render by exact Hns.
  rewrite fold_push_names by exact Hnames.
  rewrite rev_app_distr, rev_involutive.
  rewrite (Clean_unfold _ Hout). unfold clean_elems.
  set (lo := rev (fold_left (clean_step (IsAbs output)) (split_slash output) [])).
  assert (Hlo : Forall (fun e => e <> "") lo).
  { apply (stack_ok_rev_nonempty (IsAbs output)). unfold lo.
    rewrite rev_involutive. now apply clean_fold_ok. }
  assert (Hlodot : lo <> ["."]).
  { intros E.
    assert (Hok' : stack_ok (IsAbs output) (rev lo) = true)
      by (unfold lo; rewrite rev_involutive; now apply clean_fold_ok).
    rewrite E in Hok'. cbn in Hok'. destruct (IsAbs output); discriminate. }
  assert (Hjlo : lo <> [] -> join_slash lo <> "").
  { intros Hne. destruct lo as [|o lo']; [congruence|].
    destruct (join_slash_head o lo') as [r ->].
    apply append_nonempty_l. exact (Forall_inv Hlo). }
  assert (Hnslo : Forall (fun e => no_slash e = true) lo).
  { unfold lo. apply Forall_rev.
    apply clean_fold_Forall; [apply split_slash_elems | constructor]. }
  unfold render. destruct (IsAbs output).
  - change (("/" +:+ join_slash lo =? ".")%string) with false. cbv iota.
    destruct lo as [|o lo'].
    + change ([] ++ x :: ls') with (x :: ls').
      change ("/" +:+ join_slash []) with "/". unfold below.
      cbn [String.eqb Ascii.eqb]. now rewrite <- Hj.
    + rewrite join_slash_app by discriminate. rewrite <- Hj.
      unfold below.
      assert (Hne : "/" +:+ join_slash (o :: lo') <> "/").
      { intros E. change ("/" +:+ join_slash (o :: lo'))
          with (String "/" (join_slash (o :: lo'))) in E.
        inversion E as [E']. now apply Hjlo in E'. }
      apply String.eqb_neq in Hne. rewrite Hne.
      now rewrite !append_assoc.
  - destruct lo as [|o lo'].
    + change ([] ++ x :: ls') with (x :: ls'). now rewrite <- Hj.
    + rewrite join_slash_app by discriminate. rewrite <- Hj.
      destruct (join_slash_head o lo') as [r Hr].
      pose proof (Forall_inv Hlo) as Ho. pose proof (Forall_inv Hnslo) as Hso.
      assert (Hne1 : join_slash (o :: lo') <> ".").
      { destruct lo' as [|o2 lo'']; [cbn; congruence|].
        rewrite join_slash_cons. cbn beta in Ho.
        destruct o as [|a [|b o]]; [congruence | |];
          rewrite !append_cons; intros E; inversion E. }
      assert (Hne2 : join_slash (o :: lo') <> "/").
      { rewrite Hr. cbn beta in Ho, Hso.
        destruct o as [|a o]; [congruence|]. rewrite append_cons.
        cbn [no_slash] in Hso. apply andb_prop in Hso. destruct Hso as [Ha _].
        intros E. inversion E as [[Ea Eo]]. rewrite Ea in Ha. discriminate. }
      apply String.eqb_neq in Hne1, Hne2.
      change (match o :: lo' with [] => "." | _ :: _ => join_slash (o :: lo') end)
        with (join_slash (o :: lo')).
      rewrite Hne1. unfold below. now rewrite Hne2.
Qed.

(** ** The path resolver: what it returns, logs and fails with *)

Section ResolverFurther.

Variable os_Stat : string -> StatResult.
Variable os_Getwd : Res string.

#[local] Abbreviation search' := (searchImports os_Stat os_Getwd).
#[local] Abbreviation find' := (findProtoInImports os_Stat os_Getwd).

(** One step of the loop of the resolver. *)
Lemma searchImports_cons (imp0 : string) (rest : list string) (p : string) :
  (exists e, snd (search' (imp0 :: rest) p) = Err e
             /\ exists ge, os_Getwd = Err ge /\ IsAbs p = true
                           /\ IsAbs (Clean imp0) = false
                           /\ e = "making path " +:+ Clean imp0 +:+ " absolute: " +:+ ge)
  \/ (exists y, IsAbs y = false
                /\ snd (search' (imp0 :: rest) p) = Ok (Clean imp0, Dir y))
  \/ snd (search' (imp0 :: rest) p) = snd (search' rest p).
Proof.
  cbn [searchImports]. destruct (IsAbs p) eqn:Hp.
  - unfold Abs. destruct (IsAbs (Clean imp0)) eqn:Hi.
    + destruct (Rel _ p) as [relPath|] eqn:Hrel;
        [| right; right; destruct (searchImports _ _ rest p); reflexivity].
      destruct (nonempty relPath && negb (HasPrefix relPath "../"));
        [| right; right; destruct (searchImports _ _ rest p); reflexivity].
      destruct (os_Stat _);
        [| right; right; destruct (searchImports _ _ rest p); reflexivity].
      right; left. exists relPath. split; [| reflexivity].
      exact (Rel_relative _ _ _ Hrel).
    + destruct os_Getwd as [wd|ge] eqn:Hwd.
      * destruct (Rel _ p) as [relPath|] eqn:Hrel;
          [| right; right; destruct (searchImports _ _ rest p); reflexivity].
        destruct (nonempty relPath && negb (HasPrefix relPath "../"));
          [| right; right; destruct (searchImports _ _ rest p); reflexivity].
        destruct (os_Stat _);
          [| right; right; destruct (searchImports _ _ rest p); reflexivity].
        right; left. exists relPath. split; [| reflexivity].
        exact (Rel_relative _ _ _ Hrel).
      * left. eexists. split; [reflexivity|]. exists ge. auto.
  - destruct (IsNotExist _);
      [right; right; destruct (searchImports _ _ rest p); reflexivity|].
    right; left. exists p. split; [exact Hp | reflexivity].
Qed.

(** What the loop ends with: no match, or the cleaned form of an entry of
    the import list and a directory. *)
Lemma searchImports_Ok (imps : list string) (p imp rel : string) :
  snd (search' imps p) = Ok (imp, rel) ->
  (imp = "" /\ rel = "")
  \/ (In imp (map Clean imps) /\ exists y, IsAbs y = false /\ rel = Dir y).
Proof.
  induction imps as [|imp0 rest IH]; intros H.
  - cbn in H. inversion H. now left.
  - destruct (searchImports_cons imp0 rest p)
      as [(e & He & _) | [(y & Hrel & Hy) | Hnext]].
    + congruence.
    + rewrite Hy in H. inversion H; subst. right. split; [now left | eauto].
    + rewrite Hnext in H. destruct (IH H) as [?|[Hin Hy]]; [now left|].
      right. split; [now right | exact Hy].
Qed.

Lemma searchImports_Err (imps : list string) (p e : string) :
  snd (search' imps p) = Err e ->
  exists i ge, In i imps /\ os_Getwd = Err ge /\ IsAbs p = true
               /\ IsAbs (Clean i) = false
               /\ e = "making path " +:+ Clean i +:+ " absolute: " +:+ ge.
Proof.
  induction imps as [|imp0 rest IH]; intros H; [discriminate|].
  destruct (searchImports_cons imp0 rest p)
    as [(e' & He & ge & Hge) | [(y & _ & Hy) | Hnext]].
  - rewrite He in H. inversion H; subst e'. exists imp0, ge.
    split; [now left | tauto].
  - congruence.
  - rewrite Hnext in H. destruct (IH H) as (i & ge & Hin & Hrest).
    exists i, ge. split; [now right | exact Hrest].
Qed.

(** The loop logs at trace level only. *)
Lemma searchImports_log (imps : list string) (p : string) :
  Forall (fun e => log_level e = LOG_TRACE) (fst (search' imps p)).
Proof.
  induction imps as [|imp0 rest IH]; [constructor|].
  cbn [searchImports].
  assert (Hnext : forall lg,
             Forall (fun e => log_level e = LOG_TRACE) lg ->
             Forall (fun e => log_level e = LOG_TRACE)
               (fst (let (lg', r) := search' rest p in (lg ++ lg', r)))).
  { intros lg Hlg. destruct (search' rest p) as [lg' r]. cbn [fst] in *.
    apply Forall_app. now split. }
  destruct (IsAbs p).
  - destruct (Abs os_Getwd (Clean imp0)); [| repeat constructor].
    destruct (Rel _ p) as [relPath|]; [| apply Hnext; repeat constructor].
    destruct (nonempty relPath && negb (HasPrefix relPath "../"));
      [| apply Hnext; repeat constructor].
    destruct (os_Stat _); [repeat constructor | apply Hnext; repeat constructor].
  - destruct (IsNotExist _); [apply Hnext; repeat constructor | repeat constructor].
Qed.

Lemma Dir_cleaned (y : string) : Clean (Dir y) = Dir y.
Proof. unfold Dir. apply Clean_idem. Qed.

(** The outcome of the resolver in terms of the outcome of its loop. *)
Lemma findProtoInImports_unfold (imps : list string) (p : string) :
  p <> "" ->
  find' imps p
  = match search' imps (Clean p) with
    | (lg1, Err e) =>
        (logV LOG_TRACE "Searching import paths for protocol file"
           [("proto", LogString p); ("importPaths", LogStrings imps)]
         ++ lg1, Err e)
    | (lg1, Ok (matchedImp, matchedRel)) =>
        let check (imp rel : string) : Res (string * string) :=
          match os_Stat (Join [imp; rel; Base (Clean p)]) with
          | Stat_err e => Err (err_cannot_stat (Join [imp; rel; Base (Clean p)]) e)
          | Stat_ok true => Err (err_is_directory (Join [imp; rel; Base (Clean p)]))
          | Stat_ok false => Ok (imp, rel)
          end in
        if String.eqb matchedRel "" && String.eqb matchedImp "" then
          if IsNotExist (os_Stat (Clean p)) then
            (logV LOG_TRACE "Searching import paths for protocol file"
               [("proto", LogString p); ("importPaths", LogStrings imps)]
             ++ lg1 ++ [not_on_import_path],
             Err (err_not_found (Clean p)))
          else
            (logV LOG_TRACE "Searching import paths for protocol file"
               [("proto", LogString p); ("importPaths", LogStrings imps)]
             ++ lg1
             ++ (if IsAbs (Clean p) then []
                 else logV LOG_VERBOSE
                        (msg_found_in_cwd (Clean p)
                           match os_Getwd with Ok wd => wd | Err _ => "" end)
                        [])
             ++ [warning_implicit_import (Dir (Clean p))],
             check (Dir (Clean p)) ".")
        else
          (logV LOG_TRACE "Searching import paths for protocol file"
             [("proto", LogString p); ("importPaths", LogStrings imps)]
           ++ lg1 ++ [],
           check matchedImp matchedRel)
    end.
Proof.
  intros Hp. unfold findProtoInImports. apply String.eqb_neq in Hp. rewrite Hp.
  destruct (search' imps (Clean p)) as [lg1 [[matchedImp matchedRel]|e]];
    [| reflexivity].
  destruct (String.eqb matchedRel "" && String.eqb matchedImp "");
    [| reflexivity].
  destruct (IsNotExist (os_Stat (Clean p))); reflexivity.
Qed.


(** The paths the resolver returns are not empty, and the second one is
    relative. *)
Lemma findProtoInImports_Ok_paths (imps : list string) (p imp rel : string) :
  snd (find' imps p) = Ok (imp, rel) ->
  imp <> "" /\ rel <> "" /\ IsAbs rel = false.
Proof.
  intros H.
  destruct (String.eqb_spec p "") as [->|Hp]; [discriminate|].
  rewrite (findProtoInImports_unfold _ _ Hp) in H.
  destruct (search' imps (Clean p)) as [lg1 [[mi mr]|e]] eqn:Hs; [| discriminate].
  assert (Hs' : snd (search' imps (Clean p)) = Ok (mi, mr)) by now rewrite Hs.
  apply searchImports_Ok in Hs'. cbv zeta in H.
  destruct Hs' as [[-> ->] | [Hin (y & Hyrel & ->)]].
  - cbn [String.eqb andb] in H.
    destruct (IsNotExist (os_Stat (Clean p))); [discriminate|]. cbn [snd] in H.
    destruct (os_Stat _) as [[|]|e]; [discriminate | | discriminate].
    inversion H; subst. split; [apply Dir_nonempty|]. split; [discriminate | reflexivity].
  - pose proof (Dir_nonempty y) as Hy. apply String.eqb_neq in Hy.
    rewrite Hy in H. cbn [andb snd] in H.
    destruct (os_Stat _) as [[|]|e]; [discriminate | | discriminate].
    inversion H; subst. apply in_map_iff in Hin. destruct Hin as (i & <- & _).
    split; [apply Clean_nonempty|]. split; [apply Dir_nonempty | now apply IsAbs_Dir].
Qed.

(** X4. What the resolver returns names a regular file: the base name of
    the cleaned reference, joined to the returned import directory and
    relative path, is neither missing nor a directory.  Both paths returned
    are in cleaned form and not empty, and the relative path is relative. *)
Theorem findProtoInImports_names_regular_file (imps : list string)
    (p imp rel : string) :
  snd (find' imps p) = Ok (imp, rel) ->
  os_Stat (Join [imp; rel; Base (Clean p)]) = Stat_ok false
  /\ Clean imp = imp /\ Clean rel = rel /\ imp <> "" /\ rel <> ""
  /\ IsAbs rel = false.
Proof.
  intros H.
  destruct (String.eqb_spec p "") as [->|Hp]; [discriminate|].
  rewrite (findProtoInImports_unfold _ _ Hp) in H.
  destruct (search' imps (Clean p)) as [lg1 [[mi mr]|e]] eqn:Hs; [| discriminate].
  assert (Hs' : snd (search' imps (Clean p)) = Ok (mi, mr)) by now rewrite Hs.
  apply searchImports_Ok in Hs'. cbv zeta in H.
  assert (Hcheck : forall i r,
             match os_Stat (Join [i; r; Base (Clean p)]) with
             | Stat_ok true => Err (err_is_directory (Join [i; r; Base (Clean p)]))
             | Stat_ok false => Ok (i, r)
             | Stat_err e => Err (err_cannot_stat (Join [i; r; Base (Clean p)]) e)
             end = Ok (imp, rel) ->
             i = imp /\ r = rel
             /\ os_Stat (Join [imp; rel; Base (Clean p)]) = Stat_ok false).
  { intros i r Hc. destruct (os_Stat (Join [i; r; Base (Clean p)])) as [[|]|e] eqn:E;
      [discriminate | | discriminate].
    inversion Hc; subst. auto. }
  destruct Hs' as [[-> ->] | [Hin (y & Hyrel & ->)]].
  - cbn [String.eqb andb] in H.
    destruct (IsNotExist (os_Stat (Clean p))); [discriminate|]. cbn [snd] in H.
    apply Hcheck in H. destruct H as (<- & <- & Hst).
    split; [exact Hst|]. split; [apply Dir_cleaned|].
    split; [reflexivity|]. split; [apply Dir_nonempty|].
    split; [discriminate | reflexivity].
  - pose proof (Dir_nonempty y) as Hy. apply String.eqb_neq in Hy.
    rewrite Hy in H. cbn [andb snd] in H.
    apply Hcheck in H. destruct H as (<- & <- & Hst).
    apply in_map_iff in Hin. destruct Hin as (i & <- & _).
    split; [exact Hst|]. split; [apply Clean_idem|].
    split; [apply Dir_cleaned|]. split; [apply Clean_nonempty|].
    split; [apply Dir_nonempty | now apply IsAbs_Dir].
Qed.

(** X5. The import directory the resolver returns is the cleaned form of an
    entry of the import list, unless it logs the warning about an implicit
    import path: then it is the directory of the cleaned reference, and the
    relative path is ["."]. *)
Theorem findProtoInImports_import_or_warning (imps : list string)
    (p imp rel : string) :
  snd (find' imps p) = Ok (imp, rel) ->
  (In imp (map Clean imps)
   /\ forall d, ~ In (warning_implicit_import d) (fst (find' imps p)))
  \/ (imp = Dir (Clean p) /\ rel = "."
      /\ In (warning_implicit_import (Dir (Clean p))) (fst (find' imps p))).
Proof.
  intros H.
  destruct (String.eqb_spec p "") as [->|Hp]; [discriminate|].
  rewrite (findProtoInImports_unfold _ _ Hp) in *.
  pose proof (searchImports_log imps (Clean p)) as Hlog.
  destruct (search' imps (Clean p)) as [lg1 [[mi mr]|e]] eqn:Hs; [| discriminate].
  assert (Hs' : snd (search' imps (Clean p)) = Ok (mi, mr)) by now rewrite Hs.
  apply searchImports_Ok in Hs'. cbv zeta in *. cbn [fst] in Hlog.
  assert (Hnot : forall d, ~ In (warning_implicit_import d) lg1).
  { intros d Hin. rewrite Forall_forall in Hlog.
    apply list_elem_of_In, Hlog in Hin. discriminate. }
  destruct Hs' as [[-> ->] | [Hin (y & Hyrel & ->)]].
  - cbn [String.eqb andb] in *.
    destruct (IsNotExist (os_Stat (Clean p))); [discriminate|]. cbn [snd fst] in *.
    right. destruct (os_Stat _) as [[|]|e]; [discriminate | | discriminate].
    inversion H; subst. split; [reflexivity|]. split; [reflexivity|].
    apply in_or_app. right. apply in_or_app. right. apply in_or_app. right.
    now left.
  - pose proof (Dir_nonempty y) as Hy. apply String.eqb_neq in Hy.
    rewrite Hy in *. cbn [andb snd fst] in *.
    left. destruct (os_Stat _) as [[|]|e]; [discriminate | | discriminate].
    inversion H; subst. split; [exact Hin|].
    intros d Hw. apply in_app_or in Hw. destruct Hw as [[Hw|[]] | Hw];
      [discriminate|].
    rewrite app_nil_r in Hw. now apply (Hnot d).
Qed.

Lemma printed_app (v : nat) (a b : list LogEntry) :
  printed v (a ++ b) = printed v a ++ printed v b.
Proof. unfold printed. now rewrite filter_app. Qed.

Lemma printed_trace (lg : list LogEntry) :
  Forall (fun e => log_level e = LOG_TRACE) lg -> printed LOG_INFO lg = [].
Proof.
  induction 1 as [|e lg He _ IH]; [reflexivity|].
  unfold printed in *. rewrite filter_cons.
  destruct (decide (log_level e <= LOG_INFO)) as [Hle|_]; [| exact IH].
  rewrite He in Hle. unfold LOG_TRACE, LOG_INFO in Hle. lia.
Qed.

(** X6. What the resolver returns, and what it prints at the default
    verbosity, do not depend on how its paths are spelt: the cleaned
    reference, and the cleaned import directories, give the same result
    and the same printed lines as the paths as given.  (The first trace
    line names the reference and the import list as given, so the whole
    logs differ.) *)
Theorem findProtoInImports_spelling (imps : list string) (p : string) :
  p <> "" ->
  (snd (find' imps (Clean p)) = snd (find' imps p)
   /\ printed LOG_INFO (fst (find' imps (Clean p)))
      = printed LOG_INFO (fst (find' imps p)))
  /\ (snd (find' (map Clean imps) p) = snd (find' imps p)
      /\ printed LOG_INFO (fst (find' (map Clean imps) p))
         = printed LOG_INFO (fst (find' imps p))).
Proof.
  intros Hp.
  assert (Hs : forall q, search' (map Clean imps) q = search' imps q).
  { intros q. induction imps as [|imp0 rest IH]; [reflexivity|].
    cbn [map searchImports]. now rewrite Clean_idem, IH. }
  rewrite !findProtoInImports_unfold by (exact Hp || apply Clean_nonempty).
  rewrite Clean_idem, Hs.
  destruct (search' imps (Clean p)) as [lg1 [[mi mr]|e]];
    [| repeat split; cbn [fst]; now rewrite !printed_app].
  cbv zeta. destruct (String.eqb mr "" && String.eqb mi "");
    [| repeat split; cbn [fst]; now rewrite !printed_app].
  destruct (IsNotExist (os_Stat (Clean p)));
    repeat split; cbn [fst]; now rewrite !printed_app.
Qed.

Lemma searchImports_app_matched (imps more : list string) (p imp rel : string) :
  snd (search' imps p) = Ok (imp, rel) -> rel <> "" ->
  snd (search' (imps ++ more) p) = Ok (imp, rel).
Proof.
  induction imps as [|imp0 rest IH]; intros H Hrel.
  - cbn in H. inversion H; subst. congruence.
  - cbn [app searchImports] in *. destruct (IsAbs p).
    + destruct (Abs os_Getwd (Clean imp0)); [| exact H].
      destruct (Rel _ p) as [relPath|].
      * destruct (nonempty relPath && negb (HasPrefix relPath "../")).
        -- destruct (os_Stat _); [exact H|].
           destruct (search' rest p) as [l r], (search' (rest ++ more) p) as [l' r'].
           cbn [snd] in *. now apply IH.
        -- destruct (search' rest p) as [l r], (search' (rest ++ more) p) as [l' r'].
           cbn [snd] in *. now apply IH.
      * destruct (search' rest p) as [l r], (search' (rest ++ more) p) as [l' r'].
        cbn [snd] in *. now apply IH.
    + destruct (IsNotExist _); [| exact H].
      destruct (search' rest p) as [l r], (search' (rest ++ more) p) as [l' r'].
      cbn [snd] in *. now apply IH.
Qed.

(** X7. A reference that is resolved without the warning about an implicit
    import path is resolved the same way when more directories are added
    at the end of the import list. *)
Theorem findProtoInImports_more_imports (imps more : list string)
    (p : string) (r : string * string) :
  snd (find' imps p) = Ok r ->
  ~ In (warning_implicit_import (Dir (Clean p))) (fst (find' imps p)) ->
  snd (find' (imps ++ more) p) = Ok r.
Proof.
  intros H Hw.
  destruct (String.eqb_spec p "") as [->|Hp]; [discriminate|].
  rewrite (findProtoInImports_unfold imps _ Hp) in H, Hw.
  rewrite (findProtoInImports_unfold (imps ++ more) _ Hp).
  destruct (search' imps (Clean p)) as [lg1 [[mi mr]|e]] eqn:Hs;
    [| discriminate].
  assert (Hs' : snd (search' imps (Clean p)) = Ok (mi, mr)) by now rewrite Hs.
  cbv zeta in *.
  destruct (String.eqb_spec mr "") as [->|Hmr].
  - apply searchImports_Ok in Hs'. destruct Hs' as [[-> _] | [_ (y & _ & Hy)]].
    + cbn [String.eqb andb] in *.
      destruct (IsNotExist (os_Stat (Clean p))); [discriminate|]. cbn [fst] in Hw.
      exfalso. apply Hw. apply in_or_app. right. apply in_or_app. right.
      apply in_or_app. right. now left.
    + symmetry in Hy. now apply Dir_nonempty in Hy.
  - apply (searchImports_app_matched _ more) in Hs'; [| exact Hmr].
    destruct (search' (imps ++ more) (Clean p)) as [lg1' res']. cbn [snd] in Hs'.
    subst res'. apply String.eqb_neq in Hmr. rewrite Hmr in *.
    cbn [andb snd] in *. exact H.
Qed.

(** X8. Every error of the resolver is one of five: the empty reference;
    the working directory that cannot be read, when a relative import
    directory is to be compared with an absolute reference; nothing at the
    cleaned reference, which was found on no import path either; a path
    that cannot be examined; a path that is a directory. *)
Theorem findProtoInImports_errors (imps : list string) (p e : string) :
  snd (find' imps p) = Err e ->
  (p = "" /\ e = "empty input")
  \/ (exists i ge,
        In i imps /\ os_Getwd = Err ge /\ IsAbs p = true
        /\ IsAbs (Clean i) = false
        /\ e = "making path " +:+ Clean i +:+ " absolute: " +:+ ge)
  \/ (os_Stat (Clean p) = Stat_err ENOENT /\ e = err_not_found (Clean p))
  \/ (exists d er, os_Stat d = Stat_err er /\ e = err_cannot_stat d er)
  \/ (exists d, os_Stat d = Stat_ok true /\ e = err_is_directory d).
Proof.
  intros H.
  destruct (String.eqb_spec p "") as [->|Hp].
  { left. cbn in H. inversion H. auto. }
  right. rewrite (findProtoInImports_unfold _ _ Hp) in H.
  destruct (search' imps (Clean p)) as [lg1 [[mi mr]|e']] eqn:Hs.
  - right. cbv zeta in H.
    assert (Hcheck : forall i r,
               match os_Stat (Join [i; r; Base (Clean p)]) with
               | Stat_ok true => Err (err_is_directory (Join [i; r; Base (Clean p)]))
               | Stat_ok false => Ok (i, r)
               | Stat_err e => Err (err_cannot_stat (Join [i; r; Base (Clean p)]) e)
               end = Err e ->
               (exists d er, os_Stat d = Stat_err er /\ e = err_cannot_stat d er)
               \/ (exists d, os_Stat d = Stat_ok true /\ e = err_is_directory d)).
    { intros i r Hc.
      destruct (os_Stat (Join [i; r; Base (Clean p)])) as [[|]|er] eqn:E;
        [| discriminate |]; inversion Hc; subst; eauto. }
    destruct (String.eqb mr "" && String.eqb mi "").
    + destruct (IsNotExist (os_Stat (Clean p))) eqn:Hne.
      * left. cbn [snd] in H. inversion H; subst. split; [| reflexivity].
        destruct (os_Stat (Clean p)) as [|[|]]; try discriminate. reflexivity.
      * right. cbn [snd] in H. now apply Hcheck in H.
    + right. cbn [snd] in H. now apply Hcheck in H.
  - left. cbn [snd] in H. inversion H; subst e'.
    assert (Hs' : snd (search' imps (Clean p)) = Err e) by now rewrite Hs.
    apply searchImports_Err in Hs'.
    destruct Hs' as (i & ge & Hin & Hge & Habs & Hi & ->).
    exists i, ge. rewrite IsAbs_Clean in Habs. auto.
Qed.

Lemma not_In_trace (lg : list LogEntry) (d : string) :
  Forall (fun e => log_level e = LOG_TRACE) lg ->
  ~ In (warning_implicit_import d) lg.
Proof.
  intros Hlog Hin. rewrite Forall_forall in Hlog.
  apply list_elem_of_In, Hlog in Hin. discriminate.
Qed.

Lemma err_not_found_head (q : string) :
  exists rest, err_not_found q = String "c" (String "o" rest).
Proof. eexists. reflexivity. Qed.

(** The errors of the final check of the resolver are not the not-found
    error. *)
Lemma check_not_not_found (imp rel b q : string) :
  match os_Stat (Join [imp; rel; b]) with
  | Stat_err e => Err (err_cannot_stat (Join [imp; rel; b]) e)
  | Stat_ok true => Err (err_is_directory (Join [imp; rel; b]))
  | Stat_ok false => Ok (imp, rel)
  end <> Err (err_not_found q).
Proof.
  destruct (err_not_found_head q) as [rest ->].
  destruct (os_Stat _) as [[|]|e]; intros H; inversion H.
Qed.

(** X9. What the resolver prints at the default verbosity.  When it fails
    with the not-found error it prints the line that says so, and nothing
    else; when it logs the warning about an implicit import path, the
    warning names the directory of the cleaned reference, and the resolver
    prints that line and nothing else; in every other case, a reference
    found on the import path and every other error, it prints nothing. *)
Theorem findProtoInImports_printed (imps : list string) (p : string) :
  (snd (find' imps p) = Err (err_not_found (Clean p)) ->
   printed LOG_INFO (fst (find' imps p)) = [not_on_import_path])
  /\ (forall d, In (warning_implicit_import d) (fst (find' imps p)) ->
      d = Dir (Clean p)
      /\ printed LOG_INFO (fst (find' imps p))
         = [warning_implicit_import (Dir (Clean p))])
  /\ (snd (find' imps p) <> Err (err_not_found (Clean p)) ->
      ~ In (warning_implicit_import (Dir (Clean p))) (fst (find' imps p)) ->
      printed LOG_INFO (fst (find' imps p)) = []).
Proof.
  destruct (String.eqb_spec p "") as [->|Hp].
  { split; [| split].
    - intros H. destruct (err_not_found_head (Clean "")) as [rest E].
      cbn [findProtoInImports String.eqb snd] in H. rewrite E in H. inversion H.
    - intros d [H|[]]. discriminate.
    - reflexivity. }
  rewrite (findProtoInImports_unfold _ _ Hp).
  pose proof (searchImports_log imps (Clean p)) as Hlog.
  destruct (search' imps (Clean p)) as [lg1 [[mi mr]|e]] eqn:Hs; cbn [fst] in Hlog.
  - cbv zeta. destruct (String.eqb mr "" && String.eqb mi "").
    + destruct (IsNotExist (os_Stat (Clean p))); cbn [fst snd].
      * split; [| split].
        -- intros _. rewrite !printed_app, (printed_trace _ Hlog). reflexivity.
        -- intros d Hin. exfalso.
           apply in_app_or in Hin. destruct Hin as [[Hin|[]] | Hin];
             [discriminate|].
           apply in_app_or in Hin. destruct Hin as [Hin | [Hin|[]]];
             [| discriminate].
           now apply (not_In_trace _ d Hlog).
        -- intros Hne. congruence.
      * split; [| split].
        -- intros H. now apply check_not_not_found in H.
        -- intros d Hin. split.
           ++ apply in_app_or in Hin. destruct Hin as [[Hin|[]] | Hin];
                [discriminate|].
              apply in_app_or in Hin. destruct Hin as [Hin | Hin];
                [now apply (not_In_trace _ d Hlog) in Hin|].
              apply in_app_or in Hin. destruct Hin as [Hin | [Hin|[]]].
              ** destruct (IsAbs (Clean p)); [destruct Hin|].
                 destruct Hin as [Hin|[]]. discriminate.
              ** now inversion Hin.
           ++ rewrite !printed_app, (printed_trace _ Hlog).
              now destruct (IsAbs (Clean p)).
        -- intros _ Hnot. exfalso. apply Hnot.
           apply in_or_app. right. apply in_or_app. right.
           apply in_or_app. right. now left.
    + cbn [fst snd]. rewrite app_nil_r. split; [| split].
      * intros H. now apply check_not_not_found in H.
      * intros d Hin. exfalso. revert Hin. apply not_In_trace. now constructor.
      * intros _ _. rewrite printed_app, (printed_trace _ Hlog). reflexivity.
  - cbn [fst snd]. split; [| split].
    + intros H. inversion H; subst e.
      assert (Hs' : snd (search' imps (Clean p)) = Err (err_not_found (Clean p)))
        by now rewrite Hs.
      apply searchImports_Err in Hs'. destruct Hs' as (i & ge & _ & _ & _ & _ & E).
      destruct (err_not_found_head (Clean p)) as [rest E'].
      rewrite E' in E. inversion E.
    + intros d Hin. exfalso. revert Hin. apply not_In_trace. now constructor.
    + intros _ _. rewrite printed_app, (printed_trace _ Hlog). reflexivity.
Qed.

(** X10. Without an [-imports] flag the import list that [main] passes on is
    the one empty string, which the resolver cleans to ["."]: a relative
    reference to a regular file is found below the working directory, with
    its own directory as relative path and without the warning about an
    implicit import path. *)
Theorem findProtoInImports_default_imports (f : Flags) (p : string) :
  flag_imports f = "" -> p <> "" -> IsAbs p = false ->
  os_Stat (Clean p) = Stat_ok false ->
  imports (paramOfFlags f) = [""]
  /\ snd (find' (imports (paramOfFlags f)) p) = Ok (".", Dir (Clean p))
  /\ forall d,
       ~ In (warning_implicit_import d)
            (fst (find' (imports (paramOfFlags f)) p)).
Proof.
  intros Hf Hp Hrel Hfile.
  assert (Hi : imports (paramOfFlags f) = [""])
    by (unfold paramOfFlags; cbn [imports]; now rewrite Hf).
  split; [exact Hi|]. rewrite Hi.
  rewrite (findProtoInImports_unfold _ _ Hp).
  assert (Hjoin : Join ["."; Clean p] = Clean p)
    by (rewrite Join_dot by (now rewrite IsAbs_Clean); apply Clean_idem).
  cbn [searchImports]. rewrite IsAbs_Clean, Hrel.
  change (Clean "") with ".". rewrite Hjoin, Hfile. cbn [IsNotExist].
  cbv zeta. pose proof (Dir_nonempty (Clean p)) as Hd.
  apply String.eqb_neq in Hd. rewrite Hd. cbn [andb fst snd].
  rewrite Join_dir_base by (discriminate || assumption).
  rewrite Hjoin, Hfile. split; [reflexivity|].
  intros d Hin. repeat (destruct Hin as [Hin|Hin]; [discriminate|]). exact Hin.
Qed.

(** X11. For a relative reference the search ends at the first import
    directory below which the reference does not plainly not exist: when
    what is there is a directory, or cannot be examined, the resolver
    fails with that, and no later import directory is tried. *)
Theorem findProtoInImports_search_stops (pre : list string) (imp : string)
    (rest : list string) (p : string) :
  p <> "" -> IsAbs p = false ->
  Forall (fun i => os_Stat (Join [Clean i; Clean p]) = Stat_err ENOENT) pre ->
  (os_Stat (Join [Clean imp; Clean p]) = Stat_ok true ->
   snd (find' (pre ++ imp :: rest) p)
   = Err (err_is_directory (Join [Clean imp; Clean p])))
  /\ (forall e,
        e <> ENOENT ->
        os_Stat (Join [Clean imp; Clean p]) = Stat_err e ->
        snd (find' (pre ++ imp :: rest) p)
        = Err (err_cannot_stat (Join [Clean imp; Clean p]) e)).
Proof.
  intros Hp Hrel Hpre.
  assert (Hskip : forall imps,
             snd (search' (pre ++ imps) (Clean p)) = snd (search' imps (Clean p))).
  { intros imps. induction Hpre as [|i pre Hi _ IH]; [reflexivity|].
    cbn [app searchImports]. rewrite IsAbs_Clean, Hrel, Hi. cbn [IsNotExist].
    destruct (search' (pre ++ imps) (Clean p)). exact IH. }
  assert (Hmatch : IsNotExist (os_Stat (Join [Clean imp; Clean p])) = false ->
                   snd (search' (pre ++ imp :: rest) (Clean p))
                   = Ok (Clean imp, Dir (Clean p))).
  { intros Hne. rewrite Hskip. cbn [searchImports].
    rewrite IsAbs_Clean, Hrel, Hne. reflexivity. }
  assert (Hfind : IsNotExist (os_Stat (Join [Clean imp; Clean p])) = false ->
                  snd (find' (pre ++ imp :: rest) p)
                  = match os_Stat (Join [Clean imp; Clean p]) with
                    | Stat_err e => Err (err_cannot_stat (Join [Clean imp; Clean p]) e)
                    | Stat_ok true => Err (err_is_directory (Join [Clean imp; Clean p]))
                    | Stat_ok false => Ok (Clean imp, Dir (Clean p))
                    end).
  { intros Hne. apply Hmatch in Hne.
    rewrite (findProtoInImports_unfold _ _ Hp).
    destruct (search' (pre ++ imp :: rest) (Clean p)) as [lg1 res].
    cbn [snd] in Hne. subst res. cbv zeta.
    pose proof (Dir_nonempty (Clean p)) as Hd. apply String.eqb_neq in Hd.
    rewrite Hd. cbn [andb snd].
    now rewrite Join_dir_base by (apply Clean_nonempty || assumption). }
  split.
  - intros Hdir. rewrite Hfind by now rewrite Hdir. now rewrite Hdir.
  - intros e He Hst. rewrite Hfind; [now rewrite Hst|].
    rewrite Hst. destruct e; [congruence | reflexivity].
Qed.

End ResolverFurther.

Lemma findProtoInImports_names_regular_file_witness :
  sys_stat example_world (Join ["protos"; "bar"; Base (Clean "bar/bar.proto")])
  = Stat_ok false
  /\ Clean "protos" = "protos" /\ Clean "bar" = "bar"
  /\ "protos" <> "" /\ "bar" <> "" /\ IsAbs "bar" = false.
Proof.
  apply (findProtoInImports_names_regular_file (sys_stat example_world)
           (sys_getwd example_world) ["./protos"] "bar/bar.proto" "protos" "bar").
  vm_compute. reflexivity.
Defined.

Lemma findProtoInImports_import_or_warning_witness :
  (In "protos/bar" (map Clean ["nosuch"])
   /\ forall d,
        ~ In (warning_implicit_import d)
             (fst (findProtoInImports (sys_stat example_world)
                     (sys_getwd example_world) ["nosuch"] "protos/bar/bar.proto")))
  \/ ("protos/bar" = Dir (Clean "protos/bar/bar.proto") /\ "." = "."
      /\ In (warning_implicit_import (Dir (Clean "protos/bar/bar.proto")))
           (fst (findProtoInImports (sys_stat example_world) (sys_getwd example_world)
                   ["nosuch"] "protos/bar/bar.proto"))).
Proof.
  apply (findProtoInImports_import_or_warning (sys_stat example_world)
           (sys_getwd example_world) ["nosuch"] "protos/bar/bar.proto"
           "protos/bar" ".").
  vm_compute. reflexivity.
Defined.

Lemma findProtoInImports_spelling_witness :
  (snd (findProtoInImports (sys_stat example_world) (sys_getwd example_world)
          ["./protos/"] (Clean "./bar//bar.proto"))
   = snd (findProtoInImports (sys_stat example_world) (sys_getwd example_world)
            ["./protos/"] "./bar//bar.proto")
   /\ printed LOG_INFO
        (fst (findProtoInImports (sys_stat example_world)
                (sys_getwd example_world) ["./protos/"]
                (Clean "./bar//bar.proto")))
      = printed LOG_INFO
          (fst (findProtoInImports (sys_stat example_world)
                  (sys_getwd example_world) ["./protos/"] "./bar//bar.proto")))
  /\ (snd (findProtoInImports (sys_stat example_world) (sys_getwd example_world)
             (map Clean ["./protos/"]) "./bar//bar.proto")
      = snd (findProtoInImports (sys_stat example_world) (sys_getwd example_world)
               ["./protos/"] "./bar//bar.proto")
      /\ printed LOG_INFO
           (fst (findProtoInImports (sys_stat example_world)
                   (sys_getwd example_world) (map Clean ["./protos/"])
                   "./bar//bar.proto"))
         = printed LOG_INFO
             (fst (findProtoInImports (sys_stat example_world)
                     (sys_getwd example_world) ["./protos/"]
                     "./bar//bar.proto"))).
Proof.
  apply (findProtoInImports_spelling (sys_stat example_world)
           (sys_getwd example_world) ["./protos/"] "./bar//bar.proto").
  discriminate.
Defined.

Lemma findProtoInImports_more_imports_witness :
  snd (findProtoInImports (sys_stat example_world) (sys_getwd example_world)
         (["protos"] ++ ["/w"; "nosuch"]) "bar/bar.proto")
  = Ok ("protos", "bar").
Proof.
  apply (findProtoInImports_more_imports (sys_stat example_world)
           (sys_getwd example_world) ["protos"] ["/w"; "nosuch"] "bar/bar.proto"
           ("protos", "bar")).
  - vm_compute. reflexivity.
  - vm_compute. intros H.
    repeat (destruct H as [H|H]; [discriminate H|]). exact H.
Defined.

Lemma findProtoInImports_errors_witness :
  ("protos" = "" /\ err_is_directory "protos" = "empty input")
  \/ (exists i ge,
        In i [] /\ sys_getwd example_world = Err ge /\ IsAbs "protos" = true
        /\ IsAbs (Clean i) = false
        /\ err_is_directory "protos"
           = "making path " +:+ Clean i +:+ " absolute: " +:+ ge)
  \/ (sys_stat example_world (Clean "protos") = Stat_err ENOENT
      /\ err_is_directory "protos" = err_not_found (Clean "protos"))
  \/ (exists d er, sys_stat example_world d = Stat_err er
                   /\ err_is_directory "protos" = err_cannot_stat d er)
  \/ (exists d, sys_stat example_world d = Stat_ok true
                /\ err_is_directory "protos" = err_is_directory d).
Proof.
  apply (findProtoInImports_errors (sys_stat example_world)
           (sys_getwd example_world) [] "protos" (err_is_directory "protos")).
  vm_compute. reflexivity.
Defined.

Lemma findProtoInImports_default_imports_witness :
  imports (paramOfFlags default_flags) = [""]
  /\ snd (findProtoInImports (sys_stat example_world) (sys_getwd example_world)
            (imports (paramOfFlags default_flags)) "protos/bar/bar.proto")
     = Ok (".", Dir (Clean "protos/bar/bar.proto"))
  /\ forall d,
       ~ In (warning_implicit_import d)
            (fst (findProtoInImports (sys_stat example_world)
                    (sys_getwd example_world)
                    (imports (paramOfFlags default_flags)) "protos/bar/bar.proto")).
Proof.
  apply (findProtoInImports_default_imports (sys_stat example_world)
           (sys_getwd example_world) default_flags "protos/bar/bar.proto").
  - reflexivity.
  - discriminate.
  - reflexivity.
  - reflexivity.
Defined.

Lemma findProtoInImports_search_stops_witness :
  snd (findProtoInImports (sys_stat shadow_world) (sys_getwd shadow_world)
         (["nosuch"] ++ "other" :: ["protos"]) "x.proto")
  = Err (err_is_directory (Join [Clean "other"; Clean "x.proto"]))
  /\ snd (findProtoInImports (sys_stat example_world) (sys_getwd example_world)
            ([] ++ "protos" :: ["/w"]) "bar/bar.proto/x.proto")
     = Err (err_cannot_stat (Join [Clean "protos"; Clean "bar/bar.proto/x.proto"])
              ENOTDIR).
Proof.
  split.
  - apply (proj1 (findProtoInImports_search_stops (sys_stat shadow_world)
                    (sys_getwd shadow_world) ["nosuch"] "other" ["protos"] "x.proto"
                    ltac:(discriminate) eq_refl
                    ltac:(repeat constructor))).
    reflexivity.
  - apply (proj2 (findProtoInImports_search_stops (sys_stat example_world)
                    (sys_getwd example_world) [] "protos" ["/w"]
                    "bar/bar.proto/x.proto"
                    ltac:(discriminate) eq_refl
                    ltac:(constructor)) ENOTDIR).
    + discriminate.
    + reflexivity.
Defined.

(** ** Rewriting into the output directory: what is left alone *)

(** [fixGoPackage] succeeds only when the output file is another file than
    the input file and not a directory; it changes nothing but the output
    file. *)
Lemma fixGoPackage_writes (w w' : World) (protoPath newPackage outPath : string) :
  fixGoPackage w protoPath newPackage outPath = Ok w' ->
  abspath (cwd w) outPath <> abspath (cwd w) protoPath
  /\ abspath (cwd w) outPath <> "/"
  /\ node_at (fs w) (abspath (cwd w) outPath) <> Some Directory
  /\ cwd w' = cwd w
  /\ exists text,
       fs w' = <[abspath (cwd w) outPath := File text]>
                 (<[abspath (cwd w) outPath := File ""]> (fs w)).
Proof.
  unfold fixGoPackage.
  destruct (os_Open w protoPath) as [hin|e] eqn:Hin; [| discriminate].
  apply os_Open_Ok in Hin. subst hin.
  destruct (os_OpenFile_trunc w outPath) as [[w1 hout]|e] eqn:Hout; [| discriminate].
  pose proof (os_OpenFile_trunc_not_directory _ _ _ _ Hout) as Hnd.
  apply os_OpenFile_trunc_Ok in Hout. destruct Hout as (-> & Hroot & Hc1 & Hf1).
  destruct (fixGoPackageProtoStream _ newPackage) as [text|e] eqn:Hrw; [| discriminate].
  intros H. inversion H; subst w'. clear H.
  apply file_scanner_Ok in Hrw. destruct Hrw as (source & Hsrc & Hrw).
  rewrite Hf1 in Hsrc. unfold write_file. cbn [cwd fs].
  split; [| split; [exact Hroot | split; [exact Hnd | split; [exact Hc1|]]]].
  - intros Heq. rewrite <- Heq, node_at_insert_eq in Hsrc by exact Hroot.
    inversion Hsrc; subst source.
    apply fixGoPackageProtoStream_Ok_inv in Hrw.
    destruct Hrw as (_ & _ & Hrw). discriminate.
  - exists text. now rewrite Hf1.
Qed.

(** *** Following a path *)

Lemma walk_app (m : gmap string Node) (a b : list string) :
  forall stack,
    walk m stack (a ++ b)
    = match walk m stack a with
      | Some e => Some e
      | None => walk m (fold_left (clean_step true) a stack) b
      end.
Proof.
  induction a as [|x a IH]; intros stack; [reflexivity|].
  cbn [app walk fold_left].
  destruct (node_at m (path_of stack)) as [[c|]|]; [reflexivity | | reflexivity].
  destruct (node_at m (path_of (clean_step true stack x))) as [[c|]|];
    [| apply IH | reflexivity].
  destruct (is_name x); [apply IH | reflexivity].
Qed.

(** A path that has been followed to a file ends in a name, which was
    looked up in a directory. *)
Lemma walk_to_file (m : gmap string Node) (l : list string) (e c : string) :
  forall stack,
    walk m stack (l ++ [e]) = None ->
    node_at m (path_of (fold_left (clean_step true) (l ++ [e]) stack))
    = Some (File c) ->
    is_name e = true /\ walk m stack (l ++ ["."]) = None.
Proof.
  intros stack. rewrite !walk_app, fold_left_app.
  destruct (walk m stack l); [discriminate|].
  set (st := fold_left (clean_step true) l stack). cbn [walk fold_left].
  destruct (node_at m (path_of st)) as [[d|]|] eqn:Hst; try discriminate.
  change (clean_step true st ".") with st. rewrite Hst.
  destruct (node_at m (path_of (clean_step true st e))) as [[d|]|];
    try discriminate.
  destruct (is_name e); [auto | discriminate].
Qed.

Lemma strip_trailing_empty_snoc (l : list string) (e : string) :
  e <> "" -> strip_trailing_empty (l ++ [e]) = l ++ [e].
Proof.
  intros He. apply String.eqb_neq in He.
  induction l as [|x l IH]; cbn [app strip_trailing_empty].
  - now rewrite He.
  - rewrite IH. now destruct l.
Qed.

(** With an absolute working directory, the path that has been followed
    ends where [abspath] tells. *)
Lemma walk_end_abspath (w : World) (p : string) :
  IsAbs (cwd w) = true -> p <> "" ->
  path_of (fold_left (clean_step true) (split_slash p) (start_stack w p))
  = abspath (cwd w) p.
Proof.
  intros Hwd Hp. unfold start_stack, abspath, path_of.
  destruct (IsAbs p) eqn:Hap.
  - rewrite (Clean_unfold _ Hp), Hap. reflexivity.
  - assert (Hne : cwd w <> "") by (intros E; rewrite E in Hwd; discriminate).
    rewrite Join2 by assumption.
    rewrite Clean_unfold by now apply append_nonempty_l.
    rewrite IsAbs_app, Hwd by exact Hne. unfold clean_elems, cwd_stack.
    now rewrite split_slash_app, fold_left_app.
Qed.

(** A path at which [os.Stat] finds a file can be opened for writing; the
    file is emptied. *)
Lemma os_OpenFile_trunc_file (w : World) (p : string) :
  IsAbs (cwd w) = true ->
  sys_stat w p = Stat_ok false ->
  os_OpenFile_trunc w p
  = Ok ({| cwd := cwd w; fs := <[abspath (cwd w) p := File ""]> (fs w) |},
        abspath (cwd w) p).
Proof.
  intros Hwd. unfold sys_stat, lookup_errno.
  destruct (String.eqb_spec p "") as [|Hp]; [discriminate|].
  destruct (walk _ _ _) eqn:Hwalk; [discriminate|].
  destruct (node_at (fs w) (abspath (cwd w) p)) as [[c|]|] eqn:Hn;
    [| discriminate | discriminate].
  intros _.
  destruct (exists_last (split_on_nonnil "/" p)) as (l & e & Hsplit).
  fold (split_slash p) in Hsplit.
  rewrite <- (walk_end_abspath w p Hwd Hp), Hsplit in Hn. rewrite Hsplit in Hwalk.
  destruct (walk_to_file _ _ _ _ _ Hwalk Hn) as [He Hparent].
  assert (Hne : e <> "") by (intros ->; discriminate).
  unfold os_OpenFile_trunc, parent_errno.
  apply String.eqb_neq in Hp. rewrite Hp, Hsplit.
  rewrite strip_trailing_empty_snoc, removelast_last, Hparent by exact Hne.
  rewrite Nat.eqb_refl. cbn [negb].
  rewrite <- Hsplit, (walk_end_abspath w p Hwd) in Hn by now apply String.eqb_neq.
  now rewrite Hn.
Qed.

(** X12. [fixGoPackage] never succeeds when its output path names its input
    file.  When both paths lead to the file, the output is emptied before
    the input is read, so that the rewriter finds no [syntax] line. *)
Theorem fixGoPackage_same_file (w : World)
    (protoPath newPackage outPath : string) :
  abspath (cwd w) protoPath = abspath (cwd w) outPath ->
  (exists e, fixGoPackage w protoPath newPackage outPath = Err e)
  /\ (IsAbs (cwd w) = true -> newPackage <> "" ->
      sys_stat w protoPath = Stat_ok false ->
      sys_stat w outPath = Stat_ok false ->
      fixGoPackage w protoPath newPackage outPath
      = Err ("failed to munge proto file " +:+ DQ +:+ protoPath +:+ DQ
             +:+ ": " +:+ err_no_syntax)).
Proof.
  intros Heq. split.
  - destruct (fixGoPackage w protoPath newPackage outPath) as [w'|e] eqn:H;
      [| eauto].
    apply fixGoPackage_writes in H. destruct H as (Hne & _). congruence.
  - intros Hwd Hn Hin Hout. unfold fixGoPackage, os_Open. rewrite Hin.
    rewrite (os_OpenFile_trunc_file _ _ Hwd Hout).
    assert (Hroot : abspath (cwd w) outPath <> "/").
    { intros E. unfold sys_stat in Hout.
      destruct (String.eqb outPath ""); [discriminate|].
      destruct (lookup_errno w outPath); [discriminate|].
      rewrite E in Hout. discriminate. }
    unfold file_scanner. cbn [fs]. rewrite Heq.
    rewrite node_at_insert_eq by exact Hroot.
    unfold fixGoPackageProtoStream. apply String.eqb_neq in Hn. rewrite Hn.
    reflexivity.
Qed.

Lemma fixGoPackage_same_file_witness :
  (exists e, fixGoPackage example_world "protos/bar/bar.proto"
               "gripmock/generated" "./protos/bar/bar.proto" = Err e)
  /\ fixGoPackage example_world "protos/bar/bar.proto"
       "gripmock/generated" "./protos/bar/bar.proto"
     = Err ("failed to munge proto file " +:+ DQ +:+ "protos/bar/bar.proto" +:+ DQ
            +:+ ": " +:+ err_no_syntax).
Proof.
  destruct (fixGoPackage_same_file example_world "protos/bar/bar.proto"
              "gripmock/generated" "./protos/bar/bar.proto")
    as [H1 H2]; [reflexivity|].
  split; [exact H1|].
  apply H2; [reflexivity | discriminate | reflexivity | reflexivity].
Defined.

(** What one file's step leaves of the file tree. *)
Lemma fixGoPackages_one_frame (w w' : World) (imps : list string)
    (output proto outProto : string) :
  fixGoPackages_one w imps output proto = Ok (w', outProto) ->
  cwd w' = cwd w
  /\ forall q n,
       node_at (fs w) q = Some n ->
       node_at (fs w') q = Some n
       \/ (q = abspath (cwd w) outProto
           /\ exists c c', n = File c /\ node_at (fs w') q = Some (File c')).
Proof.
  unfold fixGoPackages_one.
  destruct (snd (findProtoInImports _ _ imps proto)) as [[importDir rel]|e];
    [| discriminate].
  destruct (os_MkdirAll w _) as [w1|e] eqn:Hmk; [| discriminate].
  apply os_MkdirAll_Ok in Hmk. destruct Hmk as (Hc1 & Hkeep & _).
  destruct (fixGoPackage w1 _ _ _) as [w2|e] eqn:Hfix; [| discriminate].
  intros H. inversion H; subst w' outProto. clear H.
  apply fixGoPackage_writes in Hfix.
  destruct Hfix as (_ & Hroot & Hnd & Hc2 & text & Hfs).
  rewrite Hc1 in *. split; [exact Hc2|]. intros q n Hq.
  apply Hkeep in Hq. rewrite Hfs.
  set (out := abspath (cwd w) (Join [Join [output; rel]; Base proto])) in *.
  destruct (String.eqb_spec out q) as [<-|Hne].
  - right. split; [reflexivity|].
    destruct n as [c|]; [| contradiction].
    exists c, text. split; [reflexivity|]. now apply node_at_insert_eq.
  - left. now rewrite !node_at_insert_ne.
Qed.

Lemma fixGoPackages_loop_frame (imps : list string) (output : string)
    (protos : list string) :
  forall (w w' : World) (outProtos : list string),
    fixGoPackages_loop w imps output protos = Ok (w', outProtos) ->
    cwd w' = cwd w
    /\ forall q n,
         node_at (fs w) q = Some n ->
         node_at (fs w') q = Some n
         \/ (In q (map (abspath (cwd w)) outProtos)
             /\ exists c c', n = File c /\ node_at (fs w') q = Some (File c')).
Proof.
  induction protos as [|proto protos IH]; intros w w' outProtos H;
    cbn [fixGoPackages_loop] in H.
  - inversion H; subst. split; [reflexivity|]. intros q n Hq. now left.
  - destruct (fixGoPackages_one w imps output proto) as [[w1 o]|e] eqn:Hone;
      [| discriminate].
    destruct (fixGoPackages_loop w1 imps output protos) as [[w2 outs]|e] eqn:Hrest;
      [| discriminate].
    inversion H; subst w2 outProtos. clear H.
    apply fixGoPackages_one_frame in Hone. destruct Hone as [Hc1 Hone].
    apply IH in Hrest. destruct Hrest as [Hc2 Hrest]. rewrite Hc1 in *.
    split; [exact Hc2|]. intros q n Hq. cbn [map].
    destruct (Hone q n Hq) as [Hq1 | (-> & c & c1 & -> & Hq1)].
    + destruct (Hrest q n Hq1) as [Hq2 | (Hin & Hfile)]; [now left|].
      right. split; [now right | exact Hfile].
    + destruct (Hrest _ _ Hq1) as [Hq2 | (Hin & c2 & c3 & _ & Hq2)].
      * right. split; [now left | eauto].
      * right. split; [now left | eauto].
Qed.

(** X13. When [fixGoPackages] succeeds, the working directory is the same,
    nothing of the file tree is gone, and nothing in it is changed but the
    files at the paths now in [param.protoPath]: every directory is still
    a directory, and every other file has its content. *)
Theorem fixGoPackages_frame (w w' : World) (param param' : protocParam) :
  fixGoPackages w param = Ok (w', param') ->
  cwd w' = cwd w
  /\ forall q n,
       node_at (fs w) q = Some n ->
       node_at (fs w') q = Some n
       \/ (In q (map (abspath (cwd w)) (protoPath param'))
           /\ exists c c', n = File c /\ node_at (fs w') q = Some (File c')).
Proof.
  unfold fixGoPackages. intros H.
  destruct (fixGoPackages_loop w _ _ _) as [[wf outProtos]|e] eqn:Hloop;
    [| discriminate].
  inversion H; subst w' param'. cbn [protoPath].
  exact (fixGoPackages_loop_frame _ _ _ _ _ _ Hloop).
Qed.

Lemma fixGoPackages_frame_witness :
  cwd (fst multi_after) = cwd multi_world
  /\ forall q n,
       node_at (fs multi_world) q = Some n ->
       node_at (fs (fst multi_after)) q = Some n
       \/ (In q (map (abspath (cwd multi_world)) (protoPath (snd multi_after)))
           /\ exists c c', n = File c
                           /\ node_at (fs (fst multi_after)) q = Some (File c')).
Proof.
  apply (fixGoPackages_frame multi_world (fst multi_after) multi_param
           (snd multi_after)).
  vm_compute. reflexivity.
Defined.

(** X14. The copy of a requested file lies at the same path below the output
    directory as the file that is read lies below its import directory:
    the relative path the resolver returned, joined with the base name of
    the reference. *)
Theorem fixGoPackages_one_same_relative_path (w w' : World)
    (imps : list string) (output proto outProto : string) :
  output <> "" ->
  fixGoPackages_one w imps output proto = Ok (w', outProto) ->
  exists importDir rel sub source text,
    resolve w imps proto = Ok (importDir, rel)
    /\ sub = Join [rel; Base proto]
    /\ IsAbs sub = false
    /\ node_at (fs w) (abspath (cwd w) (Join [importDir; sub])) = Some (File source)
    /\ outProto = Join [output; sub]
    /\ node_at (fs w') (abspath (cwd w) outProto) = Some (File text).
Proof.
  intros Hout H.
  destruct (fixGoPackages_one_Ok _ _ _ _ _ _ H)
    as (importDir & rel & source & text & Hres & -> & Hsrc & _ & Hcopy & Hcwd).
  destruct (findProtoInImports_Ok_paths _ _ _ _ _ _ Hres) as (Himp & Hrel & Habs).
  pose proof (Base_nonempty proto) as Hb.
  exists importDir, rel, (Join [rel; Base proto]), source, text.
  split; [exact Hres|]. split; [reflexivity|].
  split; [rewrite Join2 by assumption; rewrite IsAbs_Clean;
          now rewrite IsAbs_app|].
  split; [now rewrite Join_assoc_r|].
  split; [now rewrite Join_assoc_l, Join_assoc_r|].
  now rewrite <- Hcwd.
Qed.

Lemma fixGoPackages_one_same_relative_path_witness :
  exists importDir rel sub source text,
    resolve multi_world ["mp"] "bar/bar.proto" = Ok (importDir, rel)
    /\ sub = Join [rel; Base "bar/bar.proto"]
    /\ IsAbs sub = false
    /\ node_at (fs multi_world) (abspath (cwd multi_world) (Join [importDir; sub]))
       = Some (File source)
    /\ snd bar_after = Join ["generated"; sub]
    /\ node_at (fs (fst bar_after)) (abspath (cwd multi_world) (snd bar_after))
       = Some (File text).
Proof.
  apply (fixGoPackages_one_same_relative_path multi_world (fst bar_after) ["mp"]
           "generated" "bar/bar.proto" (snd bar_after)).
  - discriminate.
  - vm_compute. reflexivity.
Defined.

(** X15. The copy of a requested file lies below the output directory when
    the path it is given there, the relative path of the resolver joined
    with the base name of the reference, does not go up: it is that path
    below the cleaned output directory. *)
Theorem fixGoPackages_one_within_output (w w' : World) (imps : list string)
    (output proto outProto importDir rel : string) :
  output <> "" ->
  fixGoPackages_one w imps output proto = Ok (w', outProto) ->
  resolve w imps proto = Ok (importDir, rel) ->
  Join [rel; Base proto] <> "." ->
  Join [rel; Base proto] <> ".." ->
  HasPrefix (Join [rel; Base proto]) "../" = false ->
  outProto = if String.eqb (Clean output) "." then Join [rel; Base proto]
             else below (Clean output) (Join [rel; Base proto]).
Proof.
  intros Hout H Hres Hdot Hdd Hup.
  destruct (fixGoPackages_one_Ok _ _ _ _ _ _ H)
    as (importDir' & rel' & source & text & Hres' & -> & _).
  rewrite Hres in Hres'. inversion Hres'; subst importDir' rel'. clear Hres'.
  destruct (findProtoInImports_Ok_paths _ _ _ _ _ _ Hres) as (Himp & Hrel & Habs).
  pose proof (Base_nonempty proto) as Hb.
  assert (Hsub : Join [rel; Base proto] = Clean (rel +:+ "/" +:+ Base proto))
    by now apply Join2.
  rewrite Join_assoc_l, <- (Join_assoc_r output rel) by assumption.
  apply Join_below; try assumption.
  - rewrite Hsub, IsAbs_Clean. now rewrite IsAbs_app.
  - rewrite Hsub. apply Clean_idem.
Qed.

Lemma fixGoPackages_one_within_output_witness :
  snd bar_after
  = if String.eqb (Clean "generated") "." then Join ["bar"; Base "bar/bar.proto"]
    else below (Clean "generated") (Join ["bar"; Base "bar/bar.proto"]).
Proof.
  apply (fixGoPackages_one_within_output multi_world (fst bar_after) ["mp"]
           "generated" "bar/bar.proto" (snd bar_after) "mp" "bar").
  - discriminate.
  - vm_compute. reflexivity.
  - vm_compute. reflexivity.
  - vm_compute. discriminate.
  - vm_compute. discriminate.
  - reflexivity.
Defined.

(** A reference that goes up leaves the output directory: the copy of
    [../x.proto], found below the import directory [sub], is written next
    to the output directory [out/gen], not into it. *)
Example fixGoPackages_one_goes_up :
  resolve up_world ["sub"] "../x.proto" = Ok ("sub", "..")
  /\ match fixGoPackages_one up_world ["sub"] "out/gen" "../x.proto" with
     | Ok (_, outProto) => Some outProto
     | Err _ => None
     end = Some "out/x.proto".
Proof. split; vm_compute; reflexivity. Qed.






(** ** The supervision loop, [main] and [buildServer], further *)

Lemma count_signals_cons (e : Event) (events : list Event) :
  count_signals (e :: events)
  = (match e with SignalCaught => 1 | ChildDone _ => 0 end) + count_signals events.
Proof.
  unfold count_signals. rewrite filter_cons.
  destruct e as [c|];
    [rewrite decide_False by discriminate | rewrite decide_True by reflexivity];
    reflexivity.
Qed.

(** After the report of the server has been received, the loop only counts
    signals. *)
Lemma supervise_after_report (events : list Event) :
  forall kills,
    supervise true kills events = (kills + count_signals events, Blocked).
Proof.
  induction events as [|e rest IH]; intros kills.
  - cbn. f_equal. unfold count_signals. cbn. lia.
  - rewrite count_signals_cons. destruct e as [c|]; cbn [supervise]; rewrite IH;
      f_equal; lia.
Qed.

Lemma supervise_signals_then (n : nat) (events : list Event) :
  forall reported kills,
    supervise reported kills (repeat SignalCaught n ++ events)
    = supervise reported (n + kills) events.
Proof.
  induction n as [|n IH]; intros reported kills; [reflexivity|].
  cbn [repeat app supervise]. rewrite IH. f_equal. lia.
Qed.

(** X16. The loop of [main] is decided by the one report of the server.
    Every signal before it kills the server once more.  If the report is
    an [*exec.ExitError] the program exits with the runtime error code;
    otherwise (a server that exited with status 0, a failed wait) the
    program never exits, and every later signal sends one more kill. *)
Theorem supervise_first_report (n : nat) (c : ChildEnd) (rest : list Event) :
  supervise false 0 (repeat SignalCaught n ++ ChildDone c :: rest)
  = match cmd_Wait c with
    | Wait_ExitError _ => (n, Exit EXITCODE_RUNTIME_ERROR)
    | _ => (n + count_signals rest, Blocked)
    end.
Proof.
  rewrite supervise_signals_then, Nat.add_0_r. cbn [supervise].
  destruct c as [st|msg]; cbn [cmd_Wait].
  - destruct (Success st) eqn:Hst.
    + apply supervise_after_report.
    + now rewrite Hst.
  - apply supervise_after_report.
Qed.

Section MainFurther.

Variable flag_Parse : list string -> FlagResult.
Variable stub_RunStubServer : World -> string -> string -> string -> option nat.
Variable exec_Run :
  string -> gmap string Node -> list string -> gmap string Node * option string.
Variable exec_Start : World -> string -> option string.

#[local] Abbreviation run_main' := (main flag_Parse stub_RunStubServer exec_Run exec_Start).

(** X17. The legacy command line that repeats the program name runs as the
    command line without the repeated name does: one ["gripmock"] right
    after the program name is dropped, when an argument follows it. *)
Theorem main_drops_repeated_name (prog a : string) (rest : list string)
    (w : World) (events : list Event) :
  a <> "gripmock" ->
  run_main' (prog :: "gripmock" :: a :: rest) w events
  = run_main' (prog :: a :: rest) w events.
Proof.
  intros Ha. unfold main. cbn [nth_error]. unfold dropRepeatedName.
  apply String.eqb_neq in Ha. rewrite Ha. reflexivity.
Qed.

(** X18. [main] makes the output directory with [os.Mkdir], not with
    [os.MkdirAll]: when nothing exists at the output path and its parent
    directory does not exist either, the program exits with the code for
    other errors. *)
Theorem main_output_parent_missing (osArgs : list string) (arg1 : string)
    (f : Flags) (w : World) (events : list Event) :
  nth_error osArgs 1 = Some arg1 ->
  flag_Parse (dropRepeatedName arg1 osArgs) = Parsed f ->
  flag_o f <> "" ->
  sys_stat w (flag_o f) = Stat_err ENOENT ->
  node_at (fs w) (Dir (abspath (cwd w) (flag_o f))) = None ->
  run_main' osArgs w events = Exit EXITCODE_OTHER_ERROR.
Proof.
  intros Harg Hparse Ho Hstat Hparent. unfold main. rewrite Harg, Hparse.
  apply String.eqb_neq in Ho. rewrite Ho.
  unfold ensureOutput. rewrite Hstat. cbn [IsNotExist].
  assert (Hmk : exists e, os_Mkdir w (flag_o f) = Err e).
  { unfold os_Mkdir. rewrite Ho.
    destruct (parent_errno w (flag_o f)); [eauto|].
    destruct (node_at (fs w) (abspath (cwd w) (flag_o f))); [eauto|].
    rewrite Hparent. eauto. }
  destruct Hmk as [e ->]. reflexivity.
Qed.

(** X19. Every exit status of the program has its cause.  Status 2 is
    that of the panic of a program started without an argument, and that of
    a failure of [generateProtoc] or [buildServer].  Otherwise, apart from a
    status that [flag.Parse] or the call of the admin stub server ends the
    program with, status 4 means an empty output directory or no proto
    file; status 1 that the output directory could not be made; status 3
    that the server could not be started or that its wait reported an
    [*exec.ExitError]; and there is no other status. *)
Theorem main_exit_status_cause (osArgs : list string) (w : World)
    (events : list Event) (code : nat) :
  exit_status (run_main' osArgs w events) = Some code ->
  (code = 2 /\ length osArgs < 2
   /\ run_main' osArgs w events = PanicIndexOutOfRange 1 (length osArgs))
  \/ exists arg1,
       nth_error osArgs 1 = Some arg1
       /\ (flag_Parse (dropRepeatedName arg1 osArgs) = FlagExit code
           \/ exists f,
                flag_Parse (dropRepeatedName arg1 osArgs) = Parsed f
                /\ ((code = EXITCODE_ARGUMENTS_ERROR
                     /\ (flag_o f = "" \/ flag_Args f = []))
                    \/ (code = EXITCODE_OTHER_ERROR
                        /\ exists e, ensureOutput w (flag_o f) = Err e)
                    \/ (exists w1,
                          ensureOutput w (flag_o f) = Ok w1
                          /\ stub_RunStubServer w1 (flag_stub f) (flag_admin_port f)
                               (flag_admin_listen f) = Some code)
                    \/ (code = EXITCODE_BUILD_ERROR
                        /\ exists w1,
                             ensureOutput w (flag_o f) = Ok w1
                             /\ ((exists e,
                                    generateProtoc exec_Run w1 (paramOfFlags f)
                                    = Err e)
                                 \/ exists w2 e,
                                      generateProtoc exec_Run w1 (paramOfFlags f)
                                      = Ok w2
                                      /\ snd (buildServer exec_Run w2 (flag_o f))
                                         = Some e))
                    \/ (code = EXITCODE_RUNTIME_ERROR
                        /\ exists w1 w2 w3,
                             ensureOutput w (flag_o f) = Ok w1
                             /\ generateProtoc exec_Run w1 (paramOfFlags f) = Ok w2
                             /\ buildServer exec_Run w2 (flag_o f) = (w3, None)
                             /\ ((exists e,
                                    exec_Start w3 (Join [flag_o f; "server"])
                                    = Some e)
                                 \/ (exec_Start w3 (Join [flag_o f; "server"]) = None
                                     /\ exists n st rest,
                                          events
                                          = repeat SignalCaught n
                                              ++ ChildDone (Terminated st) :: rest
                                          /\ Success st = false))))).
Proof.
  unfold main.
  destruct (nth_error osArgs 1) as [arg1|] eqn:Harg.
  2:{ intros H. left. inversion H. split; [reflexivity|].
      apply nth_error_None in Harg. split; [lia | reflexivity]. }
  intros H. right. exists arg1. split; [reflexivity|]. revert H.
  destruct (flag_Parse _) as [c|f]; [intros H; left; cbn in H; congruence|].
  intros H. right. exists f. split; [reflexivity|]. revert H.
  destruct (String.eqb_spec (flag_o f) "") as [Ho|Ho].
  { intros H. left. inversion H. split; [reflexivity | now left]. }
  destruct (ensureOutput w (flag_o f)) as [w1|e].
  2:{ intros H. right. left. inversion H. eauto. }
  destruct (stub_RunStubServer w1 _ _ _) as [c|] eqn:Hstub.
  { intros H. right. right. left. inversion H; subst. eauto. }
  destruct (flag_Args f) as [|a l] eqn:Hargs.
  { intros H. left. inversion H. split; [reflexivity | now right]. }
  cbn [length Nat.eqb].
  destruct (generateProtoc exec_Run w1 (paramOfFlags f)) as [w2|e] eqn:Hg.
  2:{ intros H. right. right. right. left. inversion H. split; [reflexivity|].
      exists w1. split; [reflexivity|]. left. exists e. exact Hg. }
  destruct (buildServer exec_Run w2 (flag_o f)) as [w3 [e|]] eqn:Hb.
  { intros H. right. right. right. left. inversion H. split; [reflexivity|].
    exists w1. split; [reflexivity|]. right. exists w2, e. split; [exact Hg|].
    now rewrite Hb. }
  unfold runGrpcServer.
  destruct (exec_Start w3 _) as [e|] eqn:Hs.
  { intros H. right. right. right. right. inversion H. split; [reflexivity|].
    exists w1, w2, w3. split; [reflexivity|]. split; [exact Hg|].
    split; [exact Hb|]. left. exists e. exact Hs. }
  intros H. right. right. right. right.
  assert (Hloop : forall evs kills c,
             exit_status (snd (supervise false kills evs)) = Some c ->
             c = EXITCODE_RUNTIME_ERROR
             /\ exists n st rest,
                  evs = repeat SignalCaught n ++ ChildDone (Terminated st) :: rest
                  /\ Success st = false).
  { clear. induction evs as [|ev evs IH]; intros kills c Hc; [discriminate|].
    destruct ev as [ch|]; cbn [supervise] in Hc.
    - destruct ch as [st|msg]; cbn [cmd_Wait] in Hc.
      + destruct (Success st) eqn:Hst.
        * rewrite supervise_after_report in Hc. discriminate.
        * rewrite Hst in Hc. inversion Hc. split; [reflexivity|].
          exists 0, st, evs. auto.
      + rewrite supervise_after_report in Hc. discriminate.
    - apply IH in Hc. destruct Hc as (-> & n & st & rest & -> & Hst).
      split; [reflexivity|]. exists (S n), st, rest. auto. }
  apply Hloop in H. destruct H as (-> & Hev). split; [reflexivity|].
  exists w1, w2, w3. split; [reflexivity|]. split; [exact Hg|].
  split; [exact Hb|]. right. split; [exact Hs | exact Hev].
Qed.

End MainFurther.

Lemma main_drops_repeated_name_witness :
  main positional_flag_Parse quiet_stub quiet_Run good_Start
    ("gripmock" :: "gripmock" :: "protos/bar/bar.proto" :: []) example_world
    [ChildDone (Terminated (Exited 1))]
  = main positional_flag_Parse quiet_stub quiet_Run good_Start
      ("gripmock" :: "protos/bar/bar.proto" :: []) example_world
      [ChildDone (Terminated (Exited 1))].
Proof.
  apply (main_drops_repeated_name positional_flag_Parse quiet_stub quiet_Run good_Start
           "gripmock" "protos/bar/bar.proto" [] example_world
           [ChildDone (Terminated (Exited 1))]).
  discriminate.
Defined.

Lemma main_output_parent_missing_witness :
  main nested_output_flag_Parse quiet_stub quiet_Run good_Start
    ["gripmock"; "-o"; "a/b"; "protos/bar/bar.proto"] example_world []
  = Exit EXITCODE_OTHER_ERROR.
Proof.
  apply (main_output_parent_missing nested_output_flag_Parse quiet_stub quiet_Run good_Start
           ["gripmock"; "-o"; "a/b"; "protos/bar/bar.proto"] "-o"
           nested_output_flags example_world []).
  - reflexivity.
  - reflexivity.
  - discriminate.
  - reflexivity.
  - reflexivity.
Defined.

Lemma main_exit_status_cause_witness :
  (3 = 2 /\ length ["gripmock"; "protos/bar/bar.proto"] < 2
   /\ main positional_flag_Parse quiet_stub quiet_Run good_Start
        ["gripmock"; "protos/bar/bar.proto"] example_world
        [SignalCaught; ChildDone (Terminated (Exited 1))]
      = PanicIndexOutOfRange 1 (length ["gripmock"; "protos/bar/bar.proto"]))
  \/ exists arg1,
       nth_error ["gripmock"; "protos/bar/bar.proto"] 1 = Some arg1
       /\ (positional_flag_Parse
             (dropRepeatedName arg1 ["gripmock"; "protos/bar/bar.proto"])
           = FlagExit 3
           \/ exists f,
                positional_flag_Parse
                  (dropRepeatedName arg1 ["gripmock"; "protos/bar/bar.proto"])
                = Parsed f
                /\ ((3 = EXITCODE_ARGUMENTS_ERROR
                     /\ (flag_o f = "" \/ flag_Args f = []))
                    \/ (3 = EXITCODE_OTHER_ERROR
                        /\ exists e, ensureOutput example_world (flag_o f) = Err e)
                    \/ (exists w1,
                          ensureOutput example_world (flag_o f) = Ok w1
                          /\ quiet_stub w1 (flag_stub f) (flag_admin_port f)
                               (flag_admin_listen f) = Some 3)
                    \/ (3 = EXITCODE_BUILD_ERROR
                        /\ exists w1,
                             ensureOutput example_world (flag_o f) = Ok w1
                             /\ ((exists e,
                                    generateProtoc quiet_Run w1 (paramOfFlags f)
                                    = Err e)
                                 \/ exists w2 e,
                                      generateProtoc quiet_Run w1 (paramOfFlags f)
                                      = Ok w2
                                      /\ snd (buildServer quiet_Run w2 (flag_o f))
                                         = Some e))
                    \/ (3 = EXITCODE_RUNTIME_ERROR
                        /\ exists w1 w2 w3,
                             ensureOutput example_world (flag_o f) = Ok w1
                             /\ generateProtoc quiet_Run w1 (paramOfFlags f) = Ok w2
                             /\ buildServer quiet_Run w2 (flag_o f) = (w3, None)
                             /\ ((exists e,
                                    good_Start w3 (Join [flag_o f; "server"])
                                    = Some e)
                                 \/ (good_Start w3 (Join [flag_o f; "server"]) = None
                                     /\ exists n st rest,
                                          [SignalCaught;
                                           ChildDone (Terminated (Exited 1))]
                                          = repeat SignalCaught n
                                              ++ ChildDone (Terminated st) :: rest
                                          /\ Success st = false))))).
Proof.
  apply (main_exit_status_cause positional_flag_Parse quiet_stub quiet_Run good_Start
           ["gripmock"; "protos/bar/bar.proto"] example_world
           [SignalCaught; ChildDone (Terminated (Exited 1))] 3).
  vm_compute. reflexivity.
Defined.

(** X20. Once [buildServer] has changed into the output directory, every
    failure leaves the process there: the working directory is put back
    only when the three commands have succeeded. *)
Theorem buildServer_failure_cwd exec_Run (w w1 w' : World) (output e d : string) :
  sys_getwd w = Ok d ->
  os_Chdir w output = Ok w1 ->
  buildServer exec_Run w output = (w', Some e) ->
  cwd w' = abspath (cwd w) output.
Proof.
  intros Hwd Hcd. unfold buildServer. rewrite Hwd, Hcd.
  apply os_Chdir_Ok in Hcd. destruct Hcd as [Hc1 _].
  destruct (run_command exec_Run w1 _) as [w2 [e2|]] eqn:H2.
  { apply run_command_world in H2. intros H. inversion H; subst. now rewrite (proj1 H2). }
  apply run_command_world in H2. destruct H2 as [Hc2 _].
  destruct (run_command exec_Run w2 _) as [w3 [e3|]] eqn:H3.
  { apply run_command_world in H3. intros H. inversion H; subst.
    now rewrite (proj1 H3), Hc2. }
  apply run_command_world in H3. destruct H3 as [Hc3 _].
  destruct (run_command exec_Run w3 _) as [w4 [e4|]] eqn:H4.
  { apply run_command_world in H4. intros H. inversion H; subst.
    now rewrite (proj1 H4), Hc3, Hc2. }
  apply run_command_world in H4. destruct H4 as [Hc4 _].
  destruct (os_Chdir w4 d) as [w5|e5]; [discriminate|].
  intros H. inversion H; subst. now rewrite Hc4, Hc3, Hc2.
Qed.

Lemma buildServer_failure_cwd_witness :
  cwd (fst (buildServer failing_Run example_world "protos"))
  = abspath (cwd example_world) "protos".
Proof.
  apply (buildServer_failure_cwd failing_Run example_world
           {| cwd := "/w/protos"; fs := fs example_world |}
           (fst (buildServer failing_Run example_world "protos")) "protos"
           "setting go.mod name: exit status 1" "/w").
  - reflexivity.
  - reflexivity.
  - reflexivity.
Defined.




(** ** The earlier revision *)

Lemma legacy_rewriteLines_agrees (protoPath newPackage : string) (lines : list string) :
  forall found ow,
    Legacy.rewriteLines protoPath newPackage lines found ow
    = match rewriteLines newPackage lines found ow with
      | Ok r => Ok r
      | Err _ => Err (Legacy.err_multiple_syntax protoPath)
      end.
Proof.
  induction lines as [|l rest IH]; intros found ow; [reflexivity|].
  cbn [Legacy.rewriteLines rewriteLines].
  destruct (match_go_package l); [apply IH|].
  destruct (match_syntax l); [| apply IH].
  destruct found; [reflexivity | apply IH].
Qed.

(** X22. Moving the rewriting loop out of [fixGoPackage] into
    [fixGoPackageProtoStream] has kept what [fixGoPackage] does when it
    succeeds: for a package name that is not empty, the two revisions
    succeed on the same inputs and leave the same file tree. *)
Theorem legacy_fixGoPackage_agrees (w w' : World)
    (protoPath newPackage outPath : string) :
  newPackage <> "" ->
  Legacy.fixGoPackage w protoPath newPackage outPath = Ok w'
  <-> fixGoPackage w protoPath newPackage outPath = Ok w'.
Proof.
  intros Hn. unfold Legacy.fixGoPackage, fixGoPackage.
  destruct (os_Open w protoPath) as [hin|e]; [| split; discriminate].
  destruct (os_OpenFile_trunc w outPath) as [[w1 hout]|e]; [| split; discriminate].
  unfold fixGoPackageProtoStream. apply String.eqb_neq in Hn. rewrite Hn.
  cbv zeta. rewrite legacy_rewriteLines_agrees.
  destruct (rewriteLines newPackage _ false "") as [[found ow]|e];
    [| split; discriminate].
  destruct (sc_err _); [split; discriminate|].
  destruct found; [reflexivity | split; discriminate].
Qed.

Lemma legacy_fixGoPackage_agrees_witness :
  Legacy.fixGoPackage example_world "protos/bar/bar.proto"
    "gripmock/generated/x" "protos/copy.proto" = Ok copy_after.
Proof.
  apply (legacy_fixGoPackage_agrees example_world copy_after
           "protos/bar/bar.proto" "gripmock/generated/x" "protos/copy.proto").
  - discriminate.
  - vm_compute. reflexivity.
Defined.

Lemma wrap_int_small (z : Z) :
  (- 2 ^ 63 <= z < 2 ^ 63)%Z -> Legacy.wrap_int z = z.
Proof.
  intros H. unfold Legacy.wrap_int. rewrite Z.mod_small; lia.
Qed.

Lemma decimal_inj (a b : Z) : Legacy.decimal a = Legacy.decimal b -> a = b.
Proof.
  unfold Legacy.decimal. intros H. apply to_int_inj.
  pose proof (NilEmpty.isi (Z.to_int a)) as Ha.
  rewrite H, NilEmpty.isi in Ha. now inversion Ha.
Qed.

Lemma no_slash_string_of_uint (d : Decimal.uint) :
  no_slash (NilEmpty.string_of_uint d) = true.
Proof. induction d; cbn [NilEmpty.string_of_uint no_slash]; auto. Qed.

Lemma no_slash_decimal (z : Z) : no_slash (Legacy.decimal z) = true.
Proof.
  unfold Legacy.decimal. destruct (Z.to_int z); cbn [NilEmpty.string_of_int];
    [| cbn [no_slash]]; apply no_slash_string_of_uint.
Qed.

Lemma no_slash_app (a b : string) : no_slash (a +:+ b) = no_slash a && no_slash b.
Proof.
  induction a as [|x a IH]; [reflexivity|].
  rewrite append_cons. cbn [no_slash]. now rewrite IH, andb_assoc.
Qed.

(** The base name of a path joined with a name is the name. *)
Lemma Base_Join_name (x b : string) :
  is_name b = true -> no_slash b = true -> Base (Join [x; b]) = b.
Proof.
  intros Hb Hs.
  assert (Hne : b <> "") by (intros ->; discriminate).
  assert (Hpush : forall r st, stack_ok r st = true -> stack_ok r (b :: st) = true).
  { intros r st Hst. cbn [stack_ok]. now rewrite Hb, Hst. }
  destruct (String.eqb_spec x "") as [->|Hx].
  - unfold Join. rewrite !filter_cons, filter_nil.
    rewrite decide_False by (cbn; congruence).
    rewrite decide_True by now apply nonempty_true.
    change (join_slash [b]) with b.
    rewrite Clean_unfold by exact Hne. rewrite (IsAbs_name _ Hne Hs).
    rewrite split_slash_no_slash by exact Hs. unfold clean_elems. cbn [fold_left].
    rewrite clean_step_push by now apply Hpush. cbn [rev app render join_slash].
    now apply Base_no_slash.
  - rewrite Join2 by assumption.
    rewrite Clean_unfold by now apply append_nonempty_l.
    rewrite IsAbs_app by exact Hx. unfold clean_elems.
    rewrite split_slash_app, fold_left_app, split_slash_no_slash by exact Hs.
    cbn [fold_left].
    set (st := fold_left (clean_step (IsAbs x)) (split_slash x) []).
    assert (Hst : stack_ok (IsAbs x) st = true) by now apply clean_fold_ok.
    rewrite clean_step_push by now apply Hpush. cbn [rev].
    apply Base_render_snoc.
    + rewrite rev_app_distr, rev_involutive. cbn [rev app]. now apply Hpush.
    + apply Forall_app. split; [| now constructor].
      apply Forall_rev. apply clean_fold_Forall; [apply split_slash_elems | constructor].
Qed.

Lemma legacy_suffix_name (z : Z) :
  is_name ("proto" +:+ Legacy.decimal z) = true
  /\ no_slash ("proto" +:+ Legacy.decimal z) = true.
Proof.
  split; [reflexivity|]. rewrite no_slash_app, no_slash_decimal. reflexivity.
Qed.

Lemma legacy_suffix_inj (a b : Z) :
  "proto" +:+ Legacy.decimal a = "proto" +:+ Legacy.decimal b -> a = b.
Proof. intros H. apply decimal_inj. now inversion H. Qed.

Lemma legacy_genProtoPackageName (c : Z) (proto : string) :
  (0 <= c < 2 ^ 63 - 1)%Z ->
  Legacy.genProtoPackageName c proto
  = ((c + 1)%Z, "proto" +:+ Legacy.decimal (c + 1)).
Proof.
  intros H. unfold Legacy.genProtoPackageName. now rewrite wrap_int_small by lia.
Qed.

Lemma legacy_fixGoPackages_paths (output : string) (protos : list string) :
  forall (c c' : Z) (w w' : World) (outs : list string),
    (0 <= c)%Z -> (c + Z.of_nat (length protos) < 2 ^ 63)%Z ->
    Legacy.fixGoPackages c w protos output = Ok (c', w', outs) ->
    c' = (c + Z.of_nat (length protos))%Z
    /\ length outs = length protos
    /\ forall i proto,
         protos !! i = Some proto ->
         outs !! i
         = Some (Join [Join [output;
                             "proto" +:+ Legacy.decimal (c + 1 + Z.of_nat i)];
                       Base proto]).
Proof.
  induction protos as [|proto rest IH]; intros c c' w w' outs Hc Hn H.
  - cbn in H. inversion H; subst. cbn [length]. split; [lia|].
    split; [reflexivity|]. intros i p Hp. now rewrite lookup_nil in Hp.
  - cbn [length] in Hn. cbn [Legacy.fixGoPackages] in H.
    rewrite legacy_genProtoPackageName in H by lia.
    destruct (os_MkdirAll w _) as [w1|e]; [| discriminate].
    destruct (Legacy.fixGoPackage w1 _ _ _) as [w2|e]; [| discriminate].
    destruct (Legacy.fixGoPackages (c + 1) w2 rest output)
      as [[[c2 w3] outs']|e] eqn:Hrest; [| discriminate].
    inversion H; subst c2 w3 outs. clear H.
    apply IH in Hrest; [| lia | lia].
    destruct Hrest as (-> & Hlen & Hpaths). cbn [length].
    split; [lia|]. split; [now rewrite Hlen|].
    intros [|j] p Hp.
    + change (Some proto = Some p) in Hp. inversion Hp; subst.
      change ((?x :: ?l) !! 0) with (Some x). now rewrite Z.add_0_r.
    + change (rest !! j = Some p) in Hp.
      change ((?x :: ?l) !! S j) with (l !! j).
      rewrite (Hpaths _ _ Hp).
      now replace (c + 1 + Z.of_nat (S j))%Z with (c + 1 + 1 + Z.of_nat j)%Z by lia.
Qed.

Lemma legacy_directories_distinct (output : string) (c : Z) (n : nat) :
  NoDup (map (fun k => Join [output; "proto" +:+ Legacy.decimal (c + Z.of_nat k)])
           (seq 1 n)).
Proof.
  apply NoDup_fmap_2; [| apply NoDup_seq].
  intros k k' H. apply (f_equal Base) in H.
  rewrite !Base_Join_name in H by apply legacy_suffix_name.
  apply legacy_suffix_inj in H. lia.
Qed.

(** The directory of a path joined with a name is the path. *)
Lemma Dir_Join_name (x b : string) :
  x <> "" -> is_name b = true -> no_slash b = true -> Dir (Join [x; b]) = Clean x.
Proof.
  intros Hx Hb Hs.
  assert (Hne : b <> "") by (intros ->; discriminate).
  rewrite Join2 by assumption.
  rewrite Clean_unfold by now apply append_nonempty_l.
  rewrite IsAbs_app by exact Hx. unfold clean_elems.
  rewrite split_slash_app, fold_left_app, split_slash_no_slash by exact Hs.
  cbn [fold_left].
  set (st := fold_left (clean_step (IsAbs x)) (split_slash x) []).
  assert (Hst : stack_ok (IsAbs x) st = true) by now apply clean_fold_ok.
  assert (Hpush : stack_ok (IsAbs x) (b :: st) = true)
    by (cbn [stack_ok]; now rewrite Hb, Hst).
  rewrite clean_step_push by exact Hpush. cbn [rev].
  rewrite Dir_render_snoc.
  - now rewrite (Clean_unfold _ Hx).
  - rewrite rev_app_distr, rev_involutive. exact Hpush.
  - apply Forall_app. split; [| now constructor].
    apply Forall_rev. apply clean_fold_Forall; [apply split_slash_elems | constructor].
Qed.

Lemma Join_cleaned (a b : string) : a <> "" -> Clean (Join [a; b]) = Join [a; b].
Proof.
  intros Ha. unfold Join. rewrite !filter_cons, filter_nil.
  rewrite (decide_True _ _ (nonempty_true _ Ha)).
  destruct (decide (nonempty b = true)); apply Clean_idem.
Qed.

Lemma Join_nonempty (a b : string) : a <> "" -> Join [a; b] <> "".
Proof.
  intros Ha. unfold Join. rewrite !filter_cons, filter_nil.
  rewrite (decide_True _ _ (nonempty_true _ Ha)).
  destruct (decide (nonempty b = true)); apply Clean_nonempty.
Qed.

Lemma IsAbs_Join (a b : string) : a <> "" -> IsAbs (Join [a; b]) = IsAbs a.
Proof.
  intros Ha. unfold Join. rewrite !filter_cons, filter_nil.
  rewrite (decide_True _ _ (nonempty_true _ Ha)).
  destruct (decide (nonempty b = true)); rewrite IsAbs_Clean; [| reflexivity].
  change (join_slash [a; b]) with (a +:+ "/" +:+ b). now apply IsAbs_app.
Qed.

(** A name below a name below a directory: the absolute path is of the same
    form, below a directory that depends on neither name. *)
Lemma abspath_Join_names (wd output : string) :
  output <> "" ->
  exists X,
    X <> ""
    /\ forall s b,
         file_name s = true -> file_name b = true ->
         abspath wd (Join [Join [output; s]; b]) = Join [Join [X; s]; b].
Proof.
  intros Hout.
  assert (Hname : forall n, file_name n = true -> n <> "").
  { intros n Hn ->. discriminate. }
  destruct (IsAbs output) eqn:Habs; [| destruct (String.eqb_spec wd "") as [->|Hwd]].
  - exists output. split; [exact Hout|]. intros s b Hs Hb. unfold abspath.
    rewrite IsAbs_Join, IsAbs_Join, Habs by (assumption || now apply Join_nonempty).
    apply Join_cleaned. now apply Join_nonempty.
  - exists output. split; [exact Hout|]. intros s b Hs Hb. unfold abspath.
    rewrite IsAbs_Join, IsAbs_Join, Habs by (assumption || now apply Join_nonempty).
    pose proof (Join_nonempty (Join [output; s]) b (Join_nonempty _ s Hout)) as Hne.
    unfold Join at 1. rewrite !filter_cons, filter_nil.
    rewrite decide_False by (cbn; congruence).
    rewrite (decide_True _ _ (nonempty_true _ Hne)).
    change (join_slash [?x]) with x. apply Join_cleaned. now apply Join_nonempty.
  - exists (Join [wd; output]). split; [now apply Join_nonempty|].
    intros s b Hs Hb. unfold abspath.
    rewrite IsAbs_Join, IsAbs_Join, Habs by (assumption || now apply Join_nonempty).
    pose proof (Hname _ Hs) as Hsne. pose proof (Hname _ Hb) as Hbne.
    pose proof (Join_nonempty output s Hout) as Hos.
    rewrite Join_assoc_r
      by (assumption || now rewrite IsAbs_Join).
    rewrite <- Join_assoc_l by assumption.
    rewrite Join_assoc_r by assumption.
    now rewrite <- Join_assoc_l by assumption.
Qed.

(** Copies in directories of different names have different paths. *)
Lemma copy_paths_differ (X s b s' b' : string) :
  X <> "" ->
  file_name s = true -> file_name b = true ->
  file_name s' = true -> file_name b' = true ->
  Join [Join [X; s]; b] = Join [Join [X; s']; b'] -> s = s'.
Proof.
  unfold file_name. intros HX Hs Hb Hs' Hb' E.
  apply andb_prop in Hs, Hb, Hs', Hb'.
  destruct Hs as [Hs1 Hs2], Hb as [Hb1 Hb2], Hs' as [Hs1' Hs2'], Hb' as [Hb1' Hb2'].
  apply (f_equal Dir) in E.
  rewrite !Dir_Join_name, !Join_cleaned in E
    by (assumption || now apply Join_nonempty).
  apply (f_equal Base) in E. now rewrite !Base_Join_name in E by assumption.
Qed.

Lemma legacy_fixGoPackage_new (w w' : World) (protoPath newPackage outPath : string) :
  newPackage <> "" ->
  Legacy.fixGoPackage w protoPath newPackage outPath = Ok w' ->
  fixGoPackage w protoPath newPackage outPath = Ok w'.
Proof.
  intros Hn. unfold Legacy.fixGoPackage, fixGoPackage.
  destruct (os_Open w protoPath) as [hin|e]; [| discriminate].
  destruct (os_OpenFile_trunc w outPath) as [[w1 hout]|e]; [| discriminate].
  unfold fixGoPackageProtoStream. apply String.eqb_neq in Hn. rewrite Hn.
  cbv zeta. rewrite legacy_rewriteLines_agrees.
  destruct (rewriteLines newPackage _ false "") as [[found ow]|e];
    [| discriminate].
  destruct (sc_err _); [discriminate|].
  destruct found; [auto | discriminate].
Qed.

(** One file of the earlier revision: the copy is written, and nothing
    else is changed but for the directories made. *)
Lemma legacy_step (w w1 w2 : World) (dir proto newPackage : string) :
  newPackage <> "" ->
  os_MkdirAll w dir = Ok w1 ->
  Legacy.fixGoPackage w1 proto newPackage (Join [dir; Base proto]) = Ok w2 ->
  cwd w2 = cwd w
  /\ (exists source text,
        node_at (fs w) (abspath (cwd w) proto) = Some (File source)
        /\ fixGoPackageProtoStream (NewScanner source) newPackage = Ok text
        /\ node_at (fs w2) (abspath (cwd w) (Join [dir; Base proto]))
           = Some (File text))
  /\ (forall q n,
        node_at (fs w) q = Some n ->
        node_at (fs w2) q = Some n \/ q = abspath (cwd w) (Join [dir; Base proto]))
  /\ (forall q t,
        node_at (fs w2) q = Some (File t) ->
        node_at (fs w) q = Some (File t)
        \/ q = abspath (cwd w) (Join [dir; Base proto])).
Proof.
  intros Hn Hmk Hfix. apply os_MkdirAll_Ok in Hmk. destruct Hmk as (Hc1 & Hkeep & Hfiles).
  apply legacy_fixGoPackage_new in Hfix; [| exact Hn].
  pose proof (fixGoPackage_Ok _ _ _ _ _ Hfix)
    as (source & text & Hsrc & Hrw & Hcopy & Hc2).
  apply fixGoPackage_writes in Hfix.
  destruct Hfix as (_ & _ & _ & _ & text' & Hfs).
  rewrite Hc1 in *. split; [exact Hc2|]. split; [| split].
  - exists source, text. auto.
  - intros q n Hq. apply Hkeep in Hq. rewrite Hfs.
    destruct (String.eqb_spec (abspath (cwd w) (Join [dir; Base proto])) q)
      as [<-|Hne]; [now right|].
    left. now rewrite !node_at_insert_ne.
  - intros q t Hq. rewrite Hfs in Hq.
    destruct (String.eqb_spec (abspath (cwd w) (Join [dir; Base proto])) q)
      as [<-|Hne]; [now right|].
    left. rewrite !node_at_insert_ne in Hq by exact Hne. now apply Hfiles.
Qed.

Lemma legacy_package_nonempty (suffix : string) :
  Join [GENERATED_MODULE_NAME; suffix] <> "".
Proof. apply Join_nonempty. discriminate. Qed.

Lemma legacy_fixGoPackages_frame (output : string) (protos : list string) :
  forall (c c' : Z) (w w' : World) (outs : list string),
    Legacy.fixGoPackages c w protos output = Ok (c', w', outs) ->
    cwd w' = cwd w
    /\ (forall q n,
          node_at (fs w) q = Some n ->
          node_at (fs w') q = Some n \/ In q (map (abspath (cwd w)) outs))
    /\ (forall q t,
          node_at (fs w') q = Some (File t) ->
          node_at (fs w) q = Some (File t) \/ In q (map (abspath (cwd w)) outs)).
Proof.
  induction protos as [|proto rest IH]; intros c c' w w' outs H.
  - cbn in H. inversion H; subst. auto.
  - cbn [Legacy.fixGoPackages] in H.
    destruct (Legacy.genProtoPackageName c proto) as [c1 suffix].
    destruct (os_MkdirAll w _) as [w1|e] eqn:Hmk; [| discriminate].
    destruct (Legacy.fixGoPackage w1 _ _ _) as [w2|e] eqn:Hfix; [| discriminate].
    destruct (Legacy.fixGoPackages c1 w2 rest output)
      as [[[c2 w3] outs']|e] eqn:Hrest; [| discriminate].
    inversion H; subst c2 w3 outs. clear H.
    destruct (legacy_step _ _ _ _ _ _ (legacy_package_nonempty suffix) Hmk Hfix)
      as (Hc2 & _ & Hfwd & Hback).
    destruct (IH _ _ _ _ _ Hrest) as (Hc3 & Hfwd' & Hback').
    rewrite Hc2 in *. split; [exact Hc3|]. cbn [map]. split.
    + intros q n Hq. destruct (Hfwd q n Hq) as [Hq2| ->]; [| right; now left].
      destruct (Hfwd' q n Hq2) as [?|?]; [now left | right; now right].
    + intros q t Hq. destruct (Hback' q t Hq) as [Hq2|?]; [| right; now right].
      destruct (Hback q t Hq2) as [?| ->]; [now left | right; now left].
Qed.

(** The copies of the earlier revision, in the file tree it leaves. *)
Lemma legacy_copies (output : string) (protos : list string) :
  output <> "" ->
  forall (c c' : Z) (w w' : World) (outs : list string),
    (0 <= c)%Z -> (c + Z.of_nat (length protos) < 2 ^ 63)%Z ->
    Forall (fun p => file_name (Base p) = true) protos ->
    Legacy.fixGoPackages c w protos output = Ok (c', w', outs) ->
    forall i proto,
      protos !! i = Some proto ->
      exists source pre syn post,
        (node_at (fs w) (abspath (cwd w) proto) = Some (File source)
         \/ In (abspath (cwd w) proto) (map (abspath (cwd w)) (take i outs)))
        /\ kept (sc_lines (NewScanner source)) = pre ++ syn :: post
        /\ node_at (fs w')
             (abspath (cwd w)
                (Join [Join [output;
                             "proto" +:+ Legacy.decimal (c + 1 + Z.of_nat i)];
                       Base proto]))
           = Some (File (unlines
                           (pre ++ syn
                              :: go_package_line
                                   (Join [GENERATED_MODULE_NAME;
                                          "proto"
                                          +:+ Legacy.decimal (c + 1 + Z.of_nat i)])
                              :: "" :: post))).
Proof.
  intros Hout. induction protos as [|proto0 rest IH];
    intros c c' w w' outs Hc Hn Hnames H i proto Hi.
  { now rewrite lookup_nil in Hi. }
  cbn [length] in Hn. pose proof H as Hall. cbn [Legacy.fixGoPackages] in H.
  rewrite legacy_genProtoPackageName in H by lia.
  destruct (os_MkdirAll w _) as [w1|e] eqn:Hmk; [| discriminate].
  destruct (Legacy.fixGoPackage w1 _ _ _) as [w2|e] eqn:Hfix; [| discriminate].
  destruct (Legacy.fixGoPackages (c + 1) w2 rest output)
    as [[[c2 w3] outs']|e] eqn:Hrest; [| discriminate].
  inversion H; subst c2 w3 outs. clear H.
  destruct (legacy_step _ _ _ _ _ _ (legacy_package_nonempty _) Hmk Hfix)
    as (Hc2 & (source & text & Hsrc & Hrw & Hcopy) & _ & Hback).
  inversion Hnames as [|? ? Hname0 Hnames']; subst.
  destruct i as [|j].
  - change (Some proto0 = Some proto) in Hi. inversion Hi; subst proto0. clear Hi.
    destruct (fixGoPackageProtoStream_shape _ _ _ Hrw)
      as (pre & syn & post & Hk & _ & _ & Htext).
    exists source, pre, syn, post. split; [now left|]. split; [exact Hk|].
    rewrite Z.add_0_r. rewrite <- Htext.
    destruct (legacy_fixGoPackages_frame _ _ _ _ _ _ _ Hrest) as (_ & Hfwd & _).
    destruct (Hfwd _ _ Hcopy) as [?|Hin]; [assumption|]. exfalso.
    rewrite Hc2 in Hin. apply in_map_iff in Hin. destruct Hin as (o & Ho & Hin).
    apply list_elem_of_In, list_elem_of_lookup in Hin. destruct Hin as [j Hj].
    assert (Hc' : (0 <= c + 1)%Z) by lia.
    assert (Hn' : (c + 1 + Z.of_nat (length rest) < 2 ^ 63)%Z) by lia.
    destruct (legacy_fixGoPackages_paths _ _ _ _ _ _ _ Hc' Hn' Hrest)
      as (_ & Hlen & Hpaths).
    assert (Hlt : j < length rest)
      by (rewrite <- Hlen; apply lookup_lt_is_Some; eauto).
    apply lookup_lt_is_Some in Hlt. destruct Hlt as [pj Hpj].
    rewrite (Hpaths _ _ Hpj) in Hj. inversion Hj; subst o. clear Hj.
    destruct (abspath_Join_names (cwd w) output Hout) as (X & HX & Habs).
    assert (Hnamej : file_name (Base pj) = true).
    { rewrite Forall_forall in Hnames'. apply Hnames'.
      apply list_elem_of_lookup. eauto. }
    assert (Hsuffix : forall z, file_name ("proto" +:+ Legacy.decimal z) = true).
    { intros z. unfold file_name.
      destruct (legacy_suffix_name z) as [-> ->]. reflexivity. }
    rewrite !Habs in Ho by (apply Hsuffix || assumption).
    apply copy_paths_differ in Ho; try (apply Hsuffix || assumption).
    apply legacy_suffix_inj in Ho. lia.
  - change (rest !! j = Some proto) in Hi.
    assert (Hc' : (0 <= c + 1)%Z) by lia.
    assert (Hn' : (c + 1 + Z.of_nat (length rest) < 2 ^ 63)%Z) by lia.
    destruct (IH (c + 1)%Z c' w2 w' outs' Hc' Hn' Hnames' Hrest j proto Hi)
      as (src & pre & syn & post & Hwhere & Hk & Hnode).
    exists src, pre, syn, post. rewrite Hc2 in *.
    replace (c + 1 + Z.of_nat (S j))%Z with (c + 1 + 1 + Z.of_nat j)%Z by lia.
    split; [| split; [exact Hk | exact Hnode]].
    cbn [take map]. destruct Hwhere as [Hq | Hin]; [| right; now right].
    destruct (Hback _ _ Hq) as [?|E]; [now left|].
    right. left. now rewrite E.
Qed.

(** X23. In the earlier revision the copies of the requested files go into
    directories of their own.  The file at position [i] (from 0) of the
    command line, with the counter at [c] before, is copied under its base
    name into the directory [proto<c+1+i>] below the output directory,
    with the package [proto<c+1+i>] below [gripmock/generated]; these
    directories are pairwise distinct, so that, for references that end in
    a file name, every copy is there in the end; and the counter ends at
    [c] plus the number of files.  What is copied is the file at the
    reference at the start, unless the reference is the path of a copy
    made before. *)
Theorem legacy_fixGoPackages_directories (c c' : Z) (w w' : World)
    (protos outs : list string) (output : string) :
  (0 <= c)%Z -> (c + Z.of_nat (length protos) < 2 ^ 63)%Z ->
  output <> "" ->
  Forall (fun p => file_name (Base p) = true) protos ->
  Legacy.fixGoPackages c w protos output = Ok (c', w', outs) ->
  c' = (c + Z.of_nat (length protos))%Z
  /\ length outs = length protos
  /\ (forall i proto,
        protos !! i = Some proto ->
        outs !! i
        = Some (Join [Join [output;
                            "proto" +:+ Legacy.decimal (c + 1 + Z.of_nat i)];
                      Base proto])
        /\ exists source pre syn post,
             (node_at (fs w) (abspath (cwd w) proto) = Some (File source)
              \/ In (abspath (cwd w) proto) (map (abspath (cwd w)) (take i outs)))
             /\ kept (sc_lines (NewScanner source)) = pre ++ syn :: post
             /\ node_at (fs w')
                  (abspath (cwd w)
                     (Join [Join [output;
                                  "proto" +:+ Legacy.decimal (c + 1 + Z.of_nat i)];
                            Base proto]))
                = Some (File (unlines
                                (pre ++ syn
                                   :: ("option go_package = " +:+ DQ
                                       +:+ Join ["gripmock/generated";
                                                 "proto"
                                                 +:+ Legacy.decimal
                                                       (c + 1 + Z.of_nat i)]
                                       +:+ DQ +:+ ";")
                                   :: "" :: post))))
  /\ NoDup (map (fun k => Join [output; "proto" +:+ Legacy.decimal (c + Z.of_nat k)])
              (seq 1 (length protos))).
Proof.
  intros Hc Hn Hout Hnames H.
  destruct (legacy_fixGoPackages_paths _ _ _ _ _ _ _ Hc Hn H) as (H1 & H2 & H3).
  split; [exact H1|]. split; [exact H2|]. split; [| apply legacy_directories_distinct].
  intros i proto Hi. split; [exact (H3 _ _ Hi)|].
  exact (legacy_copies output protos Hout c c' w w' outs Hc Hn Hnames H i proto Hi).
Qed.

Lemma legacy_fixGoPackages_directories_witness :
  2%Z = (0 + Z.of_nat 2)%Z
  /\ length legacy_copies_example = 2
  /\ (forall i proto,
        ["mp/hello.proto"; "mp/bar/bar.proto"] !! i = Some proto ->
        legacy_copies_example !! i
        = Some (Join [Join ["generated/";
                            "proto" +:+ Legacy.decimal (0 + 1 + Z.of_nat i)];
                      Base proto])
        /\ exists source pre syn post,
             (node_at (fs multi_world) (abspath (cwd multi_world) proto)
              = Some (File source)
              \/ In (abspath (cwd multi_world) proto)
                   (map (abspath (cwd multi_world)) (take i legacy_copies_example)))
             /\ kept (sc_lines (NewScanner source)) = pre ++ syn :: post
             /\ node_at (fs legacy_rewritten)
                  (abspath (cwd multi_world)
                     (Join [Join ["generated/";
                                  "proto" +:+ Legacy.decimal (0 + 1 + Z.of_nat i)];
                            Base proto]))
                = Some (File (unlines
                                (pre ++ syn
                                   :: ("option go_package = " +:+ DQ
                                       +:+ Join ["gripmock/generated";
                                                 "proto"
                                                 +:+ Legacy.decimal
                                                       (0 + 1 + Z.of_nat i)]
                                       +:+ DQ +:+ ";")
                                   :: "" :: post))))
  /\ NoDup (map (fun k => Join ["generated/";
                                "proto" +:+ Legacy.decimal (0 + Z.of_nat k)])
              (seq 1 2)).
Proof.
  apply (legacy_fixGoPackages_directories 0 2%Z multi_world
           legacy_rewritten ["mp/hello.proto"; "mp/bar/bar.proto"]
           legacy_copies_example "generated/").
  - lia.
  - vm_compute. reflexivity.
  - discriminate.
  - repeat constructor.
  - vm_compute. reflexivity.
Defined.

Section LegacyMain.

Variable flag_Parse : list string -> FlagResult.
Variable stub_RunStubServer : World -> string -> string -> string -> option nat.
Variable exec_Run :
  string -> gmap string Node -> list string -> gmap string Node * option string.
Variable exec_Start : World -> string -> option string.

#[local] Abbreviation legacy_main := (Legacy.main flag_Parse stub_RunStubServer exec_Run exec_Start).

Lemma legacy_main_startup (osArgs : list string) (w : World) :
  (exists o, o <> Blocked /\ forall events, legacy_main osArgs w events = o)
  \/ (forall events, legacy_main osArgs w events = snd (Legacy.select_once events)).
Proof.
  unfold Legacy.main.
  destruct (nth_error osArgs 1) as [arg1|];
    [| left; eexists; split; [| reflexivity]; discriminate].
  destruct (flag_Parse _) as [code|f];
    [left; eexists; split; [| reflexivity]; discriminate|].
  cbv zeta.
  destruct (stub_RunStubServer _ _ _ _) as [code|];
    [left; eexists; split; [| reflexivity]; discriminate|].
  destruct (Nat.eqb _ 0);
    [left; eexists; split; [| reflexivity]; discriminate|].
  destruct (Legacy.generateProtoc _ _ _ _) as [[c w2]|e];
    [| left; eexists; split; [| reflexivity]; discriminate].
  destruct (Legacy.buildServer _ _ _) as [w3|e];
    [| left; eexists; split; [| reflexivity]; discriminate].
  destruct (Legacy.runGrpcServer _ _ _) as [u|e];
    [| left; eexists; split; [| reflexivity]; discriminate].
  right. reflexivity.
Qed.

(** X24. In the earlier revision [main] waits once: when the server it has
    started ends, however it ends, the program exits with status 1; when a
    signal comes first, the server is killed once and the program exits
    with status 0 without waiting for it. *)
Theorem legacy_main_select (osArgs : list string) (w : World) (c : ChildEnd)
    (rest : list Event) :
  legacy_main osArgs w [] = Blocked ->
  legacy_main osArgs w (ChildDone c :: rest) = Exit 1
  /\ legacy_main osArgs w (SignalCaught :: rest) = Exit 0
  /\ Legacy.select_once (SignalCaught :: rest) = (1, Exit 0).
Proof.
  intros Hstart.
  destruct (legacy_main_startup osArgs w) as [(o & Ho & Hmain) | Hmain].
  - rewrite Hmain in Hstart. contradiction.
  - rewrite !Hmain. repeat split.
Qed.

(** X25. The earlier revision tells failures apart by nothing.  A program
    started without an argument ends by a panic, with status 2; apart from
    that and from a status that [flag.Parse] or the call of the admin stub
    server ends the program with, the program exits with status 1, or with
    status 0 when the first thing to happen after the start of the server
    is a signal. *)
Theorem legacy_main_exit_status (osArgs : list string) (w : World)
    (events : list Event) (code : nat) :
  exit_status (legacy_main osArgs w events) = Some code ->
  (code = 2 /\ length osArgs < 2
   /\ legacy_main osArgs w events = PanicIndexOutOfRange 1 (length osArgs))
  \/ (exists arg1,
        nth_error osArgs 1 = Some arg1
        /\ (flag_Parse (dropRepeatedName arg1 osArgs) = FlagExit code
            \/ exists f w1,
                 flag_Parse (dropRepeatedName arg1 osArgs) = Parsed f
                 /\ stub_RunStubServer w1 (flag_stub f) (flag_admin_port f)
                      (flag_admin_listen f) = Some code))
  \/ (2 <= length osArgs /\ code = 1)
  \/ (2 <= length osArgs /\ code = 0 /\ exists rest, events = SignalCaught :: rest).
Proof.
  unfold Legacy.main.
  destruct (nth_error osArgs 1) as [arg1|] eqn:Harg.
  2:{ intros H. left. inversion H. split; [reflexivity|].
      apply nth_error_None in Harg. split; [lia | reflexivity]. }
  assert (Hlen : 2 <= length osArgs).
  { assert (Hlt : 1 < length osArgs) by (apply nth_error_Some; congruence). lia. }
  destruct (flag_Parse _) as [c|f] eqn:Hparse.
  { intros H. inversion H; subst. right. left. eauto. }
  cbv zeta. intros H. right.
  destruct (stub_RunStubServer _ _ _ _) as [c|] eqn:Hstub.
  { inversion H; subst. left. exists arg1. split; [reflexivity|]. right.
    eexists f, _. split; [first [reflexivity | exact Hparse] | exact Hstub]. }
  right.
  destruct (Nat.eqb _ 0); [left; split; [exact Hlen | cbn in H; congruence]|].
  destruct (Legacy.generateProtoc _ _ _ _) as [[c w2]|e];
    [| left; split; [exact Hlen | cbn in H; congruence]].
  destruct (Legacy.buildServer _ _ _) as [w3|e];
    [| left; split; [exact Hlen | cbn in H; congruence]].
  destruct (Legacy.runGrpcServer _ _ _) as [u|e];
    [| left; split; [exact Hlen | cbn in H; congruence]].
  destruct events as [|[ch|] rest]; cbn in H;
    [discriminate | left; split; [exact Hlen | congruence] |].
  right. inversion H. eauto.
Qed.

End LegacyMain.

Lemma legacy_main_select_witness :
  Legacy.main positional_flag_Parse quiet_stub quiet_Run good_Start
    ["gripmock"; "protos/bar/bar.proto"] example_world [clean_exit] = Exit 1
  /\ Legacy.main positional_flag_Parse quiet_stub quiet_Run good_Start
       ["gripmock"; "protos/bar/bar.proto"] example_world [SignalCaught] = Exit 0
  /\ Legacy.select_once [SignalCaught] = (1, Exit 0).
Proof.
  apply (legacy_main_select positional_flag_Parse quiet_stub quiet_Run good_Start
           ["gripmock"; "protos/bar/bar.proto"] example_world
           (Terminated (Exited 0)) []).
  vm_compute. reflexivity.
Defined.

Lemma legacy_main_exit_status_witness :
  (0 = 2 /\ length ["gripmock"; "protos/bar/bar.proto"] < 2
   /\ Legacy.main positional_flag_Parse quiet_stub quiet_Run good_Start
        ["gripmock"; "protos/bar/bar.proto"] example_world [SignalCaught; clean_exit]
      = PanicIndexOutOfRange 1 (length ["gripmock"; "protos/bar/bar.proto"]))
  \/ (exists arg1,
        nth_error ["gripmock"; "protos/bar/bar.proto"] 1 = Some arg1
        /\ (positional_flag_Parse
              (dropRepeatedName arg1 ["gripmock"; "protos/bar/bar.proto"])
            = FlagExit 0
            \/ exists f w1,
                 positional_flag_Parse
                   (dropRepeatedName arg1 ["gripmock"; "protos/bar/bar.proto"])
                 = Parsed f
                 /\ quiet_stub w1 (flag_stub f) (flag_admin_port f)
                      (flag_admin_listen f) = Some 0))
  \/ (2 <= length ["gripmock"; "protos/bar/bar.proto"] /\ 0 = 1)
  \/ (2 <= length ["gripmock"; "protos/bar/bar.proto"] /\ 0 = 0
      /\ exists rest, [SignalCaught; clean_exit] = SignalCaught :: rest).
Proof.
  apply (legacy_main_exit_status positional_flag_Parse quiet_stub quiet_Run good_Start
           ["gripmock"; "protos/bar/bar.proto"] example_world
           [SignalCaught; clean_exit] 0).
  vm_compute. reflexivity.
Defined.
